(** * clode-app: the WebSocket protocol hook, embedded and verified

    A shallow embedding of [src/hooks/useWebSocketServer.ts] (with the data
    model of [src/types.ts]): the JSON-RPC call dispatcher with its pending
    table and timers, the connection life cycle, the notification router that
    folds server events into the session store, and the session operations
    offered to the screens.

    Conventions of the embedding.
    - React state ([useState]) is a field of [State]; a [setX(f)] applies [f]
      to the field at once.  [sessionRef.current] is a separate field, the
      copy of [sessions] taken at the last render ([ERender]).
    - Optional TypeScript fields ([x?: T]) are [option T]; a JavaScript
      truthiness test on them is written out ([truthy], [nonempty]).
    - [Date.now()] is an input of every handler (the [now] argument).
    - Closures stored in tables (pending [resolve]/[reject], timer callbacks,
      the code after an [await]) are defunctionalised into small inductive
      types and interpreted by [pending_resolve], [pending_reject],
      [fire_timer] and [run_cont].
    - Correlation ids are JavaScript numbers counted up from 1 by one; they
      are exact integers for the first 2^53 allocations and are modelled in
      [N]. *)

From stdpp Require Import strings list sorting pretty.

Open Scope string_scope.
Open Scope list_scope.

(** ** Data model: [src/types.ts] *)

Inductive PermissionMode := mode_default | acceptEdits | bypassPermissions | dontAsk.

Inductive Item :=
| TextItem (text : string)
| ThinkingItem (thinking : string)
| ToolCallItem (tool_use_id name input : string)
| ToolResultItem (tool_use_id content : string) (is_error : option bool).

(** [item.type], the tag of the variant. *)
Definition item_type (i : Item) : string :=
  match i with
  | TextItem _ => "text"
  | ThinkingItem _ => "thinking"
  | ToolCallItem _ _ _ => "tool_call"
  | ToolResultItem _ _ _ => "tool_result"
  end.

Record StoredItem := mkStoredItem {
  si_id : string;
  si_created_at : Z;
  si_item : Item }.

Inductive MessageRole := user | assistant.

Record ChatMessage := mkChatMessage {
  msg_id : string;
  role : MessageRole;
  content : string;
  items : option (list StoredItem);
  streamingText : option string;
  isStreaming : option bool }.

Inductive TurnStatus := turn_active | turn_completed | turn_interrupted | turn_error.

Record Turn := mkTurn {
  turn_id : string;
  turn_thread_id : string;
  turn_status : TurnStatus;
  user_content : string;
  turn_messages : list ChatMessage }.

Record PermissionDenial := mkPermissionDenial {
  tool_name : string;
  denied_tool_use_id : string;
  tool_input : option string }.

Record Session := mkSession {
  thread_id : string;
  created_at : Z;
  cwd : string;
  permission_mode : PermissionMode;
  turns : list Turn;
  active_turn_id : option string;
  messages : list ChatMessage;
  lastBlockedContent : option string;
  hasPermissionDenial : option bool;
  permissionDenials : option (list PermissionDenial) }.

Inductive ConnectionStatus := disconnected | connecting | connected | error.

#[global] Instance MessageRole_eq_dec : EqDecision MessageRole.
Proof. solve_decision. Defined.

(** JavaScript truthiness of an optional boolean and of an optional string. *)
Definition truthy (b : option bool) : bool :=
  match b with Some true => true | _ => false end.

Definition nonempty (s : option string) : bool :=
  match s with Some (String _ _) => true | _ => false end.

(** [a ?? b] *)
Definition nullish {A} (a : option A) (b : A) : A :=
  match a with Some x => x | None => b end.

(** ** Object spreads [{ ...s, field: v }] *)

Definition set_active_turn_id (v : option string) (s : Session) : Session :=
  {| thread_id := thread_id s; created_at := created_at s; cwd := cwd s;
     permission_mode := permission_mode s; turns := turns s;
     active_turn_id := v; messages := messages s;
     lastBlockedContent := lastBlockedContent s;
     hasPermissionDenial := hasPermissionDenial s;
     permissionDenials := permissionDenials s |}.

Definition set_messages (v : list ChatMessage) (s : Session) : Session :=
  {| thread_id := thread_id s; created_at := created_at s; cwd := cwd s;
     permission_mode := permission_mode s; turns := turns s;
     active_turn_id := active_turn_id s; messages := v;
     lastBlockedContent := lastBlockedContent s;
     hasPermissionDenial := hasPermissionDenial s;
     permissionDenials := permissionDenials s |}.

Definition set_permission_mode (v : PermissionMode) (s : Session) : Session :=
  {| thread_id := thread_id s; created_at := created_at s; cwd := cwd s;
     permission_mode := v; turns := turns s;
     active_turn_id := active_turn_id s; messages := messages s;
     lastBlockedContent := lastBlockedContent s;
     hasPermissionDenial := hasPermissionDenial s;
     permissionDenials := permissionDenials s |}.

Definition set_lastBlockedContent (v : option string) (s : Session) : Session :=
  {| thread_id := thread_id s; created_at := created_at s; cwd := cwd s;
     permission_mode := permission_mode s; turns := turns s;
     active_turn_id := active_turn_id s; messages := messages s;
     lastBlockedContent := v;
     hasPermissionDenial := hasPermissionDenial s;
     permissionDenials := permissionDenials s |}.

Definition set_denial (flag : option bool) (l : option (list PermissionDenial))
    (s : Session) : Session :=
  {| thread_id := thread_id s; created_at := created_at s; cwd := cwd s;
     permission_mode := permission_mode s; turns := turns s;
     active_turn_id := active_turn_id s; messages := messages s;
     lastBlockedContent := lastBlockedContent s;
     hasPermissionDenial := flag;
     permissionDenials := l |}.

Definition set_streamingText (v : option string) (m : ChatMessage) : ChatMessage :=
  {| msg_id := msg_id m; role := role m; content := content m; items := items m;
     streamingText := v; isStreaming := isStreaming m |}.

Definition set_items (v : option (list StoredItem)) (m : ChatMessage) : ChatMessage :=
  {| msg_id := msg_id m; role := role m; content := content m; items := v;
     streamingText := streamingText m; isStreaming := isStreaming m |}.

Definition set_isStreaming (v : option bool) (m : ChatMessage) : ChatMessage :=
  {| msg_id := msg_id m; role := role m; content := content m; items := items m;
     streamingText := streamingText m; isStreaming := v |}.

(** ** The notification router: [handleNotification] *)

(** [delta: { type: string; text?: string }] *)
Record Delta := mkDelta { delta_type : string; delta_text : option string }.

(** The [params] object of a notification, through the casts of the handler:
    the fields it reads, at the types it reads them at. *)
Record Params := mkParams {
  p_turn_id : string;
  p_thread_id : string;
  p_delta : Delta;
  p_item : StoredItem;
  p_denials : list PermissionDenial }.

(** [prev.map(s => s.thread_id === thread_id ? updater(s) : s)] *)
Definition updateSession (tid : string) (updater : Session → Session)
    (prev : list Session) : list Session :=
  map (λ s, if bool_decide (thread_id s = tid) then updater s else s) prev.

(** [sessionRef.current.find(s => s.active_turn_id === turn_id)] *)
Definition find_by_turn (tid : string) (cur : list Session) : option Session :=
  find (λ s, bool_decide (active_turn_id s = Some tid)) cur.

(** The per-session update of [item/progress] with a text delta. *)
Definition progress_messages (tid text : string) (msgs : list ChatMessage)
    : list ChatMessage :=
  match last msgs with
  | Some lastMsg =>
      if bool_decide (role lastMsg = assistant) && truthy (isStreaming lastMsg)
      then <[ length msgs - 1 :=
               set_streamingText
                 (Some (nullish (streamingText lastMsg) "" +:+ text)) lastMsg ]> msgs
      else msgs ++ [ {| msg_id := "streaming-" +:+ tid; role := assistant;
                        content := ""; items := Some [];
                        streamingText := Some text; isStreaming := Some true |} ]
  | None =>
      msgs ++ [ {| msg_id := "streaming-" +:+ tid; role := assistant;
                   content := ""; items := Some [];
                   streamingText := Some text; isStreaming := Some true |} ]
  end.

(** [filteredMsgs.findIndex(m => m.id === key)] *)
Fixpoint findIndex (key : string) (l : list ChatMessage) : option nat :=
  match l with
  | [] => None
  | m :: l' => if bool_decide (msg_id m = key) then Some 0
               else S <$> findIndex key l'
  end.

(** The per-session update of [item/created].  When [findIndex] finds nothing
    the source assigns to index -1, which leaves the elements as they are. *)
Definition created_messages (tid : string) (it : StoredItem)
    (msgs : list ChatMessage) : list ChatMessage :=
  let filteredMsgs :=
    List.filter (λ m, negb (truthy (isStreaming m)
                           && bool_decide (item_type (si_item it) = "text"))) msgs in
  match find (λ m, bool_decide (role m = assistant)
                   && bool_decide (msg_id m = "turn-" +:+ tid)) filteredMsgs with
  | None =>
      filteredMsgs ++ [ {| msg_id := "turn-" +:+ tid; role := assistant;
                           content := ""; items := Some [it];
                           streamingText := None; isStreaming := Some false |} ]
  | Some assistantMsg =>
      match findIndex ("turn-" +:+ tid) filteredMsgs with
      | Some idx =>
          <[ idx := set_items (Some (nullish (items assistantMsg) [] ++ [it]))
                              assistantMsg ]> filteredMsgs
      | None => filteredMsgs
      end
  end.

(** [s.messages.filter(m => m.role === 'user').pop()?.content] *)
Definition last_user_content (msgs : list ChatMessage) : option string :=
  content <$> last (List.filter (λ m, bool_decide (role m = user)) msgs).

(** The updater of [turn/completed] and [turn/error]. *)
Definition finish_turn (s : Session) : Session :=
  set_messages
    (map (λ m, if truthy (isStreaming m)
               then set_items (Some (nullish (items m) []))
                      (set_isStreaming (Some false) m)
               else m) (messages s))
    (set_active_turn_id None s).

(** [handleNotification(method, params)]: [cur] is [sessionRef.current], the
    result is the function handed to [setSessions] applied to [prev]. *)
Definition handleNotification (cur : list Session) (method : string) (p : Params)
    (prev : list Session) : list Session :=
  if bool_decide (method = "initialized") then prev
  else if bool_decide (method = "turn/started") then
    updateSession (p_thread_id p) (set_active_turn_id (Some (p_turn_id p))) prev
  else if bool_decide (method = "item/progress") then
    match find_by_turn (p_turn_id p) cur with
    | None => prev
    | Some session =>
        if bool_decide (delta_type (p_delta p) = "text")
           && nonempty (delta_text (p_delta p))
        then map (λ s, if bool_decide (thread_id s ≠ thread_id session) then s
                       else set_messages
                              (progress_messages (p_turn_id p)
                                 (nullish (delta_text (p_delta p)) "")
                                 (messages s)) s) prev
        else prev
    end
  else if bool_decide (method = "item/created") then
    match find_by_turn (p_turn_id p) cur with
    | None => prev
    | Some session =>
        map (λ s, if bool_decide (thread_id s ≠ thread_id session) then s
                  else set_messages
                         (created_messages (p_turn_id p) (p_item p) (messages s)) s)
            prev
    end
  else if bool_decide (method = "turn/permission_denied") then
    updateSession (p_thread_id p)
      (λ s, set_lastBlockedContent
              (match lastBlockedContent s with
               | Some c => Some c
               | None => last_user_content (messages s)
               end)
              (set_denial (Some true) (Some (p_denials p)) s)) prev
  else if bool_decide (method = "turn/completed") || bool_decide (method = "turn/error")
  then updateSession (p_thread_id p) finish_turn prev
  else prev.

(** ** The call dispatcher and the connection manager *)

Definition CALL_TIMEOUT_MS : Z := 30000.
Definition INIT_TIMEOUT_MS : Z := 10000.

Inductive ReadyState := CONNECTING | OPEN | CLOSING | CLOSED.

#[global] Instance ReadyState_eq_dec : EqDecision ReadyState.
Proof. solve_decision. Defined.

Record WebSocket := mkWebSocket { ws_url : string; readyState : ReadyState }.

(** What a promise is rejected with: an [Error] object (its message) or the
    [error] member of a response (its JSON text). *)
Inductive Reason := JsError (message : string) | ErrorPayload (json : string).

(** The [result] member of a response, through the casts of the call sites. *)
Record Result := mkResult {
  r_thread_id : string;
  r_created_at : Z;
  r_turn_id : string }.

Inductive Settlement := Resolved (v : Result) | Rejected (e : Reason).

(** The code of an async operation that follows its [await call(...)]. *)
Inductive Cont :=
| AfterThreadStart (dir : string) (mode : PermissionMode)
| AfterTurnStart
| AfterInterrupt
| AfterApprove (tid : string) (mode : option PermissionMode)
| AfterChangeMode (tid : string) (mode : PermissionMode)
| AfterDeleteInterrupt (tid : string).

(** A promise made by [call]: still waiting, with the continuation that awaits
    it once attached, or settled. *)
Inductive Promise := Waiting (k : option Cont) | Settled (o : Settlement).

(** The [resolve]/[reject] pair of a pending record: the pair made by [call]
    (it clears [timer] and settles [promise]) or the pair made by [onopen]
    for the handshake (it clears [initTimer] and sets the status). *)
Inductive Completion :=
| CallCompletion (timer promise : nat)
| InitCompletion (initTimer : nat).

Record PendingRec := mkPendingRec {
  method : string;
  startedAt : Z;
  completion : Completion }.

Inductive TimerCallback :=
| CallTimeout (id : N) (meth : string) (started : Z) (promise : nat)
| InitTimeout (id : N).

Record Timer := mkTimer { delay : Z; callback : TimerCallback }.

Inductive CallParams :=
| InitializeParams (client_name client_version : string)
| ThreadStartParams (dir : string) (mode : PermissionMode)
| TurnStartParams (tid content : string) (model : option string)
| TurnInterruptParams (tid : string)
| ApprovalParams (tid : string) (approved : bool) (mode : option PermissionMode).

(** [{ jsonrpc: '2.0', id, method, params }] *)
Record Request := mkRequest {
  req_id : N;
  req_method : string;
  req_params : CallParams }.

(** The [id] member of an inbound message: a key the pending table can hold,
    or any other JSON value. *)
Inductive IdField := NumberId (n : N) | OtherId (json : string).

#[global] Instance IdField_eq_dec : EqDecision IdField.
Proof. solve_decision. Defined.

(** A parsed inbound message: which members it has, and their values. *)
Record Inbound := mkInbound {
  in_id : option IdField;
  in_result : option Result;
  in_error : option string;
  in_method : option string;
  in_params : Params }.

(** [event.data]: text that [JSON.parse] rejects, or a parsed message. *)
Inductive Data := Unparseable | Parsed (msg : Inbound).

(** The hook's state ([useState], [useRef], the module counter), the tables
    of the runtime it talks to (sockets, timers and promises, each handle the
    position in its table), and two histories kept for the proofs: the frames
    handed to [ws.send] and the invocations of promise [resolve]/[reject]. *)
Record State := mkState {
  msgIdCounter : N;
  url : string;
  status : ConnectionStatus;
  lastError : option string;
  sessions : list Session;
  sessionRef : list Session;
  wsRef : option nat;
  pendingRef : list (N * PendingRec);
  sockets : list WebSocket;
  timers : list (option Timer);
  promises : list Promise;
  outbox : list (nat * Request);
  settled : list (nat * Settlement) }.

Definition initial : State :=
  {| msgIdCounter := 1; url := "ws://localhost:3284"; status := disconnected;
     lastError := None; sessions := []; sessionRef := []; wsRef := None;
     pendingRef := []; sockets := []; timers := []; promises := [];
     outbox := []; settled := [] |}.

Definition set_msgIdCounter (v : N) (st : State) : State :=
  mkState v (url st) (status st) (lastError st) (sessions st) (sessionRef st)
    (wsRef st) (pendingRef st) (sockets st) (timers st) (promises st)
    (outbox st) (settled st).
Definition setUrl (v : string) (st : State) : State :=
  mkState (msgIdCounter st) v (status st) (lastError st) (sessions st)
    (sessionRef st) (wsRef st) (pendingRef st) (sockets st) (timers st)
    (promises st) (outbox st) (settled st).
Definition setStatus (v : ConnectionStatus) (st : State) : State :=
  mkState (msgIdCounter st) (url st) v (lastError st) (sessions st)
    (sessionRef st) (wsRef st) (pendingRef st) (sockets st) (timers st)
    (promises st) (outbox st) (settled st).
Definition setLastError (v : option string) (st : State) : State :=
  mkState (msgIdCounter st) (url st) (status st) v (sessions st)
    (sessionRef st) (wsRef st) (pendingRef st) (sockets st) (timers st)
    (promises st) (outbox st) (settled st).
Definition setSessions (f : list Session → list Session) (st : State) : State :=
  mkState (msgIdCounter st) (url st) (status st) (lastError st) (f (sessions st))
    (sessionRef st) (wsRef st) (pendingRef st) (sockets st) (timers st)
    (promises st) (outbox st) (settled st).
Definition set_sessionRef (v : list Session) (st : State) : State :=
  mkState (msgIdCounter st) (url st) (status st) (lastError st) (sessions st)
    v (wsRef st) (pendingRef st) (sockets st) (timers st)
    (promises st) (outbox st) (settled st).
Definition set_wsRef (v : option nat) (st : State) : State :=
  mkState (msgIdCounter st) (url st) (status st) (lastError st) (sessions st)
    (sessionRef st) v (pendingRef st) (sockets st) (timers st)
    (promises st) (outbox st) (settled st).
Definition set_pendingRef (v : list (N * PendingRec)) (st : State) : State :=
  mkState (msgIdCounter st) (url st) (status st) (lastError st) (sessions st)
    (sessionRef st) (wsRef st) v (sockets st) (timers st)
    (promises st) (outbox st) (settled st).
Definition set_sockets (v : list WebSocket) (st : State) : State :=
  mkState (msgIdCounter st) (url st) (status st) (lastError st) (sessions st)
    (sessionRef st) (wsRef st) (pendingRef st) v (timers st)
    (promises st) (outbox st) (settled st).
Definition set_timers (v : list (option Timer)) (st : State) : State :=
  mkState (msgIdCounter st) (url st) (status st) (lastError st) (sessions st)
    (sessionRef st) (wsRef st) (pendingRef st) (sockets st) v
    (promises st) (outbox st) (settled st).
Definition set_promises (v : list Promise) (st : State) : State :=
  mkState (msgIdCounter st) (url st) (status st) (lastError st) (sessions st)
    (sessionRef st) (wsRef st) (pendingRef st) (sockets st) (timers st)
    v (outbox st) (settled st).
Definition set_outbox (v : list (nat * Request)) (st : State) : State :=
  mkState (msgIdCounter st) (url st) (status st) (lastError st) (sessions st)
    (sessionRef st) (wsRef st) (pendingRef st) (sockets st) (timers st)
    (promises st) v (settled st).
Definition set_settled (v : list (nat * Settlement)) (st : State) : State :=
  mkState (msgIdCounter st) (url st) (status st) (lastError st) (sessions st)
    (sessionRef st) (wsRef st) (pendingRef st) (sockets st) (timers st)
    (promises st) (outbox st) v.

(** *** The pending table: a JavaScript [Map], which keeps insertion order *)

Definition pending_get (id : N) (l : list (N * PendingRec)) : option PendingRec :=
  snd <$> find (λ kv, bool_decide (kv.1 = id)) l.

Definition pending_has (id : N) (l : list (N * PendingRec)) : bool :=
  bool_decide (is_Some (pending_get id l)).

Definition pending_delete (id : N) (l : list (N * PendingRec))
    : list (N * PendingRec) :=
  List.filter (λ kv, negb (bool_decide (kv.1 = id))) l.

(** [Map.set] overwrites the value of a key that is present, in place, and
    appends a new key at the end. *)
Definition pending_set (id : N) (r : PendingRec) (l : list (N * PendingRec))
    : list (N * PendingRec) :=
  if pending_has id l
  then map (λ kv, if bool_decide (kv.1 = id) then (id, r) else kv) l
  else l ++ [(id, r)].

(** *** Timers and promises of the runtime *)

(** [setTimeout(cb, ms)]: the new handle and the new state. *)
Definition setTimeout (cb : TimerCallback) (ms : Z) (st : State) : nat * State :=
  (length (timers st), set_timers (timers st ++ [Some (mkTimer ms cb)]) st).

Definition clearTimeout (h : nat) (st : State) : State :=
  set_timers (<[ h := None ]> (timers st)) st.

(** [setSessions(prev => prev.filter(s => s.thread_id !== thread_id))] *)
Definition remove_session (tid : string) (st : State) : State :=
  setSessions (List.filter (λ s, negb (bool_decide (thread_id s = tid)))) st.

(** The code after the [await], run with the outcome of the awaited call.
    It runs as a microtask, after the handler that settled the promise; the
    continuations only write [sessions], which those handlers do not touch
    after settling. *)
Definition run_cont (k : Cont) (o : Settlement) (st : State) : State :=
  match k with
  | AfterThreadStart dir mode =>
      match o with
      | Resolved r =>
          setSessions (λ prev, prev ++
            [ {| thread_id := r_thread_id r; created_at := r_created_at r;
                 cwd := dir; permission_mode := mode; turns := [];
                 active_turn_id := None; messages := [];
                 lastBlockedContent := None; hasPermissionDenial := None;
                 permissionDenials := None |} ]) st
      | Rejected _ => st
      end
  | AfterTurnStart => st
  | AfterInterrupt => st
  | AfterApprove tid mode =>
      setSessions (updateSession tid (λ s,
        set_denial (Some false) None
          (set_permission_mode (nullish mode acceptEdits) s))) st
  | AfterChangeMode tid mode =>
      setSessions (updateSession tid (set_permission_mode mode)) st
  | AfterDeleteInterrupt tid => remove_session tid st
  end.

(** A promise's [resolve] or [reject] is invoked with [o]: the invocation is
    recorded; a waiting promise settles and its awaiter runs, a settled one
    ignores the invocation. *)
Definition settle_promise (p : nat) (o : Settlement) (st : State) : State :=
  let st1 := set_settled (settled st ++ [(p, o)]) st in
  match promises st1 !! p with
  | Some (Waiting k) =>
      let st2 := set_promises (<[ p := Settled o ]> (promises st1)) st1 in
      match k with Some k => run_cont k o st2 | None => st2 end
  | _ => st1
  end.

(** [await p], then [k]. *)
Definition await (p : nat) (k : Cont) (st : State) : State :=
  match promises st !! p with
  | Some (Settled o) => run_cont k o st
  | Some (Waiting _) => set_promises (<[ p := Waiting (Some k) ]> (promises st)) st
  | None => st
  end.

(** [entry.resolve(v)] and [entry.reject(e)] of a pending record. *)
Definition pending_resolve (r : PendingRec) (v : Result) (st : State) : State :=
  match completion r with
  | CallCompletion timer p => settle_promise p (Resolved v) (clearTimeout timer st)
  | InitCompletion initTimer => setStatus connected (clearTimeout initTimer st)
  end.

Definition reason_text (e : Reason) : string :=
  match e with JsError m => m | ErrorPayload j => j end.

Definition pending_reject (r : PendingRec) (e : Reason) (st : State) : State :=
  match completion r with
  | CallCompletion timer p => settle_promise p (Rejected e) (clearTimeout timer st)
  | InitCompletion initTimer =>
      setStatus error
        (setLastError (Some ("Initialize rejected: " +:+ reason_text e))
           (clearTimeout initTimer st))
  end.

(** *** [nextId], [rejectAllPending], [rawSend], [call] *)

Definition nextId (st : State) : N * State :=
  (msgIdCounter st, set_msgIdCounter (msgIdCounter st + 1) st).

(** [pending.forEach(({ reject }) => reject(new Error(reason)))], then
    [pending.clear()]; nothing when the table is empty. *)
Definition rejectAllPending (reason : string) (st : State) : State :=
  match pendingRef st with
  | [] => st
  | pending =>
      set_pendingRef []
        (foldl (λ acc kv, pending_reject kv.2 (JsError reason) acc) st pending)
  end.

(** The socket [rawSend] would write to: the one in use, if it is open
    ([ws && ws.readyState === WebSocket.OPEN]). *)
Definition socket_open (st : State) : option nat :=
  match wsRef st with
  | None => None
  | Some w =>
      match sockets st !! w with
      | Some ws => if bool_decide (readyState ws = OPEN) then Some w else None
      | None => None
      end
  end.

Definition rawSend (msg : Request) (st : State) : bool * State :=
  match socket_open st with
  | None => (false, st)
  | Some w => (true, set_outbox (outbox st ++ [(w, msg)]) st)
  end.

(** [call(method, params)]: the promise it returns and the new state.  The
    pending record is stored with the [resolve]/[reject] wrappers that the
    source installs once the timer exists. *)
Definition call (meth : string) (params : CallParams) (now : Z) (st : State)
    : nat * State :=
  let p := length (promises st) in
  let st := set_promises (promises st ++ [Waiting None]) st in
  let '(id, st) := nextId st in
  let startedAt := now in
  let '(sent, st) := rawSend (mkRequest id meth params) st in
  if negb sent then
    (p, settle_promise p
          (Rejected (JsError ("call(" +:+ meth +:+ "): socket not open, cannot send")))
          st)
  else
    let '(timer, st) := setTimeout (CallTimeout id meth startedAt p) CALL_TIMEOUT_MS st in
    (p, set_pendingRef
          (pending_set id (mkPendingRec meth startedAt (CallCompletion timer p))
             (pendingRef st)) st).

(** *** [connect], the socket handlers and [disconnect] *)

(** [ws.close()] *)
Definition close_socket (w : nat) (st : State) : State :=
  match sockets st !! w with
  | Some ws =>
      match readyState ws with
      | CLOSING | CLOSED => st
      | _ => set_sockets (<[ w := mkWebSocket (ws_url ws) CLOSING ]> (sockets st)) st
      end
  | None => st
  end.

Definition same_live_socket (serverUrl : string) (st : State) : bool :=
  match wsRef st with
  | Some w =>
      match sockets st !! w with
      | Some ws =>
          bool_decide (ws_url ws = serverUrl)
          && (bool_decide (readyState ws = CONNECTING)
              || bool_decide (readyState ws = OPEN))
      | None => false
      end
  | None => false
  end.

Definition connect (serverUrl : string) (st : State) : State :=
  if same_live_socket serverUrl st then st
  else
    let st := match wsRef st with Some w => close_socket w st | None => st end in
    let st := setStatus connecting st in
    let st := setLastError None st in
    let st := setUrl serverUrl st in
    let ws := length (sockets st) in
    let st := set_sockets (sockets st ++ [mkWebSocket serverUrl CONNECTING]) st in
    set_wsRef (Some ws) st.

Definition onopen (ws : nat) (now : Z) (st : State) : State :=
  if negb (bool_decide (wsRef st = Some ws)) then st
  else
    let '(id, st) := nextId st in
    let startedAt := now in
    let '(initTimer, st) := setTimeout (InitTimeout id) INIT_TIMEOUT_MS st in
    let st := set_pendingRef
                (pending_set id
                   (mkPendingRec "initialize" startedAt (InitCompletion initTimer))
                   (pendingRef st)) st in
    set_outbox (outbox st ++
      [(ws, mkRequest id "initialize" (InitializeParams "clode-app" "1.0.0"))]) st.

Definition onmessage (ws : nat) (data : Data) (st : State) : State :=
  if negb (bool_decide (wsRef st = Some ws)) then st
  else
    match data with
    | Unparseable => st
    | Parsed msg =>
        match in_id msg, in_error msg, in_result msg with
        | Some idf, Some e, _ =>
            match idf with
            | NumberId id =>
                match pending_get id (pendingRef st) with
                | Some pending =>
                    pending_reject pending (ErrorPayload e)
                      (set_pendingRef (pending_delete id (pendingRef st)) st)
                | None => st
                end
            | OtherId _ => st
            end
        | Some idf, None, Some r =>
            match idf with
            | NumberId id =>
                match pending_get id (pendingRef st) with
                | Some pending =>
                    pending_resolve pending r
                      (set_pendingRef (pending_delete id (pendingRef st)) st)
                | None => st
                end
            | OtherId _ => st
            end
        | _, _, _ =>
            match in_method msg with
            | Some meth =>
                setSessions (handleNotification (sessionRef st) meth (in_params msg)) st
            | None => st
            end
        end
    end.

Definition onclose (ws : nat) (code : Z) (reason : string) (st : State) : State :=
  let st :=
    if bool_decide (wsRef st = Some ws)
    then rejectAllPending ("WebSocket closed (code=" +:+ pretty code +:+ ")")
           (set_wsRef None st)
    else st in
  if bool_decide (code = 1000%Z) then setStatus disconnected st
  else if bool_decide (code = 1006%Z) then
    setStatus error
      (setLastError
         (Some (if bool_decide (reason = "")
                then "Connection failed — check URL and that the server is running"
                else reason)) st)
  else
    setStatus error
      (setLastError
         (Some (if bool_decide (reason = "")
                then "Closed with code " +:+ pretty code
                else reason)) st).

Definition disconnect (st : State) : State :=
  let st := match wsRef st with Some w => close_socket w st | None => st end in
  setSessions (λ _, []) st.

(** A timer of the runtime fires: it is disarmed and its callback runs. *)
Definition fire_timer (h : nat) (now : Z) (st : State) : State :=
  match timers st !! h with
  | Some (Some t) =>
      let st := clearTimeout h st in
      match callback t with
      | CallTimeout id meth started p =>
          if negb (pending_has id (pendingRef st)) then st
          else
            settle_promise p
              (Rejected (JsError ("Request timed out: " +:+ meth +:+ " ("
                                  +:+ pretty (now - started)%Z +:+ "ms)")))
              (set_pendingRef (pending_delete id (pendingRef st)) st)
      | InitTimeout id =>
          if pending_has id (pendingRef st) then
            setStatus error
              (setLastError
                 (Some "Initialize timed out — server connected but did not respond")
                 (set_pendingRef (pending_delete id (pendingRef st)) st))
          else st
      end
  | _ => st
  end.

(** *** Session operations *)

Definition createSession (dir : string) (mode : PermissionMode) (now : Z)
    (st : State) : State :=
  let '(p, st) := call "thread/start" (ThreadStartParams dir mode) now st in
  await p (AfterThreadStart dir mode) st.

(** The updater [sendMessage] hands to [setSessions], on one session. *)
Definition append_user_message (now : Z) (text : string) (s : Session) : Session :=
  set_denial (Some false) None
    (set_lastBlockedContent (Some text)
       (set_messages
          (messages s ++ [ {| msg_id := "user-" +:+ pretty now; role := user;
                              content := text; items := None;
                              streamingText := None; isStreaming := None |} ]) s)).

Definition sendMessage (tid text : string) (model : option string) (now : Z)
    (st : State) : State :=
  let st := setSessions
              (map (λ s, if bool_decide (thread_id s ≠ tid) then s
                         else append_user_message now text s)) st in
  let '(p, st) := call "turn/start" (TurnStartParams tid text model) now st in
  await p AfterTurnStart st.

Definition interruptTurn (tid : string) (now : Z) (st : State) : State :=
  let '(p, st) := call "turn/interrupt" (TurnInterruptParams tid) now st in
  await p AfterInterrupt st.

Definition approvePermission (tid : string) (mode : option PermissionMode)
    (now : Z) (st : State) : State :=
  let '(p, st) := call "approval/respond" (ApprovalParams tid true mode) now st in
  await p (AfterApprove tid mode) st.

Definition changePermissionMode (tid : string) (mode : PermissionMode)
    (now : Z) (st : State) : State :=
  let '(p, st) := call "approval/respond" (ApprovalParams tid true (Some mode)) now st in
  await p (AfterChangeMode tid mode) st.

Definition setLastBlocked (tid text : string) (st : State) : State :=
  setSessions (updateSession tid (set_lastBlockedContent (Some text))) st.

Definition dismissPermissionDenial (tid : string) (st : State) : State :=
  setSessions (updateSession tid (set_denial (Some false) None)) st.

Definition deleteSession (tid : string) (now : Z) (st : State) : State :=
  match find (λ s, bool_decide (thread_id s = tid)) (sessionRef st) with
  | Some session =>
      if nonempty (active_turn_id session) then
        let '(p, st) := call "turn/interrupt" (TurnInterruptParams tid) now st in
        await p (AfterDeleteInterrupt tid) st
      else remove_session tid st
  | None => remove_session tid st
  end.

(** ** Events and runs *)

(** What can happen to the hook: a call of one of its operations, an event of
    one of its sockets, a timer firing, or a render. *)
Inductive Event :=
| EConnect (serverUrl : string)
| EDisconnect
| ECreateSession (dir : string) (mode : PermissionMode)
| ESendMessage (tid text : string) (model : option string)
| EInterruptTurn (tid : string)
| EApprovePermission (tid : string) (mode : option PermissionMode)
| EChangePermissionMode (tid : string) (mode : PermissionMode)
| ESetLastBlocked (tid text : string)
| EDismissPermissionDenial (tid : string)
| EDeleteSession (tid : string)
| EOpen (ws : nat)
| EMessage (ws : nat) (data : Data)
| EClose (ws : nat) (code : Z) (reason : string)
| ETimer (h : nat)
| ERender.

(** The runtime opens a socket that is connecting, and closes any socket. *)
Definition socket_opened (ws : nat) (st : State) : option State :=
  match sockets st !! ws with
  | Some s =>
      if bool_decide (readyState s = CONNECTING)
      then Some (set_sockets (<[ ws := mkWebSocket (ws_url s) OPEN ]> (sockets st)) st)
      else None
  | None => None
  end.

Definition socket_closed (ws : nat) (st : State) : option State :=
  match sockets st !! ws with
  | Some s => Some (set_sockets (<[ ws := mkWebSocket (ws_url s) CLOSED ]> (sockets st)) st)
  | None => None
  end.

(** One event, handled at wall-clock time [now]. *)
Definition step (now : Z) (e : Event) (st : State) : State :=
  match e with
  | EConnect serverUrl => connect serverUrl st
  | EDisconnect => disconnect st
  | ECreateSession dir mode => createSession dir mode now st
  | ESendMessage tid text model => sendMessage tid text model now st
  | EInterruptTurn tid => interruptTurn tid now st
  | EApprovePermission tid mode => approvePermission tid mode now st
  | EChangePermissionMode tid mode => changePermissionMode tid mode now st
  | ESetLastBlocked tid text => setLastBlocked tid text st
  | EDismissPermissionDenial tid => dismissPermissionDenial tid st
  | EDeleteSession tid => deleteSession tid now st
  | EOpen ws =>
      match socket_opened ws st with Some st => onopen ws now st | None => st end
  | EMessage ws data =>
      match sockets st !! ws with Some _ => onmessage ws data st | None => st end
  | EClose ws code reason =>
      match socket_closed ws st with Some st => onclose ws code reason st | None => st end
  | ETimer h => fire_timer h now st
  | ERender => set_sessionRef (sessions st) st
  end.

Definition run (tr : list (Z * Event)) (st : State) : State :=
  foldl (λ acc ne, step ne.1 ne.2 acc) st tr.


(** ** The callers of the hook: [App] and [ChatScreen] *)

(** [App.handleSendMessage]: [setLastBlocked(thread_id, content)], then
    [await sendMessage(thread_id, content, model)]. *)
Definition handleSendMessage (tid text : string) (model : option string) (now : Z)
    (st : State) : State :=
  sendMessage tid text model now (setLastBlocked tid text st).

(** [ChatScreen]: [isActive = !!session.active_turn_id] and
    [hasBlockedAction = !!session.hasPermissionDenial && !isActive]. *)
Definition isActive (session : Session) : bool := nonempty (active_turn_id session).

Definition hasBlockedAction (session : Session) : bool :=
  truthy (hasPermissionDenial session) && negb (isActive session).
(** * Vocabulary of the properties *)

(** What [item/created] keeps of a message list before it adds the item. *)
Definition kept_messages (it : StoredItem) (msgs : list ChatMessage)
    : list ChatMessage :=
  match si_item it with
  | TextItem _ => List.filter (λ m, negb (truthy (isStreaming m))) msgs
  | _ => msgs
  end.

(** [m'] is [m] finalized: a streaming message stops streaming and has an
    item list (its own, or the empty one); any other message is left alone. *)
Definition finalized (m m' : ChatMessage) : Prop :=
  if truthy (isStreaming m)
  then isStreaming m' = Some false
       ∧ items m' = Some (nullish (items m) [])
       ∧ msg_id m' = msg_id m ∧ role m' = role m ∧ content m' = content m
       ∧ streamingText m' = streamingText m
  else m' = m.

(** No message of the list is marked streaming. *)
Definition none_streaming (msgs : list ChatMessage) : Prop :=
  Forall (λ m, truthy (isStreaming m) = false) msgs.

(** The first message of a turn's finalized assistant message. *)
Definition turn_message (tid : string) (it : StoredItem) : ChatMessage :=
  {| msg_id := "turn-" +:+ tid; role := assistant; content := "";
     items := Some [it]; streamingText := None; isStreaming := Some false |}.

(** ** The dispatcher's bookkeeping *)

Definition timer_of (c : Completion) : nat :=
  match c with CallCompletion t _ => t | InitCompletion t => t end.

Definition promise_of (c : Completion) : option nat :=
  match c with CallCompletion _ p => Some p | InitCompletion _ => None end.

Definition callback_id (cb : TimerCallback) : N :=
  match cb with CallTimeout id _ _ _ => id | InitTimeout id => id end.

(** The timer that guards a pending record: what [call] and [onopen] arm. *)
Definition guard_timer (id : N) (r : PendingRec) : Timer :=
  match completion r with
  | CallCompletion _ p =>
      mkTimer CALL_TIMEOUT_MS (CallTimeout id (method r) (startedAt r) p)
  | InitCompletion _ => mkTimer INIT_TIMEOUT_MS (InitTimeout id)
  end.

(** The part of the state the dispatcher works on. *)
Record Dispatch := mkDispatch {
  d_counter : N;
  d_pending : list (N * PendingRec);
  d_timers : list (option Timer);
  d_promises : nat;
  d_settled : list (nat * Settlement);
  d_outbox : list (nat * Request) }.

Definition dispatch (st : State) : Dispatch :=
  mkDispatch (msgIdCounter st) (pendingRef st) (timers st)
    (length (promises st)) (settled st) (outbox st).

(** Its three moves: a call that cannot be sent takes an id and a promise and
    rejects the promise; a request that is sent takes an id and registers a
    record with its timer; a record leaves the table, its timer is disarmed
    and the promise of a call is settled. *)
Definition d_fail (o : Settlement) (d : Dispatch) : Dispatch :=
  mkDispatch (d_counter d + 1) (d_pending d) (d_timers d) (S (d_promises d))
    (d_settled d ++ [(d_promises d, o)]) (d_outbox d).

Definition d_register (r : PendingRec) (made : nat) (w : nat) (params : CallParams)
    (d : Dispatch) : Dispatch :=
  mkDispatch (d_counter d + 1) (d_pending d ++ [(d_counter d, r)])
    (d_timers d ++ [Some (guard_timer (d_counter d) r)])
    (made + d_promises d) (d_settled d)
    (d_outbox d ++ [(w, mkRequest (d_counter d) (method r) params)]).

Definition with_pending (l : list (N * PendingRec)) (d : Dispatch) : Dispatch :=
  mkDispatch (d_counter d) l (d_timers d) (d_promises d) (d_settled d) (d_outbox d).

Definition d_settle (r : PendingRec) (o : Settlement) (d : Dispatch) : Dispatch :=
  mkDispatch (d_counter d) (d_pending d)
    (<[ timer_of (completion r) := None ]> (d_timers d)) (d_promises d)
    (d_settled d ++ match promise_of (completion r) with
                    | Some p => [(p, o)]
                    | None => []
                    end)
    (d_outbox d).

Definition d_remove (id : N) (r : PendingRec) (o : Settlement) (d : Dispatch)
    : Dispatch :=
  with_pending (pending_delete id (d_pending d)) (d_settle r o d).

(** The connection in use and the sockets made so far. *)
Definition link (st : State) : option nat * list WebSocket :=
  (wsRef st, sockets st).

Inductive dstep : Dispatch → Dispatch → Prop :=
| dstep_refl d : dstep d d
| dstep_fail o d : dstep d (d_fail o d)
| dstep_call meth now w params d :
    dstep d (d_register
               (mkPendingRec meth now
                  (CallCompletion (length (d_timers d)) (d_promises d)))
               1 w params d)
| dstep_init meth now w params d :
    dstep d (d_register
               (mkPendingRec meth now (InitCompletion (length (d_timers d))))
               0 w params d)
| dstep_remove id r o d d' :
    (id, r) ∈ d_pending d → dstep (d_remove id r o d) d' → dstep d d'.

(** The invariant of the dispatcher: keys of the table are ids already
    taken, each once; records and armed timers correspond one to one; the
    promise of a pending call exists, belongs to that record only and has not
    been settled; no promise has been settled twice; the ids sent increase. *)
Record dispatch_ok (d : Dispatch) : Prop := mkDispatchOk {
  ok_keys : ∀ id r, (id, r) ∈ d_pending d → (id < d_counter d)%N;
  ok_nodup : NoDup (d_pending d).*1;
  ok_armed : ∀ id r, (id, r) ∈ d_pending d →
    d_timers d !! timer_of (completion r) = Some (Some (guard_timer id r));
  ok_timer : ∀ h t, d_timers d !! h = Some (Some t) →
    ∃ r, (callback_id (callback t), r) ∈ d_pending d ∧ timer_of (completion r) = h;
  ok_promise : ∀ id r p, (id, r) ∈ d_pending d → promise_of (completion r) = Some p →
    p < d_promises d ∧ p ∉ (d_settled d).*1;
  ok_promise_inj : ∀ id1 r1 id2 r2 p,
    (id1, r1) ∈ d_pending d → (id2, r2) ∈ d_pending d →
    promise_of (completion r1) = Some p → promise_of (completion r2) = Some p →
    id1 = id2;
  ok_settled : ∀ p, p ∈ (d_settled d).*1 → p < d_promises d;
  ok_settled_nodup : NoDup (d_settled d).*1;
  ok_outbox : StronglySorted N.lt (req_id <$> (d_outbox d).*2);
  ok_outbox_lt : Forall (λ x, (req_id x.2 < d_counter d)%N) (d_outbox d) }.

(** The connection in use is one of the sockets made. *)
Definition link_ok (l : option nat * list WebSocket) : Prop :=
  ∀ w, l.1 = Some w → is_Some (l.2 !! w).

Definition Inv (st : State) : Prop :=
  dispatch_ok (dispatch st) ∧ link_ok (link st).

(** [rejectAllPending]'s loop over the table. *)
Definition reject_all (e : Reason) (l : list (N * PendingRec)) (st : State) : State :=
  foldl (λ acc kv, pending_reject kv.2 e acc) st l.

Definition d_settle_all (o : Settlement) (l : list (N * PendingRec)) (d : Dispatch)
    : Dispatch :=
  foldl (λ acc kv, d_settle kv.2 o acc) d l.

(** The text of the error a call's timeout rejects with. *)
Definition timeout_error (meth : string) (elapsed : Z) : Reason :=
  JsError ("Request timed out: " +:+ meth +:+ " (" +:+ pretty elapsed +:+ "ms)").

(** ** Settlement of a call, as the specification tells it *)

(** The outcomes with which promise [p] has been settled so far. *)
Definition outcomes (p : nat) (st : State) : list Settlement :=
  (filter (λ x, x.1 = p) (settled st)).*2.

(** What event [e], arriving at time [now] in state [st], decides for the
    pending call [id] with record [r]: a response bearing its id on the
    connection in use resolves it, or rejects it with the error payload; its
    timeout rejects it; the loss of the connection in use rejects it.  Any
    other event decides nothing. *)
Definition decision (st : State) (id : N) (r : PendingRec) (now : Z) (e : Event)
    : option Settlement :=
  match e with
  | EMessage ws (Parsed msg) =>
      if bool_decide (wsRef st = Some ws)
         && bool_decide (in_id msg = Some (NumberId id))
      then match in_error msg, in_result msg with
           | Some err, _ => Some (Rejected (ErrorPayload err))
           | None, Some v => Some (Resolved v)
           | None, None => None
           end
      else None
  | ETimer h =>
      if bool_decide (h = timer_of (completion r))
      then Some (Rejected (timeout_error (method r) (now - startedAt r)))
      else None
  | EClose ws code _ =>
      if bool_decide (wsRef st = Some ws)
      then Some (Rejected (JsError ("WebSocket closed (code=" +:+ pretty code +:+ ")")))
      else None
  | _ => None
  end.

(** The decision of the first event of [tr] that decides anything. *)
Fixpoint first_decision (st : State) (id : N) (r : PendingRec)
    (tr : list (Z * Event)) : option Settlement :=
  match tr with
  | [] => None
  | (now, e) :: tr' =>
      match decision st id r now e with
      | Some o => Some o
      | None => first_decision (step now e st) id r tr'
      end
  end.

(** The same, told from the events alone, for a call on connection [w]: a
    response on [w] bearing the call's id, the call's timeout, the closure
    of [w]. *)
Definition arrival (w : nat) (id : N) (r : PendingRec) (now : Z) (e : Event)
    : option Settlement :=
  match e with
  | EMessage ws (Parsed msg) =>
      if bool_decide (ws = w) && bool_decide (in_id msg = Some (NumberId id))
      then match in_error msg, in_result msg with
           | Some err, _ => Some (Rejected (ErrorPayload err))
           | None, Some v => Some (Resolved v)
           | None, None => None
           end
      else None
  | ETimer h =>
      if bool_decide (h = timer_of (completion r))
      then Some (Rejected (timeout_error (method r) (now - startedAt r)))
      else None
  | EClose ws code _ =>
      if bool_decide (ws = w)
      then Some (Rejected (JsError ("WebSocket closed (code=" +:+ pretty code +:+ ")")))
      else None
  | _ => None
  end.

Fixpoint first_arrival (w : nat) (id : N) (r : PendingRec)
    (tr : list (Z * Event)) : option Settlement :=
  match tr with
  | [] => None
  | (now, e) :: tr' =>
      match arrival w id r now e with
      | Some o => Some o
      | None => first_arrival w id r tr'
      end
  end.

Definition is_connect (e : Event) : bool :=
  match e with EConnect _ => true | _ => false end.

Definition is_close (e : Event) : bool :=
  match e with EClose _ _ _ => true | _ => false end.

(** From [st] to [st'] the history of settlements has only grown, and every
    promise is as it was unless it has been settled since. *)
Definition keeps (st st' : State) : Prop :=
  settled st `prefix_of` settled st'
  ∧ ∀ p x, promises st !! p = Some x →
           promises st' !! p = Some x ∨ p ∈ (settled st').*1.

(** ** Session operations, as the specification tells them *)

(** [s'] is [s] after [sendMessage]'s update: the user message is appended,
    the content recorded as last blocked, the denial flags cleared. *)
Definition sent_message (now : Z) (text : string) (s s' : Session) : Prop :=
  messages s' = messages s ++ [mkChatMessage ("user-" +:+ pretty now) user text
                                 None None None]
  ∧ lastBlockedContent s' = Some text
  ∧ hasPermissionDenial s' = Some false
  ∧ permissionDenials s' = None
  ∧ thread_id s' = thread_id s ∧ created_at s' = created_at s ∧ cwd s' = cwd s
  ∧ permission_mode s' = permission_mode s ∧ turns s' = turns s
  ∧ active_turn_id s' = active_turn_id s.

(** [s'] is [s] after [approvePermission]'s update: the mode is set, the
    denial flags are cleared, and every other field is as it was. *)
Definition approved (mode : option PermissionMode) (s s' : Session) : Prop :=
  permission_mode s' = nullish mode acceptEdits
  ∧ hasPermissionDenial s' = Some false
  ∧ permissionDenials s' = None
  ∧ lastBlockedContent s' = lastBlockedContent s
  ∧ messages s' = messages s
  ∧ thread_id s' = thread_id s
  ∧ created_at s' = created_at s ∧ cwd s' = cwd s ∧ turns s' = turns s
  ∧ active_turn_id s' = active_turn_id s.

(** The sessions of thread [tid] are related by [R], the others are equal. *)
Definition on_thread (tid : string) (R : Session → Session → Prop)
    (l l' : list Session) : Prop :=
  Forall2 (λ s s', if bool_decide (thread_id s = tid) then R s s' else s' = s) l l'.

(** ** Sample data for the examples *)

Definition c10_session : Session :=
  mkSession "t1" 0 "/tmp" mode_default [] (Some "r1") [] None None None.

Definition c10_state : State :=
  set_sessionRef [c10_session] (setSessions (λ _, [c10_session]) initial).

Definition c10_params : Params :=
  mkParams "r2" "" (mkDelta "text" (Some "x"))
    (mkStoredItem "i" 0 (TextItem "x")) [].

Definition c6_streaming : ChatMessage :=
  mkChatMessage "streaming-r1" assistant "" None (Some "Hel") (Some true).

Definition c6_session : Session :=
  mkSession "t1" 0 "/tmp" mode_default [] (Some "r1") [c6_streaming] None None None.

(** A run that connects, shakes hands, and starts a thread. *)
Definition c1_before : list (Z * Event) :=
  [ (0, EConnect "ws://host"); (1, EOpen 0); (3, ECreateSession "/tmp" mode_default) ]%Z.

(** The record of the [thread/start] call it leaves pending. *)
Definition c1_record : PendingRec :=
  mkPendingRec "thread/start" 3 (CallCompletion 1 0).

(** What follows: a notification, the call's timeout, a late response and the
    loss of the connection. *)
Definition c1_after : list (Z * Event) :=
  [ (5, EMessage 0 (Parsed (mkInbound None None None (Some "initialized") c10_params)));
    (30003, ETimer 1);
    (30004, EMessage 0 (Parsed (mkInbound (Some (NumberId 2))
                                  (Some (mkResult "t1" 9 "")) None None c10_params)));
    (30005, EClose 0 1006 "") ]%Z.

(** The connection of the pending call is replaced and then lost, and the
    call's timeout fires. *)
Definition c1_replaced : list (Z * Event) :=
  [ (4, EConnect "ws://other"); (5, EClose 0 1006 ""); (30003, ETimer 1) ]%Z.

(** The replaced connection: a second [connect], the old socket's close
    event, and the new socket opening. *)
Definition c3_reconnect : list (Z * Event) :=
  c1_before ++ [ (4, EConnect "ws://other"); (5, EClose 0 1000 ""); (6, EOpen 1) ]%Z.

(** A response with a result for call [id]. *)
Definition result_response (id : N) (v : Result) : Data :=
  Parsed (mkInbound (Some (NumberId id)) (Some v) None None c10_params).

(** A run that connects, starts thread [t1], sends a message and is told of
    a denial. *)
Definition c9_trace : list (Z * Event) :=
  [ (0, EConnect "ws://host"); (1, EOpen 0);
    (2, EMessage 0 (result_response 1 (mkResult "" 0 "")));
    (3, ECreateSession "/tmp" mode_default);
    (4, EMessage 0 (result_response 2 (mkResult "t1" 7 "")));
    (5, ESendMessage "t1" "ls" None);
    (6, EMessage 0 (result_response 3 (mkResult "" 0 "r1")));
    (7, EMessage 0 (Parsed (mkInbound None None None (Some "turn/permission_denied")
                              (mkParams "r1" "t1" (mkDelta "" None)
                                 (mkStoredItem "" 0 (TextItem ""))
                                 [mkPermissionDenial "Bash" "x" None])))) ]%Z.

(** A response with an error payload for call [id]. *)
Definition error_response (id : N) (payload : string) : Data :=
  Parsed (mkInbound (Some (NumberId id)) None (Some payload) None c10_params).

(** ** Vocabulary of the further properties *)

(** *** The connection *)

(** What the hook shows of the connection. *)
Definition shown (st : State) : string * ConnectionStatus * option string :=
  (url st, status st, lastError st).

(** The record of a handshake. *)
Definition is_handshake (r : PendingRec) : bool :=
  match completion r with InitCompletion _ => true | CallCompletion _ _ => false end.

(** The error [onclose] rejects the pending calls with. *)
Definition closed_error (code : Z) : Reason :=
  JsError ("WebSocket closed (code=" +:+ pretty code +:+ ")").

(** Event [e] is a response with a result, on the connection in use, to a
    handshake that is pending in [st]. *)
Definition answers_handshake (st : State) (e : Event) : bool :=
  match e with
  | EMessage ws (Parsed msg) =>
      bool_decide (wsRef st = Some ws)
      && match in_id msg, in_error msg, in_result msg with
         | Some (NumberId id), None, Some _ =>
             match pending_get id (pendingRef st) with
             | Some r => is_handshake r
             | None => false
             end
         | _, _, _ => false
         end
  | _ => false
  end.

(** Every pending record answers a request that was written to a socket,
    under the record's id and method. *)
Definition pending_sent (d : Dispatch) : Prop :=
  ∀ id r, (id, r) ∈ d_pending d →
    ∃ w params, (w, mkRequest id (method r) params) ∈ d_outbox d.

(** *** Inbound frames and notifications *)

(** ['id' in msg && ('result' in msg || 'error' in msg)] *)
Definition is_response (msg : Inbound) : bool :=
  bool_decide (is_Some (in_id msg))
  && (bool_decide (is_Some (in_result msg)) || bool_decide (is_Some (in_error msg))).

(** The methods [handleNotification] acts on. *)
Definition handled_methods : list string :=
  [ "turn/started"; "item/progress"; "item/created"; "turn/permission_denied";
    "turn/completed"; "turn/error" ].

(** The fields of a session no notification writes. *)
Definition same_identity (s s' : Session) : Prop :=
  thread_id s' = thread_id s ∧ created_at s' = created_at s ∧ cwd s' = cwd s
  ∧ permission_mode s' = permission_mode s ∧ turns s' = turns s.

(** The last message is an assistant message that is streaming. *)
Definition streaming_tail (msgs : list ChatMessage) : bool :=
  match last msgs with
  | Some m => bool_decide (role m = assistant) && truthy (isStreaming m)
  | None => false
  end.

(** The text accumulated in the streaming tail, empty when there is none. *)
Definition streamed_text (msgs : list ChatMessage) : string :=
  match last msgs with
  | Some m => if bool_decide (role m = assistant) && truthy (isStreaming m)
              then nullish (streamingText m) "" else ""
  | None => ""
  end.

(** The messages before the streaming tail. *)
Definition settled_messages (msgs : list ChatMessage) : list ChatMessage :=
  if streaming_tail msgs then removelast msgs else msgs.

(** The [params] of an [item/progress] notification of turn [tid] with a
    text delta. *)
Definition progress_params (tid text : string) : Params :=
  mkParams tid "" (mkDelta "text" (Some text)) (mkStoredItem "" 0 (TextItem "")) [].

(** Two stores with the same threads and the same active turns, in order. *)
Definition same_turns (l l' : list Session) : Prop :=
  Forall2 (λ s s', thread_id s' = thread_id s ∧ active_turn_id s' = active_turn_id s) l l'.

(** [s'] is [s] with a denial recorded: the flag is set, the denials are
    replaced, the content to retry is kept when there is one and is otherwise
    the content of the latest user message; nothing else changes. *)
Definition denial_recorded (denials : list PermissionDenial) (s s' : Session) : Prop :=
  hasPermissionDenial s' = Some true
  ∧ permissionDenials s' = Some denials
  ∧ lastBlockedContent s'
    = match lastBlockedContent s with
      | Some c => Some c
      | None => last_user_content (messages s)
      end
  ∧ messages s' = messages s ∧ active_turn_id s' = active_turn_id s
  ∧ same_identity s s'.

(** *** The session operations *)

(** [deleteSession] asks the server to interrupt first: the session it finds
    in [sessionRef.current] has an active turn. *)
Definition interrupts_first (tid : string) (st : State) : bool :=
  match find (λ s, bool_decide (thread_id s = tid)) (sessionRef st) with
  | Some session => nonempty (active_turn_id session)
  | None => false
  end.

(** The pending record of a call made in [st] at time [now]. *)
Definition call_record (meth : string) (now : Z) (st : State) : PendingRec :=
  mkPendingRec meth now (CallCompletion (length (timers st)) (length (promises st))).

(** The error of a call that could not be sent. *)
Definition not_open_error (meth : string) : Reason :=
  JsError ("call(" +:+ meth +:+ "): socket not open, cannot send").

(** The session a resolved [thread/start] adds to the store. *)
Definition started_session (dir : string) (mode : PermissionMode) (r : Result)
    : Session :=
  {| thread_id := r_thread_id r; created_at := r_created_at r; cwd := dir;
     permission_mode := mode; turns := []; active_turn_id := None; messages := [];
     lastBlockedContent := None; hasPermissionDenial := None;
     permissionDenials := None |}.

(** *** The session store *)

(** The updates of the session store: what a notification, the code after an
    awaited call, [sendMessage], [dismissPermissionDenial], [deleteSession]
    and [disconnect] do to it.  [R] holds of the results with which a
    [thread/start] may have been resolved. *)
Inductive store_move (R : Result → Prop) : list Session → list Session → Prop :=
| move_notify cur meth p l : store_move R l (handleNotification cur meth p l)
| move_started dir mode r l :
    R r → store_move R l (l ++ [started_session dir mode r])
| move_approved tid mode l :
    store_move R l (updateSession tid (λ s,
      set_denial (Some false) None (set_permission_mode (nullish mode acceptEdits) s)) l)
| move_mode tid mode l : store_move R l (updateSession tid (set_permission_mode mode) l)
| move_removed tid l :
    store_move R l (List.filter (λ s, negb (bool_decide (thread_id s = tid))) l)
| move_sent tid text now l :
    store_move R l (map (λ s, if bool_decide (thread_id s ≠ tid) then s
                              else append_user_message now text s) l)
| move_dismissed tid l :
    store_move R l (updateSession tid (set_denial (Some false) None) l)
| move_cleared l : store_move R l [].

(** Any number of them, one after the other. *)
Inductive store_moves (R : Result → Prop) : list Session → list Session → Prop :=
| moves_refl l : store_moves R l l
| moves_step l l' l'' :
    store_move R l l' → store_moves R l' l'' → store_moves R l l''.

(** The result event [e] carries, if it is a message with one. *)
Definition answered (e : Event) (v : Result) : Prop :=
  match e with
  | EMessage _ (Parsed msg) => in_result msg = Some v
  | _ => False
  end.

(** Outcome [o] resolves with a result of [R] only. *)
Definition resolves_in (R : Result → Prop) (o : Settlement) : Prop :=
  match o with Resolved v => R v | Rejected _ => True end.

(** A user message as [sendMessage] makes it: not streaming, its id
    [user-...]. *)
Definition user_message_ok (m : ChatMessage) : Prop :=
  role m = user → truthy (isStreaming m) = false ∧ ∃ n, msg_id m = "user-" +:+ n.

(** The content kept for a retry is the content of the latest user message
    of the session. *)
Definition retry_coherent (s : Session) : Prop :=
  Forall user_message_ok (messages s)
  ∧ lastBlockedContent s = last_user_content (messages s).

(** *** Sample runs for the examples *)

(** The hook connects. *)
Definition connect_trace : list (Z * Event) := [ (0, EConnect "ws://host") ]%Z.

(** The socket opens: the handshake is pending. *)
Definition open_trace : list (Z * Event) := connect_trace ++ [ (1, EOpen 0) ]%Z.

(** The record of that handshake. *)
Definition open_record : PendingRec := mkPendingRec "initialize" 1 (InitCompletion 0).

(** The server answers the handshake. *)
Definition ready_trace : list (Z * Event) :=
  open_trace ++ [ (2, EMessage 0 (result_response 1 (mkResult "" 0 ""))) ]%Z.

(** The server starts thread [t1]. *)
Definition thread_trace : list (Z * Event) :=
  ready_trace ++
  [ (3, ECreateSession "/tmp" mode_default);
    (4, EMessage 0 (result_response 2 (mkResult "t1" 7 ""))) ]%Z.

(** The [params] of the notifications of turn [r1] on thread [t1]. *)
Definition turn_params : Params :=
  mkParams "r1" "t1" (mkDelta "" None) (mkStoredItem "" 0 (TextItem ""))
    [mkPermissionDenial "Bash" "x" None].

(** A message is sent on [t1], and its turn [r1] starts. *)
Definition turn_trace : list (Z * Event) :=
  thread_trace ++
  [ (5, ESendMessage "t1" "ls" None);
    (6, EMessage 0 (result_response 3 (mkResult "" 0 "r1")));
    (7, EMessage 0 (Parsed (mkInbound None None None (Some "turn/started") turn_params)));
    (8, ERender) ]%Z.

(** * Properties *)

(** ** The notification router *)

Section Router.

Implicit Types (cur prev : list Session) (p : Params) (s : Session).

Lemma find_by_turn_None tid cur :
  (∀ s, s ∈ cur → active_turn_id s ≠ Some tid) → find_by_turn tid cur = None.
Proof.
  unfold find_by_turn. induction cur as [|s cur IH]; intros H; [done|].
  simpl. rewrite bool_decide_eq_false_2.
  - apply IH. intros s' Hs'. apply H. by right.
  - apply H. by left.
Qed.

Lemma find_by_turn_Some tid cur s :
  find_by_turn tid cur = Some s → s ∈ cur ∧ active_turn_id s = Some tid.
Proof.
  unfold find_by_turn. intros H. apply find_some in H as [Hin Hb].
  split; [by apply list_elem_of_In | by apply bool_decide_eq_true_1 in Hb].
Qed.

Lemma setSessions_id f st : f (sessions st) = sessions st → setSessions f st = st.
Proof. destruct st; unfold setSessions; simpl. by intros ->. Qed.

(** [findIndex] returns the position of the first message that has the key. *)
Lemma findIndex_first key l1 m l2 :
  (∀ x, x ∈ l1 → msg_id x ≠ key) → msg_id m = key →
  findIndex key (l1 ++ m :: l2) = Some (length l1).
Proof.
  intros Hl1 Hm. induction l1 as [|x l1 IH]; simpl.
  - by rewrite bool_decide_eq_true_2.
  - rewrite bool_decide_eq_false_2 by (apply Hl1; by left).
    rewrite IH; [done|]. intros y Hy. apply Hl1. by right.
Qed.

Lemma find_keyed_first key l1 m l2 :
  (∀ x, x ∈ l1 → msg_id x ≠ key) → msg_id m = key → role m = assistant →
  find (λ m, bool_decide (role m = assistant) && bool_decide (msg_id m = key))
       (l1 ++ m :: l2) = Some m.
Proof.
  intros Hl1 Hm Hr. induction l1 as [|x l1 IH]; simpl.
  - by rewrite !bool_decide_eq_true_2.
  - rewrite (bool_decide_eq_false_2 (msg_id x = key)) by (apply Hl1; by left).
    rewrite andb_false_r. apply IH. intros y Hy. apply Hl1. by right.
Qed.

Lemma find_keyed_None key l :
  (∀ x, x ∈ l → ¬ (role x = assistant ∧ msg_id x = key)) →
  find (λ m, bool_decide (role m = assistant) && bool_decide (msg_id m = key)) l = None.
Proof.
  induction l as [|x l IH]; intros H; [done|]. simpl.
  destruct (bool_decide_reflect (role x = assistant)) as [Hr|Hr]; simpl.
  - rewrite bool_decide_eq_false_2.
    + apply IH. intros y Hy. apply H. by right.
    + intros Hk. apply (H x); [by left | done].
  - apply IH. intros y Hy. apply H. by right.
Qed.

Lemma filter_all {A} (l : list A) : List.filter (λ _, true) l = l.
Proof. induction l as [|x l IH]; simpl; congruence. Qed.

Lemma created_filter it msgs :
  List.filter (λ m, negb (truthy (isStreaming m)
                          && bool_decide (item_type (si_item it) = "text"))) msgs
  = kept_messages it msgs.
Proof.
  unfold kept_messages.
  destruct (si_item it); simpl;
    first [ apply filter_ext; intros m; by rewrite andb_true_r
          | erewrite filter_ext; [apply filter_all|];
            intros m; simpl; by rewrite andb_false_r ].
Qed.

End Router.

(** ** C10: progress and created events of an unknown turn are dropped *)

(** C10.  An [item/progress] or [item/created] notification whose [turn_id]
    is the [active_turn_id] of no session (of [sessionRef.current], the store
    as the handler sees it) leaves the session store as it is: the router
    returns its argument, and the whole state of the hook is unchanged by the
    message. *)
Theorem C10_unknown_turn_dropped (st : State) (now : Z) (ws : nat)
    (meth : string) (p : Params) :
  meth = "item/progress" ∨ meth = "item/created" →
  (∀ s, s ∈ sessionRef st → active_turn_id s ≠ Some (p_turn_id p)) →
  (∀ prev, handleNotification (sessionRef st) meth p prev = prev)
  ∧ step now (EMessage ws (Parsed (mkInbound None None None (Some meth) p))) st = st.
Proof.
  intros Hm Hno.
  assert (Hh : ∀ prev, handleNotification (sessionRef st) meth p prev = prev).
  { intros prev. unfold handleNotification.
    destruct Hm as [-> | ->]; simpl; by rewrite find_by_turn_None. }
  split; [done|].
  simpl. destruct (sockets st !! ws); [|done].
  unfold onmessage. case_match; [done|]. simpl.
  by apply setSessions_id.
Qed.

Lemma C10_unknown_turn_dropped_witness :
  (∀ prev, handleNotification (sessionRef c10_state) "item/created" c10_params prev = prev)
  ∧ step 5 (EMessage 0 (Parsed (mkInbound None None None (Some "item/created")
                                  c10_params))) c10_state = c10_state.
Proof.
  apply (C10_unknown_turn_dropped c10_state 5 0 "item/created" c10_params).
  - by right.
  - intros s Hs. apply list_elem_of_singleton in Hs as ->. simpl. discriminate.
Defined.

(** ** C6: the end of a turn *)

Lemma finish_turn_messages (msgs : list ChatMessage) :
  let msgs' := map (λ m, if truthy (isStreaming m)
                         then set_items (Some (nullish (items m) []))
                                (set_isStreaming (Some false) m)
                         else m) msgs in
  none_streaming msgs' ∧ Forall2 finalized msgs msgs'.
Proof.
  simpl. induction msgs as [|m msgs [IH1 IH2]]; simpl.
  - split; constructor.
  - split; constructor; try done.
    + destruct (truthy (isStreaming m)) eqn:E; [done | exact E].
    + unfold finalized. destruct (truthy (isStreaming m)); [simpl|done].
      by repeat split.
Qed.

(** C6.  After [turn/completed] or [turn/error] for a thread, each session of
    that thread has its [active_turn_id] cleared and no message marked
    streaming: every message that was streaming is finalized with its item
    list (the empty list if it had none), every other message and every other
    field of the session is unchanged, and so is every other session. *)
Theorem C6_turn_end_clears_streaming (cur prev : list Session) (p : Params) :
  ∀ meth, meth ∈ ["turn/completed"; "turn/error"] →
  Forall2 (λ s s',
      if bool_decide (thread_id s = p_thread_id p)
      then active_turn_id s' = None
           ∧ none_streaming (messages s')
           ∧ Forall2 finalized (messages s) (messages s')
           ∧ s' = set_messages (messages s') (set_active_turn_id None s)
      else s' = s)
    prev (handleNotification cur meth p prev).
Proof.
  intros meth Hm.
  assert (handleNotification cur meth p prev
          = updateSession (p_thread_id p) finish_turn prev) as ->.
  { unfold handleNotification.
    apply elem_of_cons in Hm as [-> | Hm]; [done|].
    apply list_elem_of_singleton in Hm as ->. done. }
  unfold updateSession. induction prev as [|s prev IH]; simpl; constructor; [|done].
  case_bool_decide; [|done].
  destruct (finish_turn_messages (messages s)) as [H1 H2].
  repeat split; done.
Qed.

Lemma C6_turn_end_clears_streaming_witness :
  Forall2 (λ s s',
      if bool_decide (thread_id s = "t1")
      then active_turn_id s' = None
           ∧ none_streaming (messages s')
           ∧ Forall2 finalized (messages s) (messages s')
           ∧ s' = set_messages (messages s') (set_active_turn_id None s)
      else s' = s)
    [c6_session]
    (handleNotification [] "turn/error"
       (mkParams "r1" "t1" (mkDelta "" None) (mkStoredItem "" 0 (TextItem "")) [])
       [c6_session]).
Proof.
  apply (C6_turn_end_clears_streaming [] [c6_session]
           (mkParams "r1" "t1" (mkDelta "" None) (mkStoredItem "" 0 (TextItem "")) [])
           "turn/error").
  right. left.
Defined.

(** ** C4: a created item *)

(** C4, as stated, fails: a created item that is not a text item leaves the
    streaming placeholder of the session in its message list. *)
Lemma C4_streaming_placeholder_survives :
  let p := mkParams "r1" "" (mkDelta "" None)
             (mkStoredItem "i1" 0 (ToolCallItem "u1" "Bash" "{}")) [] in
  find_by_turn (p_turn_id p) [c6_session] = Some c6_session
  ∧ ∃ s', handleNotification [c6_session] "item/created" p [c6_session] = [s']
          ∧ c6_streaming ∈ messages s'
          ∧ ¬ none_streaming (messages s').
Proof.
  simpl. split; [reflexivity|]. eexists. split; [reflexivity|]. simpl. split.
  - left.
  - intros H. inversion H as [|?? Hs]. discriminate Hs.
Qed.

(** C4 (amended).  For an [item/created] notification whose [turn_id] is the
    [active_turn_id] of a session, every session of that thread changes in its
    message list only: the streaming messages are dropped when the created
    item is a text item, and kept for every other variant; then, if no
    assistant message with the key [turn-<turn_id>] is there, a new one
    holding just the item is appended, and if the first message with that key
    is an assistant message the item is appended to its item list.  Sessions
    of other threads are unchanged. *)
Theorem C4_item_created (cur prev : list Session) (p : Params) (session : Session) :
  find_by_turn (p_turn_id p) cur = Some session →
  Forall2 (λ s s',
      if bool_decide (thread_id s = thread_id session) then
        let kept := kept_messages (p_item p) (messages s) in
        let key := "turn-" +:+ p_turn_id p in
        s' = set_messages (messages s') s
        ∧ ((∀ m, m ∈ kept → ¬ (role m = assistant ∧ msg_id m = key)) →
           messages s' = kept ++ [turn_message (p_turn_id p) (p_item p)])
        ∧ (∀ l1 m l2, kept = l1 ++ m :: l2 →
             (∀ x, x ∈ l1 → msg_id x ≠ key) → msg_id m = key → role m = assistant →
             messages s'
             = l1 ++ set_items (Some (nullish (items m) [] ++ [p_item p])) m :: l2)
      else s' = s)
    prev (handleNotification cur "item/created" p prev).
Proof.
  intros Hfind. unfold handleNotification. simpl. rewrite Hfind.
  induction prev as [|s prev IH]; simpl; constructor; [|done].
  destruct (bool_decide_reflect (thread_id s = thread_id session)) as [E|E].
  - rewrite bool_decide_eq_false_2 by (intros H; by apply H).
    unfold created_messages. rewrite created_filter. simpl.
    split; [done|]. split.
    + intros Hno. by rewrite find_keyed_None.
    + intros l1 m l2 -> Hl1 Hm Hr.
      rewrite find_keyed_first, findIndex_first by done.
      rewrite insert_app_r_alt, Nat.sub_diag by done. done.
  - by rewrite bool_decide_eq_true_2.
Qed.

Lemma C4_item_created_witness :
  let p := mkParams "r1" "" (mkDelta "" None)
             (mkStoredItem "i1" 0 (TextItem "Hello")) [] in
  find_by_turn "r1" [c6_session] = Some c6_session
  ∧ Forall2 (λ s s',
      if bool_decide (thread_id s = thread_id c6_session) then
        let kept := kept_messages (p_item p) (messages s) in
        let key := "turn-" +:+ p_turn_id p in
        s' = set_messages (messages s') s
        ∧ ((∀ m, m ∈ kept → ¬ (role m = assistant ∧ msg_id m = key)) →
           messages s' = kept ++ [turn_message (p_turn_id p) (p_item p)])
        ∧ (∀ l1 m l2, kept = l1 ++ m :: l2 →
             (∀ x, x ∈ l1 → msg_id x ≠ key) → msg_id m = key → role m = assistant →
             messages s'
             = l1 ++ set_items (Some (nullish (items m) [] ++ [p_item p])) m :: l2)
      else s' = s)
    [c6_session] (handleNotification [c6_session] "item/created" p [c6_session]).
Proof.
  simpl. split; [reflexivity|].
  apply (C4_item_created [c6_session] [c6_session]
           (mkParams "r1" "" (mkDelta "" None)
              (mkStoredItem "i1" 0 (TextItem "Hello")) []) c6_session).
  reflexivity.
Defined.

(** ** The pending table *)

Section PendingTable.

Implicit Types (l : list (N * PendingRec)) (r : PendingRec) (id : N).

Lemma elem_of_pending_delete id id' r l :
  (id', r) ∈ pending_delete id l ↔ (id', r) ∈ l ∧ id' ≠ id.
Proof.
  unfold pending_delete. rewrite !list_elem_of_In, filter_In. simpl.
  rewrite negb_true_iff, bool_decide_eq_false. tauto.
Qed.

Lemma pending_get_elem_of id r l : pending_get id l = Some r → (id, r) ∈ l.
Proof.
  unfold pending_get. destruct (find _ l) as [[k v]|] eqn:E; [|done].
  simpl. intros [= ->]. apply find_some in E as [Hin Hk].
  apply bool_decide_eq_true_1 in Hk. simpl in Hk. subst k.
  by apply list_elem_of_In.
Qed.

Lemma pending_key id r l : (id, r) ∈ l → id ∈ l.*1.
Proof. intros H. by apply (list_elem_of_fmap_2 fst l (id, r)). Qed.

Lemma pending_unique id r r' l :
  NoDup l.*1 → (id, r) ∈ l → (id, r') ∈ l → r = r'.
Proof.
  induction l as [|[k v] l IH]; simpl; intros Hnd H1 H2.
  - by apply elem_of_nil in H1.
  - apply NoDup_cons in Hnd as [Hk Hnd].
    apply elem_of_cons in H1 as [H1|H1]; apply elem_of_cons in H2 as [H2|H2].
    + congruence.
    + injection H1 as -> ->. destruct Hk. by eapply pending_key.
    + injection H2 as -> ->. destruct Hk. by eapply pending_key.
    + by apply IH.
Qed.

Lemma elem_of_pending_get id r l :
  NoDup l.*1 → (id, r) ∈ l → pending_get id l = Some r.
Proof.
  intros Hnd Hin. unfold pending_get.
  destruct (find _ l) as [[k v]|] eqn:E; simpl.
  - apply find_some in E as [Hin' Hk].
    apply bool_decide_eq_true_1 in Hk. simpl in Hk. subst k.
    apply list_elem_of_In in Hin'. f_equal. by eapply pending_unique.
  - apply list_elem_of_In in Hin. eapply find_none in E; [|exact Hin].
    simpl in E. by rewrite bool_decide_eq_true_2 in E.
Qed.

Lemma pending_has_true id r l : NoDup l.*1 → (id, r) ∈ l → pending_has id l = true.
Proof.
  intros Hnd Hin. unfold pending_has.
  rewrite (elem_of_pending_get id r l) by done. by apply bool_decide_eq_true_2.
Qed.

Lemma pending_has_false id l : id ∉ l.*1 → pending_has id l = false.
Proof.
  intros Hno. unfold pending_has. apply bool_decide_eq_false_2. intros [r Hr].
  apply pending_get_elem_of in Hr. apply Hno. by eapply pending_key.
Qed.

Lemma pending_set_fresh id r l : id ∉ l.*1 → pending_set id r l = l ++ [(id, r)].
Proof. intros H. unfold pending_set. by rewrite pending_has_false. Qed.

Lemma pending_delete_keys id l : NoDup l.*1 → NoDup (pending_delete id l).*1.
Proof.
  unfold pending_delete. induction l as [|[k v] l IH]; simpl; [done|].
  intros [Hk Hnd]%NoDup_cons. destruct (negb _); simpl; [|by apply IH].
  apply NoDup_cons. split; [|by apply IH].
  intros Hin. apply Hk. apply list_elem_of_fmap in Hin as [[k' v'] [-> Hin]].
  apply list_elem_of_In, filter_In in Hin as [Hin _].
  apply list_elem_of_In in Hin. by eapply pending_key.
Qed.

End PendingTable.

(** ** The abstract dispatcher keeps its invariant *)

Section Dispatcher.

Implicit Types (d : Dispatch) (r : PendingRec) (id : N).

Lemma callback_guard_timer id r : callback_id (callback (guard_timer id r)) = id.
Proof. unfold guard_timer. by destruct (completion r). Qed.

Lemma key_lt_counter d id :
  dispatch_ok d → id ∈ (d_pending d).*1 → (id < d_counter d)%N.
Proof.
  intros Hok [[k v] [-> Hin]]%list_elem_of_fmap. by eapply ok_keys.
Qed.

Lemma counter_fresh d : dispatch_ok d → d_counter d ∉ (d_pending d).*1.
Proof. intros Hok Hin. apply (key_lt_counter d) in Hin; [lia | done]. Qed.

Lemma dispatch_ok_fail o d : dispatch_ok d → dispatch_ok (d_fail o d).
Proof.
  intros Hok. destruct Hok. split; simpl; try done.
  - intros id r Hin. apply ok_keys0 in Hin. lia.
  - intros id r p Hin Hp. destruct (ok_promise0 id r p Hin Hp) as [Hlt Hno].
    split; [lia|]. rewrite fmap_app, elem_of_app. intros [?|Hp']; [done|].
    apply list_elem_of_singleton in Hp'. simpl in Hp'. lia.
  - intros p. rewrite fmap_app, elem_of_app. intros [Hp|Hp].
    + apply ok_settled0 in Hp. lia.
    + apply list_elem_of_singleton in Hp. simpl in Hp. lia.
  - rewrite fmap_app. apply NoDup_app. split; [done|]. split.
    + intros p Hp Hp'. apply ok_settled0 in Hp.
      apply list_elem_of_singleton in Hp'. simpl in Hp'. lia.
    + apply NoDup_singleton.
  - eapply Forall_impl; [done|]. simpl. intros x Hx. lia.
Qed.

Lemma dispatch_ok_register r made w params d :
  dispatch_ok d →
  timer_of (completion r) = length (d_timers d) →
  (∀ p, promise_of (completion r) = Some p → p = d_promises d ∧ made = 1) →
  dispatch_ok (d_register r made w params d).
Proof.
  intros Hok Ht Hp. pose proof (counter_fresh d Hok) as Hfresh.
  destruct Hok. split; simpl.
  - intros id r' [Hin|Hin]%elem_of_app.
    + apply ok_keys0 in Hin. lia.
    + apply list_elem_of_singleton in Hin as [= -> ->]. lia.
  - rewrite fmap_app. apply NoDup_app. split; [done|]. split.
    + intros id Hid Hid'. apply list_elem_of_singleton in Hid'. simpl in Hid'.
      by subst.
    + apply NoDup_singleton.
  - intros id r' [Hin|Hin]%elem_of_app.
    + pose proof (ok_armed0 _ _ Hin) as Ha. rewrite lookup_app_l; [done|].
      by eapply lookup_lt_Some.
    + apply list_elem_of_singleton in Hin as [= -> ->].
      rewrite Ht. by apply list_lookup_middle.
  - intros h t [[_ Hl]|[-> [= <-]]]%lookup_snoc_Some.
    + destruct (ok_timer0 h t Hl) as (r' & Hin & Hr').
      exists r'. split; [|done]. apply elem_of_app. by left.
    + exists r. rewrite callback_guard_timer. split; [|done].
      apply elem_of_app. right. by apply list_elem_of_singleton.
  - intros id r' p [Hin|Hin]%elem_of_app Hp'.
    + destruct (ok_promise0 id r' p Hin Hp'). split; [lia|done].
    + apply list_elem_of_singleton in Hin as [= -> ->].
      destruct (Hp p Hp') as [-> ->]. split; [lia|].
      intros Hin. apply ok_settled0 in Hin. lia.
  - intros id1 r1 id2 r2 p [H1|H1]%elem_of_app [H2|H2]%elem_of_app Hp1 Hp2.
    + by eapply ok_promise_inj0.
    + apply list_elem_of_singleton in H2 as [= -> ->].
      destruct (Hp p Hp2) as [-> _]. destruct (ok_promise0 _ _ _ H1 Hp1). lia.
    + apply list_elem_of_singleton in H1 as [= -> ->].
      destruct (Hp p Hp1) as [-> _]. destruct (ok_promise0 _ _ _ H2 Hp2). lia.
    + apply list_elem_of_singleton in H1 as [= -> ->].
      by apply list_elem_of_singleton in H2 as [= -> ->].
  - intros p Hin. apply ok_settled0 in Hin. lia.
  - done.
  - rewrite !fmap_app. apply StronglySorted_app_2; [|done|].
    + intros x1 x2 Hx1 Hx2. apply list_elem_of_singleton in Hx2. simpl in Hx2.
      subst x2. apply list_elem_of_fmap in Hx1 as [q [-> Hq]].
      apply list_elem_of_fmap in Hq as [[w' q'] [-> Hq]].
      rewrite Forall_forall in ok_outbox_lt0. by apply (ok_outbox_lt0 (w', q')).
    + repeat constructor.
  - apply Forall_app. split.
    + eapply Forall_impl; [done|]. simpl. intros x Hx. lia.
    + constructor; [simpl; lia | constructor].
Qed.

Lemma dispatch_ok_remove id r o d :
  dispatch_ok d → (id, r) ∈ d_pending d → dispatch_ok (d_remove id r o d).
Proof.
  intros Hok Hin. destruct Hok. split; simpl; try done.
  - intros id' r' [Hin' _]%elem_of_pending_delete. by eapply ok_keys0.
  - by apply pending_delete_keys.
  - intros id' r' [Hin' Hne]%elem_of_pending_delete.
    rewrite list_lookup_insert_ne; [by apply ok_armed0|].
    intros Heq. pose proof (ok_armed0 _ _ Hin) as H1.
    pose proof (ok_armed0 _ _ Hin') as H2. rewrite Heq, H2 in H1.
    injection H1 as H1. apply (f_equal (λ t, callback_id (callback t))) in H1.
    by rewrite !callback_guard_timer in H1.
  - intros h t Hl.
    destruct (decide (timer_of (completion r) = h)) as [<-|Hne].
    + pose proof (lookup_lt_Some _ _ _ Hl) as Hlt. rewrite length_insert in Hlt.
      by rewrite list_lookup_insert_eq in Hl.
    + rewrite list_lookup_insert_ne in Hl by done.
      destruct (ok_timer0 h t Hl) as (r' & Hin' & Hr').
      exists r'. split; [|done]. apply elem_of_pending_delete. split; [done|].
      intros Heq. rewrite Heq in Hin'.
      by rewrite (pending_unique _ _ _ _ ok_nodup0 Hin Hin') in Hne.
  - intros id' r' p [Hin' Hne]%elem_of_pending_delete Hp.
    destruct (ok_promise0 _ _ _ Hin' Hp) as [Hlt Hno]. split; [done|].
    rewrite fmap_app, elem_of_app. intros [?|Hp']; [done|].
    destruct (promise_of (completion r)) as [q|] eqn:Hq; [|by apply elem_of_nil in Hp'].
    apply list_elem_of_singleton in Hp'. simpl in Hp'. subst q.
    apply Hne. by eapply ok_promise_inj0.
  - intros id1 r1 id2 r2 p [H1 _]%elem_of_pending_delete
      [H2 _]%elem_of_pending_delete. by eapply ok_promise_inj0.
  - intros p. rewrite fmap_app, elem_of_app. intros [Hp|Hp]; [by apply ok_settled0|].
    destruct (promise_of (completion r)) as [q|] eqn:Hq; [|by apply elem_of_nil in Hp].
    apply list_elem_of_singleton in Hp. simpl in Hp. subst q.
    by destruct (ok_promise0 _ _ _ Hin Hq).
  - destruct (promise_of (completion r)) as [q|] eqn:Hq; [|by rewrite app_nil_r].
    rewrite fmap_app. apply NoDup_app. split; [done|]. split.
    + intros p Hp Hp'. apply list_elem_of_singleton in Hp'. simpl in Hp'. subst p.
      by destruct (ok_promise0 _ _ _ Hin Hq).
    + apply NoDup_singleton.
Qed.

Lemma dstep_ok d d' : dstep d d' → dispatch_ok d → dispatch_ok d'.
Proof.
  induction 1 as [d|o d|meth now w params d|meth now w params d|id r o d d' Hin _ IH];
    intros Hok.
  - done.
  - by apply dispatch_ok_fail.
  - apply dispatch_ok_register; [done..|]. simpl. by intros p [= <-].
  - apply dispatch_ok_register; [done..|]. simpl. by intros p [=].
  - apply IH. by apply dispatch_ok_remove.
Qed.

(** Along a move of the dispatcher the history of settlements only grows,
    and so do the ids taken and the frames sent. *)
Lemma dstep_settled d d' : dstep d d' → d_settled d `prefix_of` d_settled d'.
Proof.
  induction 1 as [d|o d|meth now w params d|meth now w params d|id r o d d' Hin _ IH];
    simpl; try done.
  - by apply prefix_app_r.
  - etrans; [|exact IH]. simpl. by apply prefix_app_r.
Qed.

End Dispatcher.

Lemma dstep_counter d d' : dstep d d' → (d_counter d ≤ d_counter d')%N.
Proof.
  induction 1 as [d|o d|meth now w params d|meth now w params d|id r o d d' Hin _ IH];
    simpl in *; lia.
Qed.

(** ** The hook refines the abstract dispatcher *)

Section Refinement.

Implicit Types (st : State) (r : PendingRec) (id : N).

Lemma run_cont_dispatch k o st : dispatch (run_cont k o st) = dispatch st.
Proof. by destruct k, o. Qed.

Lemma run_cont_link k o st : link (run_cont k o st) = link st.
Proof. by destruct k, o. Qed.

Lemma settle_promise_dispatch p o st :
  dispatch (settle_promise p o st)
  = mkDispatch (msgIdCounter st) (pendingRef st) (timers st) (length (promises st))
      (settled st ++ [(p, o)]) (outbox st).
Proof.
  unfold settle_promise. simpl.
  destruct (promises st !! p) as [[[k|]|]|]; try done.
  - rewrite run_cont_dispatch. unfold dispatch. simpl. by rewrite length_insert.
  - unfold dispatch. simpl. by rewrite length_insert.
Qed.

Lemma settle_promise_link p o st : link (settle_promise p o st) = link st.
Proof.
  unfold settle_promise. simpl.
  destruct (promises st !! p) as [[[k|]|]|]; try done.
  by rewrite run_cont_link.
Qed.

Lemma await_dispatch p k st : dispatch (await p k st) = dispatch st.
Proof.
  unfold await. destruct (promises st !! p) as [[?|?]|]; try done.
  - unfold dispatch. simpl. by rewrite length_insert.
  - apply run_cont_dispatch.
Qed.

Lemma await_link p k st : link (await p k st) = link st.
Proof.
  unfold await. destruct (promises st !! p) as [[?|?]|]; try done.
  apply run_cont_link.
Qed.

Lemma pending_reject_dispatch r e st :
  dispatch (pending_reject r e st) = d_settle r (Rejected e) (dispatch st).
Proof.
  unfold pending_reject, d_settle. destruct (completion r); simpl.
  - by rewrite settle_promise_dispatch.
  - unfold dispatch. simpl. by rewrite app_nil_r.
Qed.

Lemma pending_resolve_dispatch r v st :
  dispatch (pending_resolve r v st) = d_settle r (Resolved v) (dispatch st).
Proof.
  unfold pending_resolve, d_settle. destruct (completion r); simpl.
  - by rewrite settle_promise_dispatch.
  - unfold dispatch. simpl. by rewrite app_nil_r.
Qed.

Lemma pending_reject_link r e st : link (pending_reject r e st) = link st.
Proof.
  unfold pending_reject. destruct (completion r); [|done].
  by rewrite settle_promise_link.
Qed.

Lemma pending_resolve_link r v st : link (pending_resolve r v st) = link st.
Proof.
  unfold pending_resolve. destruct (completion r); [|done].
  by rewrite settle_promise_link.
Qed.

Lemma socket_open_link st st' : link st' = link st → socket_open st' = socket_open st.
Proof. unfold link, socket_open. by intros [= -> ->]. Qed.

(** [call] on a socket that is not open, and on one that is. *)
Lemma call_closed_dispatch meth params now st :
  socket_open st = None →
  dispatch (call meth params now st).2
  = d_fail (Rejected (JsError ("call(" +:+ meth +:+ "): socket not open, cannot send")))
      (dispatch st).
Proof.
  intros Hc. unfold call, nextId, rawSend. simpl.
  rewrite (socket_open_link st) by done. rewrite Hc. simpl.
  rewrite settle_promise_dispatch. unfold d_fail, dispatch. simpl.
  rewrite length_app. simpl. by rewrite Nat.add_1_r.
Qed.

Lemma call_open_dispatch meth params now st w :
  dispatch_ok (dispatch st) → socket_open st = Some w →
  dispatch (call meth params now st).2
  = d_register (mkPendingRec meth now
                  (CallCompletion (length (timers st)) (length (promises st))))
      1 w params (dispatch st).
Proof.
  intros Hok Ho. unfold call, nextId, rawSend. simpl.
  rewrite (socket_open_link st) by done. rewrite Ho. simpl.
  unfold d_register, dispatch, guard_timer. simpl.
  rewrite pending_set_fresh by apply (counter_fresh _ Hok).
  rewrite length_app. simpl. by rewrite Nat.add_1_r.
Qed.

Lemma call_link meth params now st : link (call meth params now st).2 = link st.
Proof.
  unfold call, nextId, rawSend. simpl.
  rewrite (socket_open_link st) by done.
  destruct (socket_open st); simpl; [done|]. by rewrite settle_promise_link.
Qed.

Lemma call_dstep meth params now st :
  dispatch_ok (dispatch st) →
  dstep (dispatch st) (dispatch (call meth params now st).2).
Proof.
  intros Hok. destruct (socket_open st) as [w|] eqn:E.
  - rewrite (call_open_dispatch _ _ _ _ w) by done. apply dstep_call.
  - rewrite call_closed_dispatch by done. apply dstep_fail.
Qed.

Lemma onopen_dispatch ws now st :
  dispatch_ok (dispatch st) → wsRef st = Some ws →
  dispatch (onopen ws now st)
  = d_register (mkPendingRec "initialize" now (InitCompletion (length (timers st))))
      0 ws (InitializeParams "clode-app" "1.0.0") (dispatch st).
Proof.
  intros Hok Hw. unfold onopen. rewrite bool_decide_eq_true_2 by done. simpl.
  unfold d_register, dispatch, guard_timer. simpl.
  by rewrite pending_set_fresh by apply (counter_fresh _ Hok).
Qed.

Lemma onopen_link ws now st : link (onopen ws now st) = link st.
Proof. unfold onopen. by destruct (bool_decide _). Qed.

Lemma onmessage_dstep ws data st :
  dstep (dispatch st) (dispatch (onmessage ws data st)).
Proof.
  unfold onmessage. destruct (negb _); [apply dstep_refl|].
  destruct data as [|msg]; [apply dstep_refl|].
  assert (Hn : dstep (dispatch st)
                 (dispatch match in_method msg with
                           | Some meth =>
                               setSessions
                                 (handleNotification (sessionRef st) meth (in_params msg)) st
                           | None => st
                           end)).
  { destruct (in_method msg); apply dstep_refl. }
  destruct (in_id msg) as [[id|?]|], (in_error msg) as [e|], (in_result msg) as [v|];
    try exact Hn; try apply dstep_refl;
    (destruct (pending_get id (pendingRef st)) as [r|] eqn:E; [|apply dstep_refl]);
    apply pending_get_elem_of in E;
    (eapply dstep_remove; [exact E|]);
    rewrite ?pending_reject_dispatch, ?pending_resolve_dispatch; apply dstep_refl.
Qed.

Lemma onmessage_link ws data st : link (onmessage ws data st) = link st.
Proof.
  unfold onmessage. destruct (negb _); [done|]. destruct data as [|msg]; [done|].
  assert (Hn : link match in_method msg with
                    | Some meth =>
                        setSessions
                          (handleNotification (sessionRef st) meth (in_params msg)) st
                    | None => st
                    end = link st) by by destruct (in_method msg).
  destruct (in_id msg) as [[id|?]|], (in_error msg) as [e|], (in_result msg) as [v|];
    try exact Hn; try done;
    (destruct (pending_get id (pendingRef st)) as [r|]; [|done]);
    by rewrite ?pending_reject_link, ?pending_resolve_link.
Qed.

(** A timer that is armed guards a record of the table; when it fires the
    record leaves the table and, for a call, the promise is rejected. *)
Lemma fire_timer_dispatch h now t st :
  dispatch_ok (dispatch st) → timers st !! h = Some (Some t) →
  ∃ id r, (id, r) ∈ pendingRef st ∧ timer_of (completion r) = h
          ∧ t = guard_timer id r
          ∧ dispatch (fire_timer h now st)
            = d_remove id r
                (Rejected (timeout_error (method r) (now - startedAt r))) (dispatch st).
Proof.
  intros Hok Ht.
  destruct (ok_timer _ Hok h t Ht) as (r & Hin & Hr).
  remember (callback_id (callback t)) as id eqn:Hid.
  pose proof (ok_armed _ Hok _ _ Hin) as Ha. simpl in Hin, Ha.
  rewrite Hr, Ht in Ha. injection Ha as Ha. clear Hid.
  exists id, r. repeat split; try done.
  unfold fire_timer. rewrite Ht, Ha. unfold guard_timer, d_remove, d_settle.
  unfold timeout_error. clear Ha Ht.
  destruct (completion r) as [h' p|h'] eqn:Ec; simpl in *; subst h'.
  - rewrite (pending_has_true id r) by (done || apply (ok_nodup _ Hok)). simpl.
    by rewrite settle_promise_dispatch.
  - rewrite (pending_has_true id r) by (done || apply (ok_nodup _ Hok)).
    unfold dispatch, with_pending. simpl. by rewrite app_nil_r.
Qed.

Lemma fire_timer_idle h now st :
  (∀ t, timers st !! h ≠ Some (Some t)) → fire_timer h now st = st.
Proof.
  intros Hno. unfold fire_timer.
  destruct (timers st !! h) as [[t|]|] eqn:E; [|done..]. by destruct (Hno t).
Qed.

Lemma fire_timer_dstep h now st :
  dispatch_ok (dispatch st) → dstep (dispatch st) (dispatch (fire_timer h now st)).
Proof.
  intros Hok. destruct (timers st !! h) as [[t|]|] eqn:E.
  - destruct (fire_timer_dispatch h now t st Hok E) as (id & r & Hin & _ & _ & ->).
    eapply dstep_remove; [exact Hin | apply dstep_refl].
  - rewrite fire_timer_idle; [apply dstep_refl | congruence].
  - rewrite fire_timer_idle; [apply dstep_refl | congruence].
Qed.

Lemma fire_timer_link h now st : link (fire_timer h now st) = link st.
Proof.
  unfold fire_timer. destruct (timers st !! h) as [[t|]|]; [|done..].
  destruct (callback t); simpl; destruct (pending_has _ _); simpl; try done.
  by rewrite settle_promise_link.
Qed.

(** [rejectAllPending] is the removal of every record, in the table's order. *)
Lemma reject_all_dispatch e l st :
  dispatch (reject_all e l st) = d_settle_all (Rejected e) l (dispatch st).
Proof.
  revert st. induction l as [|[id r] l IH]; intros st; [done|].
  unfold reject_all, d_settle_all in *. simpl.
  by rewrite IH, pending_reject_dispatch.
Qed.

Lemma reject_all_link e l st : link (reject_all e l st) = link st.
Proof.
  revert st. induction l as [|[id r] l IH]; intros st; [done|].
  unfold reject_all in *. simpl. by rewrite IH, pending_reject_link.
Qed.

Lemma d_settle_all_with_pending o l x d :
  d_settle_all o l (with_pending x d) = with_pending x (d_settle_all o l d).
Proof.
  revert d. induction l as [|[id r] l IH]; intros d; [done|].
  unfold d_settle_all in *. simpl. by rewrite <- IH.
Qed.

Lemma pending_delete_head id r l :
  id ∉ l.*1 → pending_delete id ((id, r) :: l) = l.
Proof.
  intros Hno. unfold pending_delete. simpl. rewrite bool_decide_eq_true_2 by done.
  simpl. induction l as [|[k v] l IH]; simpl; [done|].
  rewrite bool_decide_eq_false_2; simpl.
  - f_equal. apply IH. intros H. apply Hno. by right.
  - intros ->. apply Hno. by left.
Qed.

Lemma d_settle_all_dstep o l d :
  NoDup l.*1 → d_pending d = l →
  dstep d (with_pending [] (d_settle_all o l d)).
Proof.
  revert d. induction l as [|[id r] l IH]; intros d Hnd Hl.
  - destruct d. simpl in *. subst. apply dstep_refl.
  - apply NoDup_cons in Hnd as [Hid Hnd].
    apply (dstep_remove id r o); [rewrite Hl; by left|].
    unfold d_remove. rewrite Hl, pending_delete_head by done.
    replace (d_settle_all o ((id, r) :: l) d) with (d_settle_all o l (d_settle r o d))
      by done.
    specialize (IH (with_pending l (d_settle r o d)) Hnd eq_refl).
    by rewrite d_settle_all_with_pending in IH.
Qed.

Lemma rejectAllPending_reject_all reason st :
  rejectAllPending reason st
  = set_pendingRef [] (reject_all (JsError reason) (pendingRef st) st)
  ∨ (pendingRef st = [] ∧ rejectAllPending reason st = st).
Proof. unfold rejectAllPending, reject_all. destruct (pendingRef st); auto. Qed.

Lemma rejectAllPending_dstep reason st :
  dispatch_ok (dispatch st) →
  dstep (dispatch st) (dispatch (rejectAllPending reason st)).
Proof.
  intros Hok.
  destruct (rejectAllPending_reject_all reason st) as [-> | [_ ->]];
    [|apply dstep_refl].
  pose proof (d_settle_all_dstep (Rejected (JsError reason)) (pendingRef st)
                (dispatch st) (ok_nodup _ Hok) eq_refl) as H.
  by rewrite <- reject_all_dispatch in H.
Qed.

Lemma rejectAllPending_link reason st : link (rejectAllPending reason st) = link st.
Proof.
  destruct (rejectAllPending_reject_all reason st) as [-> | [_ ->]]; [|done].
  apply (reject_all_link (JsError reason) (pendingRef st) st).
Qed.

Lemma call_promise meth params now st :
  (call meth params now st).1 = length (promises st).
Proof. unfold call, nextId, rawSend. simpl. by destruct (socket_open _). Qed.

(** [call] itself never writes the session store, and leaves its promise
    waiting (sent) or rejected (not sent). *)
Lemma call_sessions meth params now st :
  sessions (call meth params now st).2 = sessions st
  ∧ promises (call meth params now st).2 !! length (promises st)
    = Some (match socket_open st with
            | Some _ => Waiting None
            | None => Settled (Rejected (JsError ("call(" +:+ meth
                                                  +:+ "): socket not open, cannot send")))
            end).
Proof.
  unfold call, nextId, rawSend. simpl. rewrite (socket_open_link st) by done.
  destruct (socket_open st); simpl.
  - split; [done|]. by apply list_lookup_middle.
  - unfold settle_promise. simpl. rewrite list_lookup_middle by done. simpl.
    split; [done|]. rewrite insert_app_r_alt, Nat.sub_diag by done.
    by apply list_lookup_middle.
Qed.

(** [await] on the promise [call] returned: the continuation is attached to
    a call that was sent, and runs at once on one that was not. *)
Lemma call_await_cases meth params now k st :
  let c := call meth params now st in
  await c.1 k c.2
  = match socket_open st with
    | Some _ => set_promises (<[ c.1 := Waiting (Some k) ]> (promises c.2)) c.2
    | None =>
        run_cont k
          (Rejected (JsError ("call(" +:+ meth +:+ "): socket not open, cannot send")))
          c.2
    end.
Proof.
  cbv zeta. unfold await. rewrite call_promise.
  rewrite (proj2 (call_sessions meth params now st)).
  by destruct (socket_open st).
Qed.

Lemma call_await_pair meth params now k st :
  (let '(p, st1) := call meth params now st in await p k st1)
  = await (call meth params now st).1 k (call meth params now st).2.
Proof. by destruct (call meth params now st). Qed.

End Refinement.

(** ** Every event keeps the invariant *)

Section Steps.

Implicit Types (st : State) (r : PendingRec) (id : N) (e : Event).

Lemma onclose_dstep ws code reason st :
  dispatch_ok (dispatch st) →
  dstep (dispatch st) (dispatch (onclose ws code reason st)).
Proof.
  intros Hok. unfold onclose.
  assert (H : dstep (dispatch st)
                (dispatch (if bool_decide (wsRef st = Some ws)
                           then rejectAllPending
                                  ("WebSocket closed (code=" +:+ pretty code +:+ ")")
                                  (set_wsRef None st)
                           else st))).
  { destruct (bool_decide _); [|apply dstep_refl].
    by apply (rejectAllPending_dstep _ (set_wsRef None st)). }
  by repeat case_bool_decide.
Qed.

Lemma link_ok_insert w (x : WebSocket) o l :
  link_ok (o, l) → link_ok (o, <[ w := x ]> l).
Proof.
  intros H w' Hw'. simpl in *. apply lookup_lt_is_Some. rewrite length_insert.
  apply lookup_lt_is_Some. by apply (H w').
Qed.

Lemma close_socket_dispatch w st : dispatch (close_socket w st) = dispatch st.
Proof.
  unfold close_socket. destruct (sockets st !! w) as [s|]; [|done].
  by destruct (readyState s).
Qed.

Lemma close_socket_link_ok w st : link_ok (link st) → link_ok (link (close_socket w st)).
Proof.
  intros H. unfold close_socket. destruct (sockets st !! w) as [s|]; [|done].
  destruct (readyState s); try done; by apply link_ok_insert.
Qed.

Lemma close_socket_wsRef w st : wsRef (close_socket w st) = wsRef st.
Proof.
  unfold close_socket. destruct (sockets st !! w) as [s|]; [|done].
  by destruct (readyState s).
Qed.

Lemma connect_dispatch serverUrl st : dispatch (connect serverUrl st) = dispatch st.
Proof.
  unfold connect. destruct (same_live_socket _ _); [done|].
  destruct (wsRef st) as [w|]; [|done].
  transitivity (dispatch (close_socket w st)); [done | apply close_socket_dispatch].
Qed.

Lemma connect_link_ok serverUrl st :
  link_ok (link st) → link_ok (link (connect serverUrl st)).
Proof.
  intros H. unfold connect. destruct (same_live_socket _ _); [done|].
  intros w. unfold link. simpl. intros [= <-].
  apply lookup_lt_is_Some. rewrite length_app. simpl. lia.
Qed.

Lemma disconnect_dispatch st : dispatch (disconnect st) = dispatch st.
Proof.
  unfold disconnect. destruct (wsRef st) as [w|]; [|done].
  transitivity (dispatch (close_socket w st)); [done | apply close_socket_dispatch].
Qed.

Lemma disconnect_link_ok st : link_ok (link st) → link_ok (link (disconnect st)).
Proof.
  intros H. unfold disconnect. destruct (wsRef st) as [w|] eqn:E; [|done].
  by apply (close_socket_link_ok w) in H.
Qed.

Lemma call_await_dstep meth params now k st :
  dispatch_ok (dispatch st) →
  dstep (dispatch st)
    (dispatch (let '(p, st1) := call meth params now st in await p k st1)).
Proof.
  intros Hok. pose proof (call_dstep meth params now st Hok) as H.
  destruct (call meth params now st) as [p st1]. by rewrite await_dispatch.
Qed.

Lemma call_await_link meth params now k st :
  link (let '(p, st1) := call meth params now st in await p k st1) = link st.
Proof.
  pose proof (call_link meth params now st) as H.
  destruct (call meth params now st) as [p st1]. by rewrite await_link.
Qed.

Lemma step_dstep now e st :
  Inv st → dstep (dispatch st) (dispatch (step now e st)).
Proof.
  intros [Hok Hl]. destruct e; simpl.
  - rewrite connect_dispatch. apply dstep_refl.
  - rewrite disconnect_dispatch. apply dstep_refl.
  - by apply call_await_dstep.
  - unfold sendMessage. by apply (call_await_dstep _ _ _ _ (setSessions _ st)).
  - by apply call_await_dstep.
  - by apply call_await_dstep.
  - by apply call_await_dstep.
  - apply dstep_refl.
  - apply dstep_refl.
  - unfold deleteSession. destruct (find _ _) as [s|]; [|apply dstep_refl].
    destruct (nonempty _); [by apply call_await_dstep | apply dstep_refl].
  - unfold socket_opened. destruct (sockets st !! ws) as [s|]; [|apply dstep_refl].
    destruct (bool_decide _); [|apply dstep_refl].
    set (st' := set_sockets _ st).
    destruct (decide (wsRef st' = Some ws)) as [Hw|Hw].
    + rewrite (onopen_dispatch ws now st') by done. apply dstep_init.
    + unfold onopen. rewrite bool_decide_eq_false_2 by done. apply dstep_refl.
  - destruct (sockets st !! ws); [apply onmessage_dstep | apply dstep_refl].
  - unfold socket_closed. destruct (sockets st !! ws) as [s|]; [|apply dstep_refl].
    by apply (onclose_dstep _ _ _ (set_sockets _ st)).
  - by apply fire_timer_dstep.
  - apply dstep_refl.
Qed.

Lemma onclose_link_ok ws code reason st :
  link_ok (link st) → link_ok (link (onclose ws code reason st)).
Proof.
  intros H. unfold onclose.
  assert (H' : link_ok (link (if bool_decide (wsRef st = Some ws)
                              then rejectAllPending
                                     ("WebSocket closed (code=" +:+ pretty code +:+ ")")
                                     (set_wsRef None st)
                              else st))).
  { destruct (bool_decide _); [|done]. rewrite rejectAllPending_link.
    intros w. by unfold link. }
  by repeat case_bool_decide.
Qed.

Lemma step_link_ok now e st : link_ok (link st) → link_ok (link (step now e st)).
Proof.
  intros Hl. destruct e; simpl; try done.
  - by apply connect_link_ok.
  - by apply disconnect_link_ok.
  - unfold createSession. by rewrite call_await_link.
  - unfold sendMessage. by rewrite call_await_link.
  - unfold interruptTurn. by rewrite call_await_link.
  - unfold approvePermission. by rewrite call_await_link.
  - unfold changePermissionMode. by rewrite call_await_link.
  - unfold deleteSession. destruct (find _ _) as [s|]; [|done].
    destruct (nonempty _); [by rewrite call_await_link | done].
  - unfold socket_opened. destruct (sockets st !! ws) as [s|]; [|done].
    destruct (bool_decide _); [|done]. rewrite onopen_link.
    by apply link_ok_insert.
  - destruct (sockets st !! ws); [by rewrite onmessage_link | done].
  - unfold socket_closed. destruct (sockets st !! ws) as [s|]; [|done].
    apply onclose_link_ok. by apply link_ok_insert.
  - by rewrite fire_timer_link.
Qed.

Lemma Inv_initial : Inv initial.
Proof.
  split; [|by intros w]. split; simpl; try done; try by constructor.
  - intros id r H. by apply elem_of_nil in H.
  - intros id r H. by apply elem_of_nil in H.
  - intros id r p H. by apply elem_of_nil in H.
  - intros id1 r1 id2 r2 p H. by apply elem_of_nil in H.
  - intros p H. by apply elem_of_nil in H.
Qed.

Lemma Inv_step now e st : Inv st → Inv (step now e st).
Proof.
  intros H. split.
  - eapply dstep_ok; [by apply step_dstep | apply H].
  - apply step_link_ok, H.
Qed.

Lemma run_nil st : run [] st = st.
Proof. done. Qed.

Lemma run_snoc tr now e st : run (tr ++ [(now, e)]) st = step now e (run tr st).
Proof. unfold run. by rewrite foldl_app. Qed.

Lemma run_app tr1 tr2 st : run (tr1 ++ tr2) st = run tr2 (run tr1 st).
Proof. unfold run. by rewrite foldl_app. Qed.

Lemma Inv_run tr st : Inv st → Inv (run tr st).
Proof.
  revert st. induction tr as [|[now e] tr IH]; intros st H; [done|].
  simpl. apply IH. by apply Inv_step.
Qed.

Lemma reachable_Inv tr : Inv (run tr initial).
Proof. apply Inv_run, Inv_initial. Qed.

Lemma step_settled now e st : Inv st → settled st `prefix_of` settled (step now e st).
Proof. intros H. apply (dstep_settled _ _ (step_dstep now e st H)). Qed.

Lemma run_settled tr st : Inv st → settled st `prefix_of` settled (run tr st).
Proof.
  revert st. induction tr as [|[now e] tr IH]; intros st H; [done|].
  simpl. etrans; [by apply (step_settled now e)|]. apply IH. by apply Inv_step.
Qed.

End Steps.

(** ** A pending call is settled by the first event that decides it *)

Section Settlement.

Implicit Types (st : State) (r : PendingRec) (id : N) (e : Event).

Lemma outcomes_fresh p st : p ∉ (settled st).*1 → outcomes p st = [].
Proof.
  unfold outcomes. intros Hno.
  induction (settled st) as [|[q o] l IH]; [done|].
  rewrite filter_cons. simpl. destruct (decide (q = p)) as [->|Hne].
  - destruct Hno. by left.
  - apply IH. intros H. apply Hno. by right.
Qed.

Lemma outcomes_unique p o st :
  NoDup (settled st).*1 → (p, o) ∈ settled st → outcomes p st = [o].
Proof.
  unfold outcomes. induction (settled st) as [|[q o'] l IH]; intros Hnd Hin.
  - by apply elem_of_nil in Hin.
  - apply NoDup_cons in Hnd as [Hq Hnd]. rewrite filter_cons. simpl.
    apply elem_of_cons in Hin as [[= <- <-]|Hin].
    + rewrite decide_True by done. simpl. f_equal.
      change ((filter (λ x, x.1 = p) l).*2 = []).
      clear IH Hnd. induction l as [|[q o2] l IH]; [done|].
      rewrite filter_cons. simpl. destruct (decide (q = p)) as [->|Hne].
      * destruct Hq. by left.
      * apply IH. intros H. apply Hq. by right.
    + destruct (decide (q = p)) as [->|Hne]; [|by apply IH].
      destruct Hq. by apply (list_elem_of_fmap_2 fst l (p, o)).
Qed.

Lemma outcomes_at_most_once p st :
  NoDup (settled st).*1 → (length (outcomes p st) ≤ 1)%nat.
Proof.
  intros Hnd. destruct (decide (p ∈ (settled st).*1)) as [Hin|Hno].
  - apply list_elem_of_fmap in Hin as [[q o] [Heq Hin]]. simpl in Heq. subst q.
    rewrite (outcomes_unique p o) by done. simpl. lia.
  - rewrite outcomes_fresh by done. simpl. lia.
Qed.

Lemma call_pending_mono meth params now st id r :
  dispatch_ok (dispatch st) → (id, r) ∈ pendingRef st →
  (id, r) ∈ pendingRef (call meth params now st).2.
Proof.
  intros Hok Hin. destruct (socket_open st) as [w|] eqn:E.
  - pose proof (f_equal d_pending (call_open_dispatch meth params now st w Hok E)) as H.
    simpl in H. rewrite H. apply elem_of_app. by left.
  - pose proof (f_equal d_pending (call_closed_dispatch meth params now st E)) as H.
    simpl in H. by rewrite H.
Qed.

Lemma call_await_pending_mono meth params now k st id r :
  dispatch_ok (dispatch st) → (id, r) ∈ pendingRef st →
  (id, r) ∈ pendingRef (let '(p, st1) := call meth params now st in await p k st1).
Proof.
  intros Hok Hin. pose proof (call_pending_mono meth params now st id r Hok Hin) as H.
  destruct (call meth params now st) as [p st1].
  pose proof (f_equal d_pending (await_dispatch p k st1)) as H'. simpl in *.
  by rewrite H'.
Qed.

Lemma d_settle_all_settled_mono o l d x :
  x ∈ d_settled d → x ∈ d_settled (d_settle_all o l d).
Proof.
  revert d. induction l as [|[id r] l IH]; intros d Hx; [done|].
  change (d_settle_all o ((id, r) :: l) d) with (d_settle_all o l (d_settle r o d)).
  apply IH. simpl. apply elem_of_app. by left.
Qed.

Lemma d_settle_all_settled o l d id r p :
  (id, r) ∈ l → promise_of (completion r) = Some p →
  (p, o) ∈ d_settled (d_settle_all o l d).
Proof.
  revert d. induction l as [|[id' r'] l IH]; intros d Hin Hp.
  - by apply elem_of_nil in Hin.
  - apply elem_of_cons in Hin as [[= <- <-]|Hin].
    + change (d_settle_all o ((id, r) :: l) d)
        with (d_settle_all o l (d_settle r o d)).
      apply d_settle_all_settled_mono. simpl. rewrite Hp.
      apply elem_of_app. right. by left.
    + by apply IH.
Qed.

(** An event that decides nothing for the call leaves its record in place. *)
Lemma undecided_stays_pending now e st id r :
  Inv st → (id, r) ∈ pendingRef st → decision st id r now e = None →
  (id, r) ∈ pendingRef (step now e st).
Proof.
  intros [Hok Hl] Hin Hdec. destruct e; simpl in *; try done.
  - pose proof (f_equal d_pending (connect_dispatch serverUrl st)) as H.
    simpl in H. by rewrite H.
  - pose proof (f_equal d_pending (disconnect_dispatch st)) as H.
    simpl in H. by rewrite H.
  - by apply call_await_pending_mono.
  - unfold sendMessage. by apply (call_await_pending_mono _ _ _ _ (setSessions _ st)).
  - by apply call_await_pending_mono.
  - by apply call_await_pending_mono.
  - by apply call_await_pending_mono.
  - unfold deleteSession. destruct (find _ _) as [s|]; [|done].
    destruct (nonempty _); [by apply call_await_pending_mono | done].
  - unfold socket_opened. destruct (sockets st !! ws) as [s|]; [|done].
    destruct (bool_decide _); [|done]. set (st' := set_sockets _ st).
    destruct (decide (wsRef st' = Some ws)) as [Hw|Hw].
    + pose proof (f_equal d_pending (onopen_dispatch ws now st' Hok Hw)) as H.
      simpl in H. rewrite H. apply elem_of_app. by left.
    + unfold onopen. by rewrite bool_decide_eq_false_2 by done.
  - destruct (sockets st !! ws); [|done]. unfold onmessage.
    destruct (bool_decide_reflect (wsRef st = Some ws)) as [Hw|Hw]; [|done]. simpl.
    destruct data as [|msg]; [done|]. simpl in Hdec.
    assert (Hn : (id, r) ∈ pendingRef
                   match in_method msg with
                   | Some meth =>
                       setSessions
                         (handleNotification (sessionRef st) meth (in_params msg)) st
                   | None => st
                   end) by by destruct (in_method msg).
    destruct (in_id msg) as [[id'|?]|], (in_error msg) as [err|],
      (in_result msg) as [v|]; try exact Hn; try done;
      (destruct (pending_get id' (pendingRef st)) as [r'|] eqn:E; [|done]);
      (destruct (decide (id' = id)) as [->|Hne];
       [by rewrite bool_decide_eq_true_2 in Hdec|]).
    + pose proof (f_equal d_pending (pending_reject_dispatch r' (ErrorPayload err)
        (set_pendingRef (pending_delete id' (pendingRef st)) st))) as H.
      simpl in H. rewrite H. by apply elem_of_pending_delete.
    + pose proof (f_equal d_pending (pending_reject_dispatch r' (ErrorPayload err)
        (set_pendingRef (pending_delete id' (pendingRef st)) st))) as H.
      simpl in H. rewrite H. by apply elem_of_pending_delete.
    + pose proof (f_equal d_pending (pending_resolve_dispatch r' v
        (set_pendingRef (pending_delete id' (pendingRef st)) st))) as H.
      simpl in H. rewrite H. by apply elem_of_pending_delete.
  - unfold socket_closed. destruct (sockets st !! ws) as [s|]; [|done].
    unfold onclose. simpl.
    destruct (bool_decide_reflect (wsRef st = Some ws)) as [Hw|Hw]; [done|].
    by repeat case_bool_decide.
  - destruct (timers st !! h) as [[t|]|] eqn:E.
    + destruct (fire_timer_dispatch h now t st Hok E) as (id' & r' & Hin' & Hh & _ & H).
      apply (f_equal d_pending) in H. simpl in H. rewrite H.
      apply elem_of_pending_delete. split; [done|]. intros ->.
      rewrite (pending_unique _ _ _ _ (ok_nodup _ Hok) Hin Hin') in Hdec.
      by rewrite bool_decide_eq_true_2 in Hdec.
    + rewrite fire_timer_idle; [done | congruence].
    + rewrite fire_timer_idle; [done | congruence].
Qed.

(** An event that decides for the call settles its promise as decided. *)
Lemma decided_settles now e st id r h p o :
  Inv st → (id, r) ∈ pendingRef st → completion r = CallCompletion h p →
  decision st id r now e = Some o →
  (p, o) ∈ settled (step now e st).
Proof.
  intros [Hok Hl] Hin Hc Hdec.
  pose proof (elem_of_pending_get id r _ (ok_nodup _ Hok) Hin) as Hget.
  simpl in Hget. destruct e; simpl in *; try done.
  - destruct data as [|msg]; [done|].
    destruct (bool_decide_reflect (wsRef st = Some ws)) as [Hw|Hw]; [|done].
    destruct (bool_decide_reflect (in_id msg = Some (NumberId id))) as [Hid|Hid];
      [|done]. simpl in Hdec.
    destruct (Hl ws Hw) as [s Hs]. simpl in Hs. rewrite Hs.
    unfold onmessage. rewrite bool_decide_eq_true_2 by done. simpl.
    rewrite Hid, Hget.
    destruct (in_error msg) as [err|]; [|destruct (in_result msg) as [v|]; [|done]];
      injection Hdec as <-.
    + pose proof (f_equal d_settled (pending_reject_dispatch r (ErrorPayload err)
        (set_pendingRef (pending_delete id (pendingRef st)) st))) as H.
      simpl in H. rewrite H, Hc. simpl. apply elem_of_app. right. by left.
    + pose proof (f_equal d_settled (pending_resolve_dispatch r v
        (set_pendingRef (pending_delete id (pendingRef st)) st))) as H.
      simpl in H. rewrite H, Hc. simpl. apply elem_of_app. right. by left.
  - destruct (bool_decide_reflect (wsRef st = Some ws)) as [Hw|Hw]; [|done].
    injection Hdec as <-. destruct (Hl ws Hw) as [s Hs]. simpl in Hs.
    unfold socket_closed. rewrite Hs. set (st' := set_sockets _ st).
    unfold onclose. rewrite (bool_decide_eq_true_2 (wsRef st' = Some ws)) by exact Hw.
    set (reason' := "WebSocket closed (code=" +:+ pretty code +:+ ")").
    assert (H : (p, Rejected (JsError reason'))
                ∈ settled (rejectAllPending reason' (set_wsRef None st'))).
    { destruct (rejectAllPending_reject_all reason' (set_wsRef None st'))
        as [-> | [Hnil _]].
      - pose proof (f_equal d_settled (reject_all_dispatch (JsError reason')
          (pendingRef st) (set_wsRef None st'))) as H. simpl in H.
        change (settled (set_pendingRef [] ?x)) with (settled x).
        change (pendingRef (set_wsRef None st')) with (pendingRef st).
        rewrite H. eapply d_settle_all_settled; [exact Hin|]. by rewrite Hc.
      - change (pendingRef (set_wsRef None st')) with (pendingRef st) in Hnil.
        rewrite Hnil in Hin. by apply elem_of_nil in Hin. }
    by repeat case_bool_decide.
  - destruct (bool_decide_reflect (h0 = timer_of (completion r))) as [->|]; [|done].
    injection Hdec as <-.
    pose proof (ok_armed _ Hok _ _ Hin) as Ha. simpl in Ha.
    destruct (fire_timer_dispatch _ now _ st Hok Ha)
      as (id' & r' & Hin' & _ & Hg & H).
    apply (f_equal (λ t, callback_id (callback t))) in Hg.
    rewrite !callback_guard_timer in Hg. subst id'.
    rewrite <- (pending_unique _ _ _ _ (ok_nodup _ Hok) Hin Hin') in H.
    apply (f_equal d_settled) in H. simpl in H. rewrite H, Hc. simpl.
    apply elem_of_app. right. by left.
Qed.

Lemma first_decision_settles tr st id r h p :
  Inv st → (id, r) ∈ pendingRef st → completion r = CallCompletion h p →
  match first_decision st id r tr with
  | Some o => outcomes p (run tr st) = [o]
  | None => outcomes p (run tr st) = [] ∧ (id, r) ∈ pendingRef (run tr st)
  end.
Proof.
  revert st. induction tr as [|[now e] tr IH]; intros st HI Hin Hc; simpl.
  - split; [|done]. apply outcomes_fresh.
    eapply (ok_promise _ (proj1 HI)); [exact Hin | by rewrite Hc].
  - destruct (decision st id r now e) as [o|] eqn:Hd.
    + pose proof (decided_settles now e st id r h p o HI Hin Hc Hd) as Hs.
      pose proof (Inv_step now e st HI) as HI'.
      apply outcomes_unique.
      * apply (ok_settled_nodup _ (proj1 (Inv_run tr _ HI'))).
      * destruct (run_settled tr _ HI') as [k ->]. apply elem_of_app. by left.
    + apply IH; [by apply Inv_step | | done].
      by apply undecided_stays_pending.
Qed.

(** While [connect] does not replace it, the connection in use stays the
    one in use until its closure, and the decisions are those of the events
    as they arrive. *)
Lemma arrival_decision w st id r now e :
  wsRef st = Some w → decision st id r now e = arrival w id r now e.
Proof.
  intros Hw. destruct e; simpl; try done.
  - destruct data as [|msg]; [done|]. rewrite Hw.
    by rewrite (bool_decide_ext (Some w = Some ws) (ws = w)) by naive_solver.
  - rewrite Hw.
    by rewrite (bool_decide_ext (Some w = Some ws) (ws = w)) by naive_solver.
Qed.

Lemma undecided_keeps_connection w now e st id r :
  wsRef st = Some w → is_connect e = false → decision st id r now e = None →
  wsRef (step now e st) = Some w.
Proof.
  intros Hw Hc Hd. destruct e; simpl in *; try done.
  - unfold disconnect. rewrite Hw. simpl. by rewrite close_socket_wsRef.
  - unfold createSession. pose proof (call_await_link "thread/start"
      (ThreadStartParams dir mode) now (AfterThreadStart dir mode) st) as H.
    by injection H as -> _.
  - unfold sendMessage. pose proof (call_await_link "turn/start"
      (TurnStartParams tid text model) now AfterTurnStart (setSessions
        (map (λ s, if bool_decide (thread_id s ≠ tid) then s
                   else append_user_message now text s)) st)) as H.
    by injection H as -> _.
  - unfold interruptTurn. pose proof (call_await_link "turn/interrupt"
      (TurnInterruptParams tid) now AfterInterrupt st) as H.
    by injection H as -> _.
  - unfold approvePermission. pose proof (call_await_link "approval/respond"
      (ApprovalParams tid true mode) now (AfterApprove tid mode) st) as H.
    by injection H as -> _.
  - unfold changePermissionMode. pose proof (call_await_link "approval/respond"
      (ApprovalParams tid true (Some mode)) now (AfterChangeMode tid mode) st) as H.
    by injection H as -> _.
  - unfold deleteSession. destruct (find _ _) as [s|]; [|done].
    destruct (nonempty _); [|done].
    pose proof (call_await_link "turn/interrupt"
      (TurnInterruptParams tid) now (AfterDeleteInterrupt tid) st) as H.
    by injection H as -> _.
  - unfold socket_opened. destruct (sockets st !! ws) as [s|]; [|done].
    destruct (bool_decide _); [|done].
    pose proof (onopen_link ws now (set_sockets
      (<[ws:=mkWebSocket (ws_url s) OPEN]> (sockets st)) st)) as H.
    by injection H as -> _.
  - destruct (sockets st !! ws); [|done].
    pose proof (onmessage_link ws data st) as H. by injection H as -> _.
  - unfold socket_closed. destruct (sockets st !! ws) as [s|]; [|done].
    unfold onclose. simpl.
    destruct (bool_decide_reflect (wsRef st = Some ws)) as [?|?]; [done|].
    by repeat case_bool_decide.
  - pose proof (fire_timer_link h now st) as H. by injection H as -> _.
Qed.

Lemma first_arrival_decision w tr st id r :
  wsRef st = Some w → Forall (λ ne, is_connect ne.2 = false) tr →
  first_decision st id r tr = first_arrival w id r tr.
Proof.
  revert st. induction tr as [|[now e] tr IH]; intros st Hw Hc; [done|].
  apply Forall_cons in Hc as [Hc Hcs]. simpl in *.
  rewrite <- (arrival_decision w st) by done.
  destruct (decision st id r now e) eqn:Hd; [done|].
  apply IH; [|done]. by eapply undecided_keeps_connection.
Qed.

End Settlement.

(** ** Promises wait until they are settled *)

Section Promises.

Implicit Types (st : State) (r : PendingRec) (id : N) (e : Event).

Lemma keeps_refl st : keeps st st.
Proof. split; [done | by left]. Qed.

Lemma keeps_same st st' :
  promises st' = promises st → settled st' = settled st → keeps st st'.
Proof. intros Hp Hs. split; [by rewrite Hs | intros p x; rewrite Hp; by left]. Qed.

Lemma keeps_trans st1 st2 st3 : keeps st1 st2 → keeps st2 st3 → keeps st1 st3.
Proof.
  intros [Hs1 Hp1] [Hs2 Hp2]. split; [by etrans|].
  intros p x Hx. destruct (Hp1 p x Hx) as [H|H]; [by apply Hp2|].
  right. destruct Hs2 as [k ->]. rewrite fmap_app. apply elem_of_app. by left.
Qed.

Lemma run_cont_promises k o st :
  promises (run_cont k o st) = promises st ∧ settled (run_cont k o st) = settled st.
Proof. by destruct k, o. Qed.

Lemma settle_promise_keeps p o st : keeps st (settle_promise p o st).
Proof.
  pose proof (f_equal d_settled (settle_promise_dispatch p o st)) as Hs. simpl in Hs.
  split; [rewrite Hs; by apply prefix_app_r|].
  intros q x Hq. destruct (decide (q = p)) as [->|Hne].
  - right. rewrite Hs, fmap_app. apply elem_of_app. right. by left.
  - left. unfold settle_promise. simpl.
    destruct (promises st !! p) as [[[k|]|]|]; try done.
    + rewrite (proj1 (run_cont_promises k o _)). simpl.
      by rewrite list_lookup_insert_ne.
    + simpl. by rewrite list_lookup_insert_ne.
Qed.

Lemma pending_reject_keeps r why st : keeps st (pending_reject r why st).
Proof.
  unfold pending_reject. destruct (completion r);
    [apply (settle_promise_keeps _ _ (clearTimeout _ st)) | by apply keeps_same].
Qed.

Lemma pending_resolve_keeps r v st : keeps st (pending_resolve r v st).
Proof.
  unfold pending_resolve. destruct (completion r);
    [apply (settle_promise_keeps _ _ (clearTimeout _ st)) | by apply keeps_same].
Qed.

Lemma reject_all_keeps why l st : keeps st (reject_all why l st).
Proof.
  revert st. induction l as [|[id r] l IH]; intros st; [apply keeps_refl|].
  change (reject_all why ((id, r) :: l) st)
    with (reject_all why l (pending_reject r why st)).
  eapply keeps_trans; [apply pending_reject_keeps | apply IH].
Qed.

Lemma rejectAllPending_keeps reason st : keeps st (rejectAllPending reason st).
Proof.
  destruct (rejectAllPending_reject_all reason st) as [-> | [_ ->]];
    [|apply keeps_refl].
  eapply keeps_trans; [apply (reject_all_keeps (JsError reason) (pendingRef st))|].
  by apply keeps_same.
Qed.

Lemma onclose_keeps ws code reason st : keeps st (onclose ws code reason st).
Proof.
  unfold onclose.
  assert (H : keeps st (if bool_decide (wsRef st = Some ws)
                        then rejectAllPending
                               ("WebSocket closed (code=" +:+ pretty code +:+ ")")
                               (set_wsRef None st)
                        else st)).
  { destruct (bool_decide _); [|apply keeps_refl].
    apply (rejectAllPending_keeps _ (set_wsRef None st)). }
  repeat case_bool_decide; (eapply keeps_trans; [exact H | by apply keeps_same]).
Qed.

Lemma onmessage_keeps ws data st : keeps st (onmessage ws data st).
Proof.
  unfold onmessage. destruct (negb _); [apply keeps_refl|].
  destruct data as [|msg]; [apply keeps_refl|].
  assert (Hn : keeps st match in_method msg with
                        | Some meth =>
                            setSessions
                              (handleNotification (sessionRef st) meth (in_params msg)) st
                        | None => st
                        end).
  { destruct (in_method msg); [by apply keeps_same | apply keeps_refl]. }
  destruct (in_id msg) as [[id|?]|], (in_error msg) as [err|], (in_result msg) as [v|];
    try exact Hn; try apply keeps_refl;
    (destruct (pending_get id (pendingRef st)) as [r|]; [|apply keeps_refl]).
  - apply (pending_reject_keeps _ _ (set_pendingRef _ st)).
  - apply (pending_reject_keeps _ _ (set_pendingRef _ st)).
  - apply (pending_resolve_keeps _ _ (set_pendingRef _ st)).
Qed.

Lemma fire_timer_keeps h now st : keeps st (fire_timer h now st).
Proof.
  unfold fire_timer. destruct (timers st !! h) as [[t|]|]; try apply keeps_refl.
  destruct (callback t); simpl; destruct (pending_has _ _); simpl;
    try (by apply keeps_same).
  apply (settle_promise_keeps _ _ (set_pendingRef _ (clearTimeout h st))).
Qed.

Lemma call_keeps meth params now st : keeps st (call meth params now st).2.
Proof.
  unfold call, nextId, rawSend. simpl. rewrite (socket_open_link st) by done.
  destruct (socket_open st); simpl.
  - split; [done|]. intros p x Hp. left. simpl. rewrite lookup_app_l; [done|].
    by eapply lookup_lt_Some.
  - eapply keeps_trans; [|apply settle_promise_keeps].
    split; [done|]. intros p x Hp. left. simpl. rewrite lookup_app_l; [done|].
    by eapply lookup_lt_Some.
Qed.

Lemma call_await_keeps meth params now k st :
  keeps st (let '(p, st1) := call meth params now st in await p k st1).
Proof.
  rewrite call_await_pair.
  pose proof (call_keeps meth params now st) as [Hs Hp].
  pose proof (f_equal d_settled (await_dispatch (call meth params now st).1 k
                                   (call meth params now st).2)) as Hs'.
  simpl in Hs'. split; [by rewrite Hs'|].
  intros p x Hx. rewrite Hs'. destruct (Hp p x Hx) as [H|H]; [|by right]. left.
  assert (Hne : (call meth params now st).1 ≠ p).
  { rewrite call_promise. apply lookup_lt_Some in Hx. lia. }
  unfold await. destruct (promises _ !! (call meth params now st).1) as [[?|?]|];
    try done.
  - simpl. by rewrite list_lookup_insert_ne.
  - by rewrite (proj1 (run_cont_promises _ _ _)).
Qed.

Lemma close_socket_keeps w st : keeps st (close_socket w st).
Proof.
  unfold close_socket. destruct (sockets st !! w) as [s|]; [|apply keeps_refl].
  destruct (readyState s); by apply keeps_same.
Qed.

Lemma step_keeps now e st : keeps st (step now e st).
Proof.
  destruct e; simpl; try (by apply keeps_same); try apply call_await_keeps.
  - unfold connect. destruct (same_live_socket _ _); [apply keeps_refl|].
    destruct (wsRef st) as [w|]; [|by apply keeps_same].
    eapply keeps_trans; [apply (close_socket_keeps w)|]. by apply keeps_same.
  - unfold disconnect. destruct (wsRef st) as [w|]; [|by apply keeps_same].
    eapply keeps_trans; [apply (close_socket_keeps w)|]. by apply keeps_same.
  - unfold sendMessage. eapply keeps_trans; [|apply call_await_keeps].
    by apply keeps_same.
  - unfold deleteSession. destruct (find _ _) as [s|]; [|by apply keeps_same].
    destruct (nonempty _); [apply call_await_keeps | by apply keeps_same].
  - unfold socket_opened. destruct (sockets st !! ws) as [s|]; [|apply keeps_refl].
    destruct (bool_decide _); [|apply keeps_refl].
    unfold onopen. destruct (negb _); by apply keeps_same.
  - destruct (sockets st !! ws); [apply onmessage_keeps | apply keeps_refl].
  - unfold socket_closed. destruct (sockets st !! ws) as [s|]; [|apply keeps_refl].
    eapply keeps_trans; [|apply onclose_keeps]. by apply keeps_same.
  - apply fire_timer_keeps.
Qed.

Lemma run_keeps tr st : keeps st (run tr st).
Proof.
  revert st. induction tr as [|[now e] tr IH]; intros st; [apply keeps_refl|].
  simpl. eapply keeps_trans; [apply step_keeps | apply IH].
Qed.

(** The promise of a call that is still pending is as it was when the
    continuation was attached. *)
Lemma pending_promise_waits tr st id r h p x :
  Inv st → promises st !! p = Some x →
  (id, r) ∈ pendingRef (run tr st) → completion r = CallCompletion h p →
  promises (run tr st) !! p = Some x.
Proof.
  intros HI Hx Hin Hc. destruct (run_keeps tr st) as [_ Hk].
  destruct (Hk p x Hx) as [H|H]; [done|].
  pose proof (Inv_run tr st HI) as [Hok _].
  destruct (ok_promise _ Hok id r p Hin) as [_ Hno]; [by rewrite Hc | done].
Qed.

(** When a response or the timeout decides a pending call, the step changes
    the session store exactly as the code after the [await] does. *)
Lemma decided_runs_continuation now e st id r h p o k :
  Inv st → (id, r) ∈ pendingRef st → completion r = CallCompletion h p →
  promises st !! p = Some (Waiting (Some k)) →
  decision st id r now e = Some o → is_close e = false →
  sessions (step now e st) = sessions (run_cont k o st).
Proof.
  intros [Hok Hl] Hin Hc Hp Hdec Hnc.
  pose proof (elem_of_pending_get id r _ (ok_nodup _ Hok) Hin) as Hget.
  assert (Hs : ∀ st', promises st' = promises st → sessions st' = sessions st →
                      sessions (settle_promise p o st') = sessions (run_cont k o st)).
  { intros st' Hp' Hs'. unfold settle_promise. simpl. rewrite Hp', Hp.
    destruct k, o; simpl; by rewrite ?Hs'. }
  simpl in Hget. destruct e; simpl in *; try done.
  - destruct data as [|msg]; [done|].
    destruct (bool_decide_reflect (wsRef st = Some ws)) as [Hw|Hw]; [|done].
    destruct (bool_decide_reflect (in_id msg = Some (NumberId id))) as [Hid|Hid];
      [|done]. simpl in Hdec.
    destruct (Hl ws Hw) as [s Hsock]. simpl in Hsock. rewrite Hsock.
    unfold onmessage. rewrite bool_decide_eq_true_2 by done. simpl.
    rewrite Hid, Hget.
    destruct (in_error msg) as [err|]; [|destruct (in_result msg) as [v|]; [|done]];
      injection Hdec as <-.
    + unfold pending_reject. rewrite Hc. by apply Hs.
    + unfold pending_resolve. rewrite Hc. by apply Hs.
  - destruct (bool_decide_reflect (h0 = timer_of (completion r))) as [->|]; [|done].
    injection Hdec as <-.
    pose proof (ok_armed _ Hok _ _ Hin) as Ha. simpl in Ha.
    unfold fire_timer. rewrite Ha. unfold guard_timer. rewrite Hc. simpl.
    rewrite (pending_has_true id r) by (done || apply (ok_nodup _ Hok)). simpl.
    by apply Hs.
Qed.

Lemma call_await_Inv meth params now k st :
  Inv st → Inv (await (call meth params now st).1 k (call meth params now st).2).
Proof.
  intros [Hok Hl]. rewrite <- call_await_pair. split.
  - eapply dstep_ok; [by apply call_await_dstep | done].
  - by rewrite call_await_link.
Qed.

(** A call that was sent and awaited: as long as nothing has decided it, it
    waits with its continuation; when a response or its timeout decides it,
    the step changes the session store exactly as the continuation does. *)
Lemma awaited_call_continues meth params now k st tr now' e o :
  Inv st → socket_open st ≠ None →
  let st1 := await (length (promises st)) k (call meth params now st).2 in
  let id := msgIdCounter st in
  let r := mkPendingRec meth now
             (CallCompletion (length (timers st)) (length (promises st))) in
  first_decision st1 id r tr = None →
  decision (run tr st1) id r now' e = Some o → is_close e = false →
  sessions (step now' e (run tr st1)) = sessions (run_cont k o (run tr st1)).
Proof.
  intros HI Ho st1 id r Hnone Hdec Hnc.
  assert (Hst1 : st1 = await (call meth params now st).1 k (call meth params now st).2)
    by (unfold st1; by rewrite call_promise).
  pose proof (call_await_Inv meth params now k st HI) as HI1. rewrite <- Hst1 in HI1.
  destruct (socket_open st) as [w|] eqn:E; [clear Ho|done].
  assert (Hin : (id, r) ∈ pendingRef st1).
  { pose proof (f_equal d_pending (await_dispatch (length (promises st)) k
                                     (call meth params now st).2)) as H1.
    pose proof (f_equal d_pending (call_open_dispatch meth params now st w
                                     (proj1 HI) E)) as H2.
    simpl in H1, H2. unfold st1. rewrite H1, H2. apply elem_of_app. right. by left. }
  assert (Hp : promises st1 !! length (promises st) = Some (Waiting (Some k))).
  { rewrite Hst1, call_await_cases, E. simpl. rewrite call_promise.
    apply list_lookup_insert_eq.
    eapply lookup_lt_Some. apply (proj2 (call_sessions meth params now st)). }
  pose proof (first_decision_settles tr st1 id r _ _ HI1 Hin eq_refl) as Hf.
  rewrite Hnone in Hf. destruct Hf as [_ Hin'].
  eapply decided_runs_continuation; try done.
  - by apply Inv_run.
  - by eapply pending_promise_waits.
Qed.

End Promises.

(** ** C1: exactly-once settlement *)

(** C1, as stated, fails.  The call [thread/start] (id 2, promise 0) is sent
    on socket 0; [connect] replaces that socket, and then it closes.  Of the
    events that concern the call the loss of its connection arrives first,
    yet the call is not settled by it: it stays pending, and is settled later
    by its timeout. *)
Lemma C1_connection_loss_does_not_settle :
  let st := run c1_before initial in
  (2%N, c1_record) ∈ pendingRef st
  ∧ (0, mkRequest 2 "thread/start" (ThreadStartParams "/tmp" mode_default)) ∈ outbox st
  ∧ first_arrival 0 2 c1_record c1_replaced
    = Some (Rejected (JsError ("WebSocket closed (code=" +:+ pretty 1006%Z +:+ ")")))
  ∧ outcomes 0 (run (take 2 c1_replaced) st) = []
  ∧ (2%N, c1_record) ∈ pendingRef (run (take 2 c1_replaced) st)
  ∧ outcomes 0 (run c1_replaced st) = [Rejected (timeout_error "thread/start" 30000)].
Proof.
  cbv zeta. split; [vm_compute; right; left|]. split; [vm_compute; right; left|].
  split; [by vm_compute|]. split; [by vm_compute|].
  split; [vm_compute; right; left | by vm_compute].
Qed.

(** C1 (amended).  In every state the hook can reach, whatever events
    follow — calls, responses, timer firings, closures, [connect], in any
    order — no promise of a call is settled more than once.  A call that is
    pending (its timer is then armed) is settled by the first event that
    decides it, with exactly that outcome, and no later event settles it
    again; until such an event arrives it stays pending, unsettled.  The
    events that decide it ([decision]) are: a response bearing its id
    received on the socket in use at that moment, which resolves it or
    rejects it with the error payload; its timeout, which rejects it; the
    close event of the socket in use at that moment, which rejects it.  What
    a socket that has been replaced delivers decides nothing.  In a run in
    which [connect] is not called the socket in use stays the same, and the
    outcome is read off the events in their order of arrival
    ([first_arrival]).  A call is registered as pending only when it is
    sent; otherwise it is rejected at once, once. *)
Theorem C1_call_settles_exactly_once (tr0 tr : list (Z * Event)) :
  let st := run tr0 initial in
  (∀ p, (length (outcomes p (run tr st)) ≤ 1)%nat)
  ∧ (∀ id r h p,
       (id, r) ∈ pendingRef st → completion r = CallCompletion h p →
       timers st !! h = Some (Some (guard_timer id r))
       ∧ match first_decision st id r tr with
         | Some o => outcomes p (run tr st) = [o]
         | None => outcomes p (run tr st) = [] ∧ (id, r) ∈ pendingRef (run tr st)
         end
       ∧ ∀ w, wsRef st = Some w → Forall (λ ne, is_connect ne.2 = false) tr →
              match first_arrival w id r tr with
              | Some o => outcomes p (run tr st) = [o]
              | None => outcomes p (run tr st) = []
                        ∧ (id, r) ∈ pendingRef (run tr st)
              end)
  ∧ (∀ meth params now,
       let p := (call meth params now st).1 in
       let st1 := (call meth params now st).2 in
       match socket_open st with
       | Some _ =>
           pendingRef st1
           = pendingRef st
             ++ [(msgIdCounter st,
                  mkPendingRec meth now (CallCompletion (length (timers st)) p))]
           ∧ outcomes p st1 = []
       | None =>
           pendingRef st1 = pendingRef st
           ∧ outcomes p st1
             = [Rejected (JsError ("call(" +:+ meth +:+ "): socket not open, cannot send"))]
       end).
Proof.
  simpl. pose proof (reachable_Inv tr0) as HI. split; [|split].
  - intros p. apply outcomes_at_most_once.
    apply (ok_settled_nodup _ (proj1 (Inv_run tr _ HI))).
  - intros id r h p Hin Hc. split; [|split].
    + pose proof (ok_armed _ (proj1 HI) _ _ Hin) as Ha. simpl in Ha. by rewrite Hc in Ha.
    + by eapply first_decision_settles.
    + intros w Hw Hnc. rewrite <- (first_arrival_decision w tr _ id r Hw Hnc).
      by eapply first_decision_settles.
  - intros meth params now. destruct HI as [Hok Hl].
    assert (Hp : (call meth params now (run tr0 initial)).1
                 = length (promises (run tr0 initial))).
    { unfold call, nextId, rawSend. simpl. by destruct (socket_open _). }
    destruct (socket_open (run tr0 initial)) as [w|] eqn:E.
    + pose proof (call_open_dispatch meth params now _ w Hok E) as H.
      split.
      * apply (f_equal d_pending) in H. simpl in H. by rewrite H, Hp.
      * apply outcomes_fresh. apply (f_equal d_settled) in H. simpl in H.
        rewrite H, Hp. intros Hin. apply (ok_settled _ Hok) in Hin. simpl in Hin. lia.
    + pose proof (call_closed_dispatch meth params now _ E) as H. split.
      * apply (f_equal d_pending) in H. simpl in H. by rewrite H.
      * apply outcomes_unique.
        -- pose proof (dispatch_ok_fail
             (Rejected (JsError ("call(" +:+ meth +:+ "): socket not open, cannot send")))
             _ Hok) as Hok'.
           rewrite <- H in Hok'. apply (ok_settled_nodup _ Hok').
        -- apply (f_equal d_settled) in H. simpl in H. rewrite H, Hp.
           apply elem_of_app. right. by left.
Qed.

Lemma C1_call_settles_exactly_once_witness :
  (2%N, c1_record) ∈ pendingRef (run c1_before initial)
  ∧ wsRef (run c1_before initial) = Some 0
  ∧ first_arrival 0 2 c1_record c1_after
    = Some (Rejected (timeout_error "thread/start" 30000))
  ∧ outcomes 0 (run c1_after (run c1_before initial))
    = [Rejected (timeout_error "thread/start" 30000)].
Proof.
  assert (Hin : (2%N, c1_record) ∈ pendingRef (run c1_before initial)).
  { vm_compute. right. left. }
  split; [exact Hin|]. split; [by vm_compute|]. split; [by vm_compute|].
  assert (Hnc : Forall (λ ne : Z * Event, is_connect ne.2 = false) c1_after).
  { repeat constructor. }
  pose proof (proj2 (proj2 (proj1 (proj2
                (C1_call_settles_exactly_once c1_before c1_after))
                2%N c1_record 1 0 Hin eq_refl)) 0 eq_refl Hnc) as H.
  exact H.
Defined.

(** ** C5: correlation ids, and responses nobody waits for *)

(** C5.  [nextId] hands out the counter and moves it up by one, and no event
    ever moves it down; so, in every state the hook can reach, the ids of the
    frames sent ([initialize] included) are strictly increasing in the order
    they were sent, all below the counter, and the keys of the pending table
    are below the counter and pairwise distinct: an id is never used twice.
    A response whose id has no record in the pending table (or is not a
    number at all) leaves the whole state as it is, the pending table and
    the sessions included. *)
Theorem C5_fresh_ids_and_stray_responses (tr : list (Z * Event)) :
  let st := run tr initial in
  ((nextId st).1 = msgIdCounter st
   ∧ msgIdCounter (nextId st).2 = (msgIdCounter st + 1)%N)
  ∧ (∀ now e, (msgIdCounter st ≤ msgIdCounter (step now e st))%N)
  ∧ StronglySorted N.lt (req_id <$> (outbox st).*2)
  ∧ Forall (λ x, (req_id x.2 < msgIdCounter st)%N) (outbox st)
  ∧ (∀ id r, (id, r) ∈ pendingRef st → (id < msgIdCounter st)%N)
  ∧ NoDup (pendingRef st).*1
  ∧ (∀ now ws msg idf,
       in_id msg = Some idf →
       is_Some (in_result msg) ∨ is_Some (in_error msg) →
       (∀ id, idf = NumberId id → pending_get id (pendingRef st) = None) →
       step now (EMessage ws (Parsed msg)) st = st).
Proof.
  simpl. pose proof (reachable_Inv tr) as HI. destruct HI as [Hok Hl].
  split; [done|]. split.
  { intros now e. apply (dstep_counter _ _ (step_dstep now e _ (conj Hok Hl))). }
  split; [apply (ok_outbox _ Hok)|]. split; [apply (ok_outbox_lt _ Hok)|].
  split; [apply (ok_keys _ Hok)|]. split; [apply (ok_nodup _ Hok)|].
  intros now ws msg idf Hid Hres Hnone. simpl.
  destruct (sockets _ !! ws); [|done]. unfold onmessage.
  destruct (negb _); [done|]. rewrite Hid.
  destruct idf as [id|json].
  - rewrite (Hnone id eq_refl).
    destruct (in_error msg), (in_result msg); try done.
    destruct Hres as [[? [=]]|[? [=]]].
  - destruct (in_error msg), (in_result msg); try done.
    destruct Hres as [[? [=]]|[? [=]]].
Qed.

(** ** C7: a call on a transport that is not open *)

Lemma socket_not_open st :
  (∀ w s, wsRef st = Some w → sockets st !! w = Some s → readyState s ≠ OPEN) →
  socket_open st = None.
Proof.
  intros H. unfold socket_open. destruct (wsRef st) as [w|]; [|done].
  destruct (sockets st !! w) as [s|] eqn:E; [|done].
  by rewrite bool_decide_eq_false_2 by by eapply H.
Qed.

(** C7.  When no socket is in use, or the socket in use is not open, [call]
    takes an id, rejects its promise at once, and does nothing else: the
    pending table, the timers, the frames sent and the session store (and the
    connection and its status) are unchanged; the promise is settled,
    rejected, exactly once. *)
Theorem C7_call_on_closed_transport (st : State) (meth : string)
    (params : CallParams) (now : Z) :
  (∀ w s, wsRef st = Some w → sockets st !! w = Some s → readyState s ≠ OPEN) →
  let p := (call meth params now st).1 in
  let st1 := (call meth params now st).2 in
  let e := JsError ("call(" +:+ meth +:+ "): socket not open, cannot send") in
  st1 = set_settled (settled st ++ [(p, Rejected e)])
          (set_promises (promises st ++ [Settled (Rejected e)])
             (set_msgIdCounter (msgIdCounter st + 1) st))
  ∧ pendingRef st1 = pendingRef st
  ∧ timers st1 = timers st
  ∧ outbox st1 = outbox st
  ∧ sessions st1 = sessions st
  ∧ sessionRef st1 = sessionRef st
  ∧ promises st1 !! p = Some (Settled (Rejected e)).
Proof.
  intros Hc. apply socket_not_open in Hc. simpl.
  assert (H : (call meth params now st).2
              = set_settled (settled st ++
                  [((call meth params now st).1,
                    Rejected (JsError ("call(" +:+ meth +:+ "): socket not open, cannot send")))])
                  (set_promises (promises st ++
                     [Settled (Rejected (JsError ("call(" +:+ meth
                                                  +:+ "): socket not open, cannot send")))])
                     (set_msgIdCounter (msgIdCounter st + 1) st))).
  { unfold call, nextId, rawSend. simpl.
    rewrite (socket_open_link st) by done. rewrite Hc. simpl.
    unfold settle_promise. simpl. rewrite list_lookup_middle by done.
    rewrite insert_app_r_alt, Nat.sub_diag by done. done. }
  split; [exact H|]. rewrite H. simpl. repeat split.
  assert (Hp : (call meth params now st).1 = length (promises st)).
  { unfold call, nextId, rawSend. simpl. by destruct (socket_open _). }
  rewrite Hp. by apply list_lookup_middle.
Qed.

Lemma C7_call_on_closed_transport_witness :
  let st := run [(0%Z, EConnect "ws://host")] initial in
  let p := (call "turn/start" (TurnStartParams "t1" "hi" None) 1 st).1 in
  let st1 := (call "turn/start" (TurnStartParams "t1" "hi" None) 1 st).2 in
  let e := JsError ("call(" +:+ "turn/start" +:+ "): socket not open, cannot send") in
  st1 = set_settled (settled st ++ [(p, Rejected e)])
          (set_promises (promises st ++ [Settled (Rejected e)])
             (set_msgIdCounter (msgIdCounter st + 1) st))
  ∧ pendingRef st1 = pendingRef st
  ∧ timers st1 = timers st
  ∧ outbox st1 = outbox st
  ∧ sessions st1 = sessions st
  ∧ sessionRef st1 = sessionRef st
  ∧ promises st1 !! p = Some (Settled (Rejected e)).
Proof.
  apply (C7_call_on_closed_transport
           (run [(0%Z, EConnect "ws://host")] initial)
           "turn/start" (TurnStartParams "t1" "hi" None) 1).
  intros w s. vm_compute. intros [= <-] [= <-]. discriminate.
Defined.

(** ** C2: the two timeouts *)

(** C2, as stated, fails: after a handshake and a call, the timer armed for
    the handshake has the shorter delay. *)
Lemma C2_handshake_timeout_not_longer :
  let st := run c1_before initial in
  ∃ t_init t_call,
    timers st !! 0 = Some (Some t_init) ∧ callback t_init = InitTimeout 1
    ∧ timers st !! 1 = Some (Some t_call)
    ∧ callback t_call = CallTimeout 2 "thread/start" 3 0
    ∧ ¬ (delay t_call < delay t_init)%Z.
Proof.
  simpl. eexists _, _. split; [by vm_compute|]. split; [done|].
  split; [by vm_compute|]. split; [done|]. simpl. unfold CALL_TIMEOUT_MS, INIT_TIMEOUT_MS.
  lia.
Qed.

(** C2 (amended).  In every state the hook can reach, a timer armed for the
    handshake has the fixed delay [INIT_TIMEOUT_MS] (10 s) and a timer armed
    for an ordinary call the fixed delay [CALL_TIMEOUT_MS] (30 s): the
    handshake timeout is strictly shorter than the timeout of every call. *)
Theorem C2_handshake_timeout_shorter (tr : list (Z * Event)) (h h' : nat)
    (t t' : Timer) (id id' : N) (meth : string) (started : Z) (p : nat) :
  let st := run tr initial in
  timers st !! h = Some (Some t) → callback t = InitTimeout id →
  timers st !! h' = Some (Some t') → callback t' = CallTimeout id' meth started p →
  delay t = 10000%Z ∧ delay t' = 30000%Z ∧ (delay t < delay t')%Z.
Proof.
  simpl. intros Ht Hcb Ht' Hcb'.
  pose proof (proj1 (reachable_Inv tr)) as Hok.
  assert (Hg : ∀ h t, timers (run tr initial) !! h = Some (Some t) →
                      ∃ id r, t = guard_timer id r).
  { intros h0 t0 H0. destruct (ok_timer _ Hok h0 t0 H0) as (r & Hin & Hr).
    pose proof (ok_armed _ Hok _ _ Hin) as Ha. simpl in Ha, H0.
    rewrite Hr, H0 in Ha. injection Ha as Ha. eauto. }
  destruct (Hg _ _ Ht) as (i & r & ->). destruct (Hg _ _ Ht') as (i' & r' & ->).
  unfold guard_timer in *.
  destruct (completion r); [done|]. destruct (completion r'); [|done].
  simpl. unfold INIT_TIMEOUT_MS, CALL_TIMEOUT_MS. lia.
Qed.

Lemma C2_handshake_timeout_shorter_witness :
  delay (mkTimer INIT_TIMEOUT_MS (InitTimeout 1)) = 10000%Z
  ∧ delay (mkTimer CALL_TIMEOUT_MS (CallTimeout 2 "thread/start" 3 0)) = 30000%Z
  ∧ (delay (mkTimer INIT_TIMEOUT_MS (InitTimeout 1))
     < delay (mkTimer CALL_TIMEOUT_MS (CallTimeout 2 "thread/start" 3 0)))%Z.
Proof.
  apply (C2_handshake_timeout_shorter c1_before 0 1
           (mkTimer INIT_TIMEOUT_MS (InitTimeout 1))
           (mkTimer CALL_TIMEOUT_MS (CallTimeout 2 "thread/start" 3 0))
           1 2 "thread/start" 3 0); by vm_compute.
Defined.

(** ** C3: a connection is replaced *)

(** C3, as stated, fails: a call pending on the old connection is still
    pending, unsettled, when the new connection is open and in use. *)
Lemma C3_pending_survives_reconnect :
  let st := run c3_reconnect initial in
  socket_open st = Some 1
  ∧ sockets st !! 0 = Some (mkWebSocket "ws://host" CLOSED)
  ∧ (2%N, c1_record) ∈ pendingRef st
  ∧ outcomes 0 st = [].
Proof.
  cbv zeta. split; [by vm_compute|]. split; [by vm_compute|]. split; [|by vm_compute].
  vm_compute. right. left.
Qed.

Lemma close_socket_length w st :
  length (sockets (close_socket w st)) = length (sockets st).
Proof.
  unfold close_socket. destruct (sockets st !! w) as [s|]; [|done].
  destruct (readyState s); simpl; by rewrite ?length_insert.
Qed.

(** C3 (amended).  [connect] rejects nothing: it leaves the pending table,
    the timers and the history of settlements as they are.  When it opens a
    new socket it closes the one it replaces — that socket is closing, or
    closed if it was already — and the new socket, connecting, is the one in
    use; the other sockets are as they were.  The dispatcher ignores
    whatever a socket that is not in use delivers later, its close event
    included.  So a call pending on the replaced connection stays pending
    and unsettled, and whatever events follow it is settled by the first
    that decides it: its own timeout, which rejects it; the close event of
    the socket then in use, which rejects it; or a response bearing its id
    on the socket then in use — the pending table is shared with the new
    connection — which resolves it or rejects it with the error payload. *)
Theorem C3_reconnect_keeps_pending (tr0 : list (Z * Event)) (serverUrl : string)
    (now : Z) :
  let st := run tr0 initial in
  let st' := step now (EConnect serverUrl) st in
  dispatch st' = dispatch st
  ∧ (same_live_socket serverUrl st = false →
     wsRef st' = Some (length (sockets st))
     ∧ (∀ w, wsRef st = Some w → wsRef st' ≠ Some w)
     ∧ sockets st' !! length (sockets st) = Some (mkWebSocket serverUrl CONNECTING)
     ∧ length (sockets st') = S (length (sockets st))
     ∧ (∀ w s, wsRef st = Some w → sockets st !! w = Some s →
          sockets st' !! w
          = Some (mkWebSocket (ws_url s)
                    (match readyState s with CLOSED => CLOSED | _ => CLOSING end))
          ∧ socket_open st' = None)
     ∧ (∀ w, wsRef st ≠ Some w → w < length (sockets st) →
          sockets st' !! w = sockets st !! w))
  ∧ (∀ ws now', wsRef st' ≠ Some ws →
     (∀ code reason, dispatch (step now' (EClose ws code reason) st') = dispatch st')
     ∧ (∀ data, dispatch (step now' (EMessage ws data) st') = dispatch st'))
  ∧ (∀ id r h p,
       (id, r) ∈ pendingRef st → completion r = CallCompletion h p →
       (id, r) ∈ pendingRef st'
       ∧ outcomes p st' = []
       ∧ (∀ now', outcomes p (step now' (ETimer h) st')
                  = [Rejected (timeout_error (method r) (now' - startedAt r))])
       ∧ (∀ now' ws code reason, wsRef st' = Some ws →
            outcomes p (step now' (EClose ws code reason) st')
            = [Rejected (JsError ("WebSocket closed (code=" +:+ pretty code +:+ ")"))])
       ∧ (∀ now' ws msg, wsRef st' = Some ws → in_id msg = Some (NumberId id) →
            outcomes p (step now' (EMessage ws (Parsed msg)) st')
            = match in_error msg, in_result msg with
              | Some err, _ => [Rejected (ErrorPayload err)]
              | None, Some v => [Resolved v]
              | None, None => []
              end)
       ∧ (∀ tr, match first_decision st' id r tr with
                | Some o => outcomes p (run tr st') = [o]
                | None => outcomes p (run tr st') = []
                          ∧ (id, r) ∈ pendingRef (run tr st')
                end)).
Proof.
  simpl. pose proof (reachable_Inv tr0) as HI.
  pose proof (Inv_step now (EConnect serverUrl) _ HI) as HI'. simpl in HI'.
  set (st := run tr0 initial) in *.
  split; [apply connect_dispatch|]. split; [|split].
  - intros Hs. unfold connect. rewrite Hs.
    assert (Hlen : ∀ w, wsRef st = Some w → w < length (sockets st)).
    { intros w Hw. apply lookup_lt_is_Some. by apply (proj2 HI w). }
    destruct (wsRef st) as [w|] eqn:Hw; simpl.
    + rewrite close_socket_length. split; [done|]. split.
      { intros w' [= <-] [= Heq]. specialize (Hlen w eq_refl). lia. }
      split.
      { rewrite lookup_app_r by (by rewrite close_socket_length).
        by rewrite close_socket_length, Nat.sub_diag. }
      split.
      { rewrite length_app, close_socket_length. simpl. lia. }
      specialize (Hlen w eq_refl). split.
      * intros w' s [= <-] Hsw.
        assert (Hold : sockets (close_socket w st) !! w
                       = Some (mkWebSocket (ws_url s)
                                 (match readyState s with
                                  | CLOSED => CLOSED | _ => CLOSING end))).
        { unfold close_socket. rewrite Hsw.
          destruct s as [u []]; simpl; try done;
            by rewrite list_lookup_insert_eq. }
        split.
        -- rewrite lookup_app_l by (by rewrite close_socket_length). exact Hold.
        -- unfold socket_open. simpl.
           rewrite lookup_app_r by (by rewrite close_socket_length).
           by rewrite close_socket_length, Nat.sub_diag.
      * intros w' Hne Hlt.
        rewrite lookup_app_l by (by rewrite close_socket_length).
        unfold close_socket. destruct (sockets st !! w) as [s|]; [|done].
        assert (w ≠ w') by (intros ->; by apply Hne).
        destruct (readyState s); simpl; try done;
          by rewrite list_lookup_insert_ne.
    + split; [done|]. split; [by intros w' [=]|]. split.
      { rewrite lookup_app_r by done. by rewrite Nat.sub_diag. }
      split; [rewrite length_app; simpl; lia|]. split; [by intros w' s [=]|].
      intros w' _ Hlt. by rewrite lookup_app_l.
  - intros ws now' Hstale. split.
    + intros code reason. simpl. unfold socket_closed.
      destruct (sockets _ !! ws) as [s|]; [|done]. unfold onclose.
      rewrite (bool_decide_eq_false_2 (wsRef (set_sockets _ (connect serverUrl st)) = Some ws))
        by exact Hstale.
      by repeat case_bool_decide.
    + intros data. simpl. destruct (sockets _ !! ws) as [s|]; [|done].
      unfold onmessage. by rewrite bool_decide_eq_false_2 by done.
  - intros id r h p Hin Hc.
    assert (Hin' : (id, r) ∈ pendingRef (connect serverUrl st)).
    { pose proof (f_equal d_pending (connect_dispatch serverUrl st)) as H.
      simpl in H. by rewrite H. }
    split; [done|].
    pose proof (first_decision_settles [] _ id r h p HI' Hin' Hc) as [H0 _].
    split; [exact H0|]. split; [|split; [|split]].
    + intros now'.
      pose proof (first_decision_settles [(now', ETimer h)] _ id r h p HI' Hin' Hc) as H1.
      simpl in H1. rewrite Hc in H1. simpl in H1.
      by rewrite bool_decide_eq_true_2 in H1 by done.
    + intros now' ws code reason Hws.
      pose proof (first_decision_settles [(now', EClose ws code reason)] _ id r h p
                    HI' Hin' Hc) as H1.
      cbn [first_decision decision] in H1.
      by rewrite bool_decide_eq_true_2 in H1 by done.
    + intros now' ws msg Hws Hid.
      pose proof (first_decision_settles [(now', EMessage ws (Parsed msg))] _ id r h p
                    HI' Hin' Hc) as H1.
      cbn [first_decision decision] in H1.
      rewrite (bool_decide_eq_true_2 _ Hws), (bool_decide_eq_true_2 _ Hid) in H1.
      simpl in H1.
      destruct (in_error msg) as [err|], (in_result msg) as [v|]; try exact H1.
      exact (proj1 H1).
    + intros tr. apply (first_decision_settles tr _ id r h p HI' Hin' Hc).
Qed.

Lemma C3_reconnect_keeps_pending_witness :
  let st := run c1_before initial in
  let st' := step 4 (EConnect "ws://other") st in
  sockets st' !! 0 = Some (mkWebSocket "ws://host" CLOSING)
  ∧ sockets st' !! 1 = Some (mkWebSocket "ws://other" CONNECTING)
  ∧ (2%N, c1_record) ∈ pendingRef st'
  ∧ outcomes 0 st' = []
  ∧ (∀ now', outcomes 0 (step now' (ETimer 1) st')
             = [Rejected (timeout_error "thread/start" (now' - 3))])
  ∧ outcomes 0 (step 7 (EMessage 1 (result_response 2 (mkResult "t1" 9 ""))) st')
    = [Resolved (mkResult "t1" 9 "")].
Proof.
  cbv zeta.
  assert (Hin : (2%N, c1_record) ∈ pendingRef (run c1_before initial)).
  { vm_compute. right. left. }
  assert (Hs : same_live_socket "ws://other" (run c1_before initial) = false)
    by (vm_compute; reflexivity).
  assert (Hw : wsRef (run c1_before initial) = Some 0) by (vm_compute; reflexivity).
  assert (H0 : sockets (run c1_before initial) !! 0 = Some (mkWebSocket "ws://host" OPEN))
    by (vm_compute; reflexivity).
  pose proof (C3_reconnect_keeps_pending c1_before "ws://other" 4) as H.
  cbv zeta in H. destruct H as (_ & HS & _ & HP).
  destruct (HS Hs) as (Hw' & _ & Hnew & _ & Hold & _).
  destruct (HP 2%N c1_record 1 0 Hin eq_refl) as (H1 & H2 & H3 & _ & H5 & _).
  split; [exact (proj1 (Hold 0 _ Hw H0))|].
  split.
  { assert (Hl : length (sockets (run c1_before initial)) = 1) by (vm_compute; reflexivity).
    rewrite Hl in Hnew. exact Hnew. }
  split; [exact H1|]. split; [exact H2|]. split; [exact H3|].
  assert (Hw1 : wsRef (step 4 (EConnect "ws://other") (run c1_before initial)) = Some 1).
  { assert (Hl : length (sockets (run c1_before initial)) = 1) by (vm_compute; reflexivity).
    rewrite Hl in Hw'. exact Hw'. }
  exact (H5 7%Z 1 (mkInbound (Some (NumberId 2)) (Some (mkResult "t1" 9 "")) None None
                      c10_params) Hw1 eq_refl).
Defined.

(** ** C8 and C9: the session operations around a call *)

Lemma on_thread_updateSession tid (R : Session → Session → Prop) f l :
  (∀ s, R s (f s)) → on_thread tid R l (updateSession tid f l).
Proof.
  intros H. unfold on_thread, updateSession.
  induction l as [|s l IH]; simpl; constructor; [|done].
  by case_bool_decide.
Qed.

(** C8.  [sendMessage] first updates the session store — on the sessions of
    the target thread it appends the user message, records the content as
    [lastBlockedContent] and clears the denial flags, and it changes nothing
    else — and then issues [turn/start] from the updated state.  Whether the
    frame is sent or the call fails at once, the store afterwards is the
    updated one; and when the call fails later (error response, timeout,
    closure) settling its promise leaves the store as it is, because the code
    after the [await] writes nothing: nothing is rolled back. *)
Theorem C8_send_message_no_rollback (st : State) (tid text : string)
    (model : option string) (now : Z) :
  let updated :=
    setSessions (map (λ s, if bool_decide (thread_id s ≠ tid) then s
                           else append_user_message now text s)) st in
  let p := (call "turn/start" (TurnStartParams tid text model) now updated).1 in
  let st1 := sendMessage tid text model now st in
  st1 = await p AfterTurnStart
          (call "turn/start" (TurnStartParams tid text model) now updated).2
  ∧ on_thread tid (sent_message now text) (sessions st) (sessions updated)
  ∧ sessions st1 = sessions updated
  ∧ (socket_open st ≠ None → promises st1 !! p = Some (Waiting (Some AfterTurnStart)))
  ∧ (∀ st2 o, promises st2 !! p = Some (Waiting (Some AfterTurnStart)) →
              sessions (settle_promise p o st2) = sessions st2)
  ∧ (∀ st2 o, run_cont AfterTurnStart o st2 = st2)
  ∧ (∀ tr0 tr now' e o,
       st = run tr0 initial → socket_open st ≠ None →
       let id := msgIdCounter st in
       let r := mkPendingRec "turn/start" now
                  (CallCompletion (length (timers st)) p) in
       first_decision st1 id r tr = None →
       decision (run tr st1) id r now' e = Some o → is_close e = false →
       sessions (step now' e (run tr st1)) = sessions (run tr st1)).
Proof.
  cbv zeta. set (updated := setSessions _ st).
  assert (H1 : sendMessage tid text model now st
               = await (call "turn/start" (TurnStartParams tid text model) now updated).1
                   AfterTurnStart
                   (call "turn/start" (TurnStartParams tid text model) now updated).2).
  { unfold sendMessage. fold updated. apply call_await_pair. }
  destruct (call_sessions "turn/start" (TurnStartParams tid text model) now updated)
    as [Hs Hp]. change (socket_open updated) with (socket_open st) in Hp.
  split; [exact H1|]. split; [|split; [|split; [|split; [|split]]]].
  - unfold updated, on_thread. simpl.
    induction (sessions st) as [|s l IH]; simpl; constructor; [|done].
    destruct (bool_decide_reflect (thread_id s = tid)) as [E|E].
    + rewrite bool_decide_eq_false_2 by (intros H; by apply H).
      by repeat split.
    + by rewrite bool_decide_eq_true_2.
  - rewrite H1, call_await_cases.
    change (socket_open updated) with (socket_open st).
    by destruct (socket_open st).
  - intros Ho. rewrite H1, call_await_cases.
    change (socket_open updated) with (socket_open st).
    destruct (socket_open st); [|done]. simpl.
    apply list_lookup_insert_eq. rewrite call_promise. by eapply lookup_lt_Some.
  - intros st2 o Hp2. unfold settle_promise. simpl. by rewrite Hp2.
  - done.
  - intros tr0 tr now' e o -> Ho Hnone Hdec Hnc.
    assert (HI : Inv updated).
    { destruct (reachable_Inv tr0) as [Hok Hl]. by split. }
    rewrite H1, call_promise in *.
    by rewrite (awaited_call_continues "turn/start" (TurnStartParams tid text model)
                  now AfterTurnStart updated tr now' e o HI Ho Hnone Hdec Hnc).
Qed.

(** C9.  [approvePermission] awaits [approval/respond] and then, whatever the
    outcome, updates the sessions of the thread: [permission_mode] is set
    (to the mode given, or [acceptEdits]), [hasPermissionDenial] and the
    denial list are cleared, and no other field changes — [lastBlockedContent],
    the messages and [thread_id] in particular — nor any other session.  If
    the call cannot be sent the update is made at once; if it is sent, the
    store is untouched until the promise is settled, and settling it, resolved
    or rejected, makes the update.  In a run of the hook: if the frame was
    sent and no event has decided the call yet, the response (result or
    error) or the timeout that decides it makes the update in that step. *)
Theorem C9_approve_updates_whatever_the_outcome (st : State) (tid : string)
    (mode : option PermissionMode) (now : Z) :
  let p := (call "approval/respond" (ApprovalParams tid true mode) now st).1 in
  let st1 := approvePermission tid mode now st in
  match socket_open st with
  | None => on_thread tid (approved mode) (sessions st) (sessions st1)
  | Some _ => sessions st1 = sessions st
              ∧ promises st1 !! p = Some (Waiting (Some (AfterApprove tid mode)))
  end
  ∧ (∀ st2 o, promises st2 !! p = Some (Waiting (Some (AfterApprove tid mode))) →
              on_thread tid (approved mode) (sessions st2)
                (sessions (settle_promise p o st2)))
  ∧ (∀ st2 o, on_thread tid (approved mode) (sessions st2)
                (sessions (run_cont (AfterApprove tid mode) o st2)))
  ∧ (∀ tr0 tr now' e o,
       st = run tr0 initial → socket_open st ≠ None →
       let id := msgIdCounter st in
       let r := mkPendingRec "approval/respond" now
                  (CallCompletion (length (timers st)) p) in
       first_decision st1 id r tr = None →
       decision (run tr st1) id r now' e = Some o → is_close e = false →
       on_thread tid (approved mode) (sessions (run tr st1))
         (sessions (step now' e (run tr st1)))).
Proof.
  cbv zeta.
  assert (Hk : ∀ st2 o, on_thread tid (approved mode) (sessions st2)
                          (sessions (run_cont (AfterApprove tid mode) o st2))).
  { intros st2 o. simpl. apply on_thread_updateSession. intros s. by repeat split. }
  destruct (call_sessions "approval/respond" (ApprovalParams tid true mode) now st)
    as [Hs Hp].
  split; [|split; [|split; [exact Hk|]]].
  - unfold approvePermission. rewrite call_await_pair, call_await_cases.
    destruct (socket_open st).
    + split; [done|]. simpl. apply list_lookup_insert_eq.
      rewrite call_promise. by eapply lookup_lt_Some.
    + rewrite <- Hs. apply Hk.
  - intros st2 o Hp2. unfold settle_promise. simpl. rewrite Hp2.
    apply (Hk (set_promises _ (set_settled _ st2)) o).
  - intros tr0 tr now' e o -> Ho Hnone Hdec Hnc.
    unfold approvePermission in *. rewrite call_await_pair, call_promise in *.
    rewrite (awaited_call_continues "approval/respond" (ApprovalParams tid true mode)
               now (AfterApprove tid mode) _ tr now' e o (reachable_Inv tr0)
               Ho Hnone Hdec Hnc).
    apply Hk.
Qed.

(** ** The operations at work: examples *)

Lemma C5_fresh_ids_and_stray_responses_witness :
  req_id <$> (outbox (run c3_reconnect initial)).*2 = [1; 2; 3]%N
  ∧ step 9 (EMessage 1 (error_response 7 "late")) (run c3_reconnect initial)
    = run c3_reconnect initial.
Proof.
  split; [by vm_compute|].
  apply (proj2 (proj2 (proj2 (proj2 (proj2 (proj2
           (C5_fresh_ids_and_stray_responses c3_reconnect)))))) 9%Z 1
           (mkInbound (Some (NumberId 7)) None (Some "late") None c10_params)
           (NumberId 7) eq_refl).
  - right. by eexists.
  - intros id [= <-]. by vm_compute.
Defined.

Lemma C8_send_message_no_rollback_witness :
  let st := run c9_trace initial in
  let updated :=
    setSessions (map (λ s, if bool_decide (thread_id s ≠ "t1") then s
                           else append_user_message 9 "again" s)) st in
  let st1 := sendMessage "t1" "again" None 9 st in
  on_thread "t1" (sent_message 9 "again") (sessions st) (sessions updated)
  ∧ sessions st1 = sessions updated
  ∧ promises st1 !! 2 = Some (Waiting (Some AfterTurnStart))
  ∧ sessions (settle_promise 2 (Rejected (ErrorPayload "busy")) st1) = sessions st1
  ∧ sessions (step 10 (EMessage 0 (error_response 4 "busy")) st1) = sessions st1.
Proof.
  cbv zeta.
  pose proof (C8_send_message_no_rollback (run c9_trace initial) "t1" "again" None 9)
    as (_ & H2 & H3 & H4 & H5 & _ & H7).
  assert (Ho : socket_open (run c9_trace initial) ≠ None).
  { intros H. vm_compute in H. discriminate H. }
  split; [exact H2|]. split; [exact H3|]. split; [exact (H4 Ho)|].
  split; [exact (H5 _ (Rejected (ErrorPayload "busy")) (H4 Ho))|].
  specialize (H7 c9_trace [] 10%Z (EMessage 0 (error_response 4 "busy"))
                (Rejected (ErrorPayload "busy")) eq_refl Ho).
  cbv zeta in H7.
  match type of H7 with
  | ?A → ?B → _ =>
      assert (Hn : A) by reflexivity;
      assert (Hd : B) by (vm_compute; reflexivity)
  end.
  specialize (H7 Hn Hd eq_refl). rewrite run_nil in H7. exact H7.
Defined.

Lemma C9_approve_updates_whatever_the_outcome_witness :
  let st := run c9_trace initial in
  let st1 := approvePermission "t1" (Some bypassPermissions) 9 st in
  (sessions st1 = sessions st
   ∧ promises st1 !! 2
     = Some (Waiting (Some (AfterApprove "t1" (Some bypassPermissions)))))
  ∧ on_thread "t1" (approved (Some bypassPermissions)) (sessions st1)
      (sessions (settle_promise 2 (Rejected (ErrorPayload "denied")) st1))
  ∧ on_thread "t1" (approved (Some bypassPermissions)) (sessions st1)
      (sessions (step 10 (EMessage 0 (error_response 4 "denied")) st1)).
Proof.
  cbv zeta.
  pose proof (C9_approve_updates_whatever_the_outcome (run c9_trace initial) "t1"
                (Some bypassPermissions) 9) as (H1 & H2 & _ & H4).
  assert (Ho : socket_open (run c9_trace initial) ≠ None).
  { intros H. vm_compute in H. discriminate H. }
  split; [exact H1|].
  split; [exact (H2 _ (Rejected (ErrorPayload "denied")) (proj2 H1))|].
  specialize (H4 c9_trace [] 10%Z (EMessage 0 (error_response 4 "denied"))
                (Rejected (ErrorPayload "denied")) eq_refl Ho).
  cbv zeta in H4.
  match type of H4 with
  | ?A → ?B → _ =>
      assert (Hn : A) by reflexivity;
      assert (Hd : B) by (vm_compute; reflexivity)
  end.
  specialize (H4 Hn Hd eq_refl). rewrite run_nil in H4. exact H4.
Defined.

(** * Further properties of the hook *)

(** ** What the hook shows of the connection *)

Section Shown.

Implicit Types (st : State) (r : PendingRec) (id : N) (e : Event).

Lemma run_cont_shown k o st : shown (run_cont k o st) = shown st.
Proof. by destruct k, o. Qed.

Lemma settle_promise_shown p o st : shown (settle_promise p o st) = shown st.
Proof.
  unfold settle_promise. simpl.
  destruct (promises st !! p) as [[[k|]|]|]; try done.
  by rewrite run_cont_shown.
Qed.

Lemma await_shown p k st : shown (await p k st) = shown st.
Proof.
  unfold await. destruct (promises st !! p) as [[?|o]|]; try done.
  apply run_cont_shown.
Qed.

Lemma call_shown meth params now st : shown (call meth params now st).2 = shown st.
Proof.
  unfold call, nextId, rawSend. simpl. rewrite (socket_open_link st) by done.
  destruct (socket_open st); simpl; [done|]. by rewrite settle_promise_shown.
Qed.

Lemma call_await_shown meth params now k st :
  shown (let '(p, st1) := call meth params now st in await p k st1) = shown st.
Proof. by rewrite call_await_pair, await_shown, call_shown. Qed.

Lemma pending_reject_shown r why st :
  shown (pending_reject r why st)
  = if is_handshake r
    then (url st, error, Some ("Initialize rejected: " +:+ reason_text why))
    else shown st.
Proof.
  unfold pending_reject, is_handshake. destruct (completion r); [|done].
  by rewrite settle_promise_shown.
Qed.

Lemma pending_resolve_shown r v st :
  shown (pending_resolve r v st)
  = if is_handshake r then (url st, connected, lastError st) else shown st.
Proof.
  unfold pending_resolve, is_handshake. destruct (completion r); [|done].
  by rewrite settle_promise_shown.
Qed.

Lemma reject_all_shown why l st :
  shown (reject_all why l st)
  = if existsb (λ kv, is_handshake kv.2) l
    then (url st, error, Some ("Initialize rejected: " +:+ reason_text why))
    else shown st.
Proof.
  revert st. induction l as [|[id r] l IH]; intros st; [done|].
  change (reject_all why ((id, r) :: l) st)
    with (reject_all why l (pending_reject r why st)).
  rewrite IH. simpl.
  pose proof (pending_reject_shown r why st) as H.
  destruct (is_handshake r); simpl.
  - injection H as H1 H2 H3.
    destruct (existsb _ l); [by rewrite H1 | unfold shown; by rewrite H1, H2, H3].
  - rewrite H. injection H as H1 H2 H3. by rewrite H1.
Qed.

Lemma rejectAllPending_shown reason st :
  shown (rejectAllPending reason st)
  = if existsb (λ kv, is_handshake kv.2) (pendingRef st)
    then (url st, error, Some ("Initialize rejected: " +:+ reason))
    else shown st.
Proof.
  destruct (rejectAllPending_reject_all reason st) as [-> | [E ->]];
    [|by rewrite E].
  apply (reject_all_shown (JsError reason) (pendingRef st) st).
Qed.

Lemma rejectAllPending_pending reason st : pendingRef (rejectAllPending reason st) = [].
Proof. by destruct (rejectAllPending_reject_all reason st) as [-> | [E ->]]. Qed.

Lemma close_socket_shown w st : shown (close_socket w st) = shown st.
Proof.
  unfold close_socket. destruct (sockets st !! w) as [s|]; [|done].
  by destruct (readyState s).
Qed.

Lemma shown_status st st' : shown st' = shown st → status st' = status st.
Proof. by intros [= _ -> _]. Qed.

Lemma pending_reject_status r why st :
  status (pending_reject r why st) = if is_handshake r then error else status st.
Proof.
  pose proof (f_equal (λ x, x.1.2) (pending_reject_shown r why st)) as H.
  simpl in H. rewrite H. by destruct (is_handshake r).
Qed.

Lemma pending_resolve_status r v st :
  status (pending_resolve r v st) = if is_handshake r then connected else status st.
Proof.
  pose proof (f_equal (λ x, x.1.2) (pending_resolve_shown r v st)) as H.
  simpl in H. rewrite H. by destruct (is_handshake r).
Qed.

Lemma fire_timer_status h now st :
  status (fire_timer h now st) = connected → status st = connected.
Proof.
  unfold fire_timer. destruct (timers st !! h) as [[t|]|]; try done.
  destruct (callback t); simpl; destruct (pending_has _ _); simpl; try done.
  intros H. by rewrite (shown_status _ _ (settle_promise_shown _ _ _)) in H.
Qed.

Lemma step_connected now e st :
  status (step now e st) = connected →
  status st = connected ∨ answers_handshake st e = true.
Proof.
  destruct e; simpl;
    unfold createSession, interruptTurn, approvePermission, changePermissionMode;
    try (rewrite (shown_status _ _ (call_await_shown _ _ _ _ _)); by left);
    try (by left).
  - unfold connect. destruct (same_live_socket _ _); [by left | done].
  - unfold disconnect. simpl. destruct (wsRef st) as [w|]; [|by left].
    rewrite (shown_status _ _ (close_socket_shown w st)). by left.
  - unfold sendMessage. rewrite (shown_status _ _ (call_await_shown _ _ _ _ _)).
    by left.
  - unfold deleteSession. destruct (find _ _) as [s|]; [|by left].
    destruct (nonempty _); [|by left].
    rewrite (shown_status _ _ (call_await_shown _ _ _ _ _)). by left.
  - unfold socket_opened. destruct (sockets st !! ws) as [s|]; [|by left].
    destruct (bool_decide _); [|by left]. unfold onopen.
    destruct (negb _); by left.
  - destruct (sockets st !! ws); [|by left]. unfold onmessage.
    case_bool_decide as Hw; simpl; [|by left].
    destruct data as [|msg]; [by left|].
    assert (Hn : status match in_method msg with
                        | Some meth =>
                            setSessions (handleNotification (sessionRef st) meth
                                           (in_params msg)) st
                        | None => st
                        end = connected → status st = connected).
    { by destruct (in_method msg). }
    destruct (in_id msg) as [[id|?]|], (in_error msg) as [err|],
      (in_result msg) as [v|]; try (left; by apply Hn); try (by left);
      (destruct (pending_get id (pendingRef st)) as [r|]; [|by left]).
    + rewrite pending_reject_status. destruct (is_handshake r); [done | by left].
    + rewrite pending_reject_status. destruct (is_handshake r); [done | by left].
    + destruct (is_handshake r) eqn:Hr; [by right|].
      rewrite pending_resolve_status, Hr. by left.
  - unfold socket_closed. destruct (sockets st !! ws) as [s|]; [|by left].
    unfold onclose. repeat case_bool_decide; done.
  - intros H. left. by eapply fire_timer_status.
Qed.

End Shown.

(** ** [connect], the handshake and the loss of the connection *)

Section Connection.

Implicit Types (st : State) (r : PendingRec) (id : N) (e : Event).

Lemma connect_live serverUrl st : same_live_socket serverUrl (connect serverUrl st) = true.
Proof.
  unfold connect. destruct (same_live_socket serverUrl st) eqn:E; [done|].
  unfold same_live_socket. simpl.
  rewrite lookup_app_r by done. rewrite Nat.sub_diag. simpl.
  by rewrite bool_decide_eq_true_2.
Qed.

(** X1.  [connect] is idempotent: after [connect(u)] the socket in use has
    the URL [u] and is connecting or open, so a second [connect(u)] right
    after it returns at once and changes nothing.  When the first one did
    make a socket (the socket in use was not a live one for [u]), the hook
    shows the URL [u], the status [connecting] and no error, and the socket
    in use is not open yet: a call made now is not sent. *)
Theorem X1_connect_idempotent serverUrl st :
  connect serverUrl (connect serverUrl st) = connect serverUrl st
  ∧ same_live_socket serverUrl (connect serverUrl st) = true
  ∧ (same_live_socket serverUrl st = false →
     shown (connect serverUrl st) = (serverUrl, connecting, None)
     ∧ socket_open (connect serverUrl st) = None).
Proof.
  split; [|split].
  - unfold connect at 1. by rewrite connect_live.
  - apply connect_live.
  - intros E. unfold connect. rewrite E. split; [done|].
    unfold socket_open. simpl. rewrite lookup_app_r by done.
    by rewrite Nat.sub_diag.
Qed.

(** X2.  In a state the hook can reach, when a connecting socket opens: it
    becomes open, and nothing else of the connection, the sessions or the
    promises changes.  If it is the socket in use, [onopen] takes the next
    id, sends [initialize] under it on that socket, appends the handshake's
    record to the pending table and arms its timer with [INIT_TIMEOUT_MS];
    calls can now be sent.  If it is not the socket in use (it has been
    replaced), nothing is sent and nothing is registered. *)
Theorem X2_handshake_starts tr now ws u :
  let st := run tr initial in
  sockets st !! ws = Some (mkWebSocket u CONNECTING) →
  let st' := step now (EOpen ws) st in
  let id := msgIdCounter st in
  sockets st' = <[ ws := mkWebSocket u OPEN ]> (sockets st)
  ∧ wsRef st' = wsRef st ∧ shown st' = shown st ∧ sessions st' = sessions st
  ∧ promises st' = promises st ∧ settled st' = settled st
  ∧ if bool_decide (wsRef st = Some ws)
    then outbox st' = outbox st ++ [(ws, mkRequest id "initialize"
                                           (InitializeParams "clode-app" "1.0.0"))]
         ∧ pendingRef st'
           = pendingRef st ++ [(id, mkPendingRec "initialize" now
                                      (InitCompletion (length (timers st))))]
         ∧ timers st' = timers st ++ [Some (mkTimer INIT_TIMEOUT_MS (InitTimeout id))]
         ∧ msgIdCounter st' = (id + 1)%N
         ∧ socket_open st' = Some ws
    else dispatch st' = dispatch st.
Proof.
  intros st. pose proof (reachable_Inv tr) as HI. fold st in HI. clearbody st.
  intros Hs st' id. subst st'. simpl. unfold socket_opened. rewrite Hs. simpl.
  set (st0 := set_sockets _ st).
  unfold onopen.
  case_bool_decide as Hw;
    change (wsRef st = Some ws) in Hw || change (wsRef st ≠ Some ws) in Hw; simpl.
  - rewrite (bool_decide_eq_true_2 (wsRef st = Some ws)) by exact Hw. simpl.
    repeat split; try done.
    + rewrite pending_set_fresh; [done|].
      apply (counter_fresh _ (proj1 HI)).
    + unfold socket_open. simpl. rewrite Hw. simpl.
      rewrite list_lookup_insert_eq; [done|]. by eapply lookup_lt_Some.
  - rewrite (bool_decide_eq_false_2 (wsRef st = Some ws)) by exact Hw. done.
Qed.

Lemma X2_handshake_starts_witness :
  let st := run connect_trace initial in
  let st' := step 1 (EOpen 0) st in
  sockets st !! 0 = Some (mkWebSocket "ws://host" CONNECTING)
  ∧ pendingRef st'
    = pendingRef st ++ [(msgIdCounter st,
                         mkPendingRec "initialize" 1 (InitCompletion (length (timers st))))]
  ∧ socket_open st' = Some 0.
Proof.
  cbv zeta.
  assert (Hs : sockets (run connect_trace initial) !! 0
               = Some (mkWebSocket "ws://host" CONNECTING)) by (vm_compute; reflexivity).
  assert (Hw : wsRef (run connect_trace initial) = Some 0) by (vm_compute; reflexivity).
  split; [exact Hs|].
  pose proof (X2_handshake_starts connect_trace 1 0 "ws://host" Hs) as H.
  cbv zeta in H. destruct H as (_ & _ & _ & _ & _ & _ & H).
  rewrite (bool_decide_eq_true_2 _ Hw) in H.
  destruct H as (_ & Hp & _ & _ & Ho). split; [exact Hp | exact Ho].
Defined.

(** X3.  In a state the hook can reach, let a handshake be pending (its
    record in the table under [id], its timer [h]) and [ws] be the socket in
    use.  A response on [ws] bearing [id] with a result, and no error, sets
    the status to [connected] and leaves [lastError] as it was; one with an
    error member sets the status to [error] and [lastError] to
    "Initialize rejected: " followed by the payload; the timer firing sets the
    status to [error] and [lastError] to the time-out message.  In each case
    the record leaves the table, the timer is disarmed, no promise is
    settled, the sessions are untouched — and the socket stays the one in
    use: after a handshake that timed out or was refused the connection is
    not closed. *)
Theorem X3_handshake_outcome tr ws id r h :
  let st := run tr initial in
  wsRef st = Some ws → (id, r) ∈ pendingRef st →
  completion r = InitCompletion h →
  (∀ now msg v, in_id msg = Some (NumberId id) → in_error msg = None →
     in_result msg = Some v →
     let st' := step now (EMessage ws (Parsed msg)) st in
     shown st' = (url st, connected, lastError st)
     ∧ pendingRef st' = pending_delete id (pendingRef st)
     ∧ timers st' = <[ h := None ]> (timers st)
     ∧ settled st' = settled st ∧ sessions st' = sessions st ∧ link st' = link st)
  ∧ (∀ now msg payload, in_id msg = Some (NumberId id) → in_error msg = Some payload →
     let st' := step now (EMessage ws (Parsed msg)) st in
     shown st' = (url st, error, Some ("Initialize rejected: " +:+ payload))
     ∧ pendingRef st' = pending_delete id (pendingRef st)
     ∧ timers st' = <[ h := None ]> (timers st)
     ∧ settled st' = settled st ∧ sessions st' = sessions st ∧ link st' = link st)
  ∧ (∀ now,
     let st' := step now (ETimer h) st in
     shown st' = (url st, error,
                  Some "Initialize timed out — server connected but did not respond")
     ∧ pendingRef st' = pending_delete id (pendingRef st)
     ∧ timers st' = <[ h := None ]> (timers st)
     ∧ settled st' = settled st ∧ sessions st' = sessions st ∧ link st' = link st).
Proof.
  intros st. pose proof (reachable_Inv tr) as [Hok Hl]. fold st in Hok, Hl.
  clearbody st. intros Hw Hin Hc.
  destruct (Hl ws Hw) as [s Hs]. simpl in Hs.
  assert (Hget : pending_get id (pendingRef st) = Some r).
  { apply elem_of_pending_get; [apply (ok_nodup _ Hok) | done]. }
  split; [|split].
  - intros now msg v Hid He Hr. simpl. rewrite Hs. unfold onmessage.
    rewrite (bool_decide_eq_true_2 (wsRef st = Some ws)) by exact Hw. simpl.
    rewrite Hid, He, Hr, Hget. unfold pending_resolve. rewrite Hc. done.
  - intros now msg payload Hid He. simpl. rewrite Hs. unfold onmessage.
    rewrite (bool_decide_eq_true_2 (wsRef st = Some ws)) by exact Hw. simpl.
    rewrite Hid, He, Hget. unfold pending_reject. rewrite Hc. done.
  - intros now. simpl. unfold fire_timer.
    pose proof (ok_armed _ Hok id r Hin) as Ha. simpl in Ha.
    rewrite Hc in Ha. simpl in Ha. rewrite Ha.
    unfold guard_timer. rewrite Hc. simpl.
    rewrite (pending_has_true id r (pendingRef st)) by (apply (ok_nodup _ Hok) || done).
    done.
Qed.

Lemma X3_handshake_outcome_witness :
  let st := run open_trace initial in
  (1%N, open_record) ∈ pendingRef st
  ∧ shown (step 2 (EMessage 0 (result_response 1 (mkResult "" 0 ""))) st)
    = (url st, connected, lastError st)
  ∧ shown (step 10001 (ETimer 0) st)
    = (url st, error, Some "Initialize timed out — server connected but did not respond")
  ∧ link (step 10001 (ETimer 0) st) = link st.
Proof.
  cbv zeta.
  assert (Hw : wsRef (run open_trace initial) = Some 0) by (vm_compute; reflexivity).
  assert (Hin : (1%N, open_record) ∈ pendingRef (run open_trace initial)).
  { vm_compute. left. }
  split; [exact Hin|].
  pose proof (X3_handshake_outcome open_trace 0 1%N open_record 0 Hw Hin eq_refl)
    as (H1 & _ & H3).
  split; [|split].
  - exact (proj1 (H1 2%Z (mkInbound (Some (NumberId 1)) (Some (mkResult "" 0 "")) None
                           None c10_params) (mkResult "" 0 "") eq_refl eq_refl eq_refl)).
  - exact (proj1 (H3 10001%Z)).
  - exact (proj2 (proj2 (proj2 (proj2 (proj2 (H3 10001%Z)))))).
Defined.

(** X4.  The status becomes [connected] in one way only.  If it is not
    [connected] in [st] and is [connected] after the events [tr], then one of
    these events was a response with a result and without an error member,
    received on the socket in use at that time, whose id was the key of a
    pending handshake record. *)
Theorem X4_connected_only_by_handshake tr st :
  status st ≠ connected → status (run tr st) = connected →
  ∃ tr1 now e tr2, tr = tr1 ++ (now, e) :: tr2
                   ∧ answers_handshake (run tr1 st) e = true.
Proof.
  induction tr as [|[now e] tr IH] using rev_ind; intros Hst Hc; [done|].
  rewrite run_snoc in Hc.
  destruct (step_connected _ _ _ Hc) as [H|H].
  - destruct (IH Hst H) as (tr1 & now' & e' & tr2 & -> & Ha).
    exists tr1, now', e', (tr2 ++ [(now, e)]). by rewrite <- app_assoc.
  - exists tr, now, e, []. done.
Qed.

Lemma X4_connected_only_by_handshake_witness :
  status (run ready_trace initial) = connected
  ∧ ∃ tr1 now e tr2, ready_trace = tr1 ++ (now, e) :: tr2
                     ∧ answers_handshake (run tr1 initial) e = true.
Proof.
  assert (Hc : status (run ready_trace initial) = connected) by (vm_compute; reflexivity).
  split; [exact Hc|].
  apply (X4_connected_only_by_handshake ready_trace initial); [|exact Hc].
  vm_compute. discriminate.
Defined.

(** X5.  After the close event of a socket — the one in use or one that has
    been replaced — the status is decided by the close code alone:
    [disconnected] for 1000, [error] for every other code.  For a code other
    than 1000 [lastError] is the close reason, or, when the reason is empty,
    the fixed text for 1006 and "Closed with code N" otherwise.  For 1000
    [lastError] is left as it was, unless the socket was the one in use and
    a handshake was pending: rejecting that handshake has set it to
    "Initialize rejected: WebSocket closed (code=1000)", and it stays.  The
    URL is not changed. *)
Theorem X5_close_status now ws code reason st :
  is_Some (sockets st !! ws) →
  let st' := step now (EClose ws code reason) st in
  status st' = (if bool_decide (code = 1000%Z) then disconnected else error)
  ∧ lastError st'
    = (if bool_decide (code = 1000%Z)
       then if bool_decide (wsRef st = Some ws)
               && existsb (λ kv, is_handshake kv.2) (pendingRef st)
            then Some ("Initialize rejected: " +:+ reason_text (closed_error code))
            else lastError st
       else Some (if bool_decide (reason = "")
                  then if bool_decide (code = 1006%Z)
                       then "Connection failed — check URL and that the server is running"
                       else "Closed with code " +:+ pretty code
                  else reason))
  ∧ url st' = url st.
Proof.
  intros [s Hs]. simpl. unfold socket_closed. rewrite Hs. unfold onclose. simpl.
  set (st0 := set_sockets _ st).
  set (st1 := if bool_decide (wsRef st = Some ws) then _ else st0).
  assert (H1 : shown st1
               = if bool_decide (wsRef st = Some ws)
                    && existsb (λ kv, is_handshake kv.2) (pendingRef st)
                 then (url st, error,
                       Some ("Initialize rejected: " +:+ reason_text (closed_error code)))
                 else shown st).
  { subst st1. destruct (bool_decide (wsRef st = Some ws)); [|done].
    by rewrite rejectAllPending_shown. }
  clearbody st1. unfold shown in H1.
  destruct (bool_decide (wsRef st = Some ws) && existsb _ (pendingRef st));
    injection H1 as Hu _ He;
    repeat case_bool_decide; simpl; try done; try lia.
Qed.

Lemma X5_close_status_witness :
  let st := run open_trace initial in
  let st' := step 9 (EClose 0 1000 "bye") st in
  status st' = disconnected
  ∧ lastError st' = Some ("Initialize rejected: " +:+ reason_text (closed_error 1000)).
Proof.
  cbv zeta.
  assert (Hs : is_Some (sockets (run open_trace initial) !! 0)).
  { exists (mkWebSocket "ws://host" OPEN). vm_compute. reflexivity. }
  pose proof (X5_close_status 9 0 1000 "bye" (run open_trace initial) Hs) as H.
  cbv zeta in H. destruct H as (H1 & H2 & _).
  split; [exact H1|].
  assert (Hc : bool_decide (wsRef (run open_trace initial) = Some 0)
               && existsb (λ kv, is_handshake kv.2) (pendingRef (run open_trace initial))
               = true) by (vm_compute; reflexivity).
  rewrite Hc in H2. exact H2.
Defined.

(** X6.  In a state the hook can reach, when the socket in use closes:
    [wsRef] is cleared, the pending table is emptied, no timer stays armed,
    there is no socket to send on (a call made now is rejected at once),
    and the promise of every call that was pending has been settled once,
    with the rejection "WebSocket closed (code=N)". *)
Theorem X6_connection_lost tr now ws code reason :
  let st := run tr initial in
  wsRef st = Some ws →
  let st' := step now (EClose ws code reason) st in
  pendingRef st' = []
  ∧ Forall (λ t, t = None) (timers st')
  ∧ wsRef st' = None
  ∧ socket_open st' = None
  ∧ ∀ id r h p, (id, r) ∈ pendingRef st → completion r = CallCompletion h p →
      outcomes p st' = [Rejected (closed_error code)].
Proof.
  intros st. pose proof (reachable_Inv tr) as HI. fold st in HI. clearbody st.
  intros Hw st'.
  pose proof (Inv_step now (EClose ws code reason) st HI) as HI'. fold st' in HI'.
  assert (Hp : pendingRef st' = [] ∧ wsRef st' = None).
  { subst st'. simpl. unfold socket_closed.
    destruct (proj2 HI ws Hw) as [s Hs]. simpl in Hs. rewrite Hs.
    unfold onclose. simpl.
    rewrite (bool_decide_eq_true_2 (wsRef st = Some ws)) by exact Hw.
    pose proof (rejectAllPending_pending
                  ("WebSocket closed (code=" +:+ pretty code +:+ ")")
                  (set_wsRef None
                     (set_sockets (<[ws:=mkWebSocket (ws_url s) CLOSED]> (sockets st)) st)))
      as Hp.
    pose proof (f_equal fst (rejectAllPending_link
                  ("WebSocket closed (code=" +:+ pretty code +:+ ")")
                  (set_wsRef None
                     (set_sockets (<[ws:=mkWebSocket (ws_url s) CLOSED]> (sockets st)) st))))
      as Hl.
    simpl in Hl.
    repeat case_bool_decide; simpl; by rewrite Hp, Hl. }
  destruct Hp as [Hp Hw'].
  split; [done|]. split; [|split; [done|split]].
  - apply Forall_forall. intros [t|] Ht; [|done].
    apply list_elem_of_lookup_1 in Ht as [h Hh].
    destruct (ok_timer _ (proj1 HI') h t Hh) as (r & Hin & _).
    simpl in Hin. rewrite Hp in Hin. by apply elem_of_nil in Hin.
  - unfold socket_open. by rewrite Hw'.
  - intros id r h p Hin Hc. apply outcomes_unique.
    + apply (ok_settled_nodup _ (proj1 HI')).
    + eapply decided_settles; [done|exact Hin|exact Hc|].
      simpl. by rewrite bool_decide_eq_true_2.
Qed.

Lemma X6_connection_lost_witness :
  let st := run c1_before initial in
  let st' := step 9 (EClose 0 1006 "") st in
  (2%N, c1_record) ∈ pendingRef st
  ∧ pendingRef st' = []
  ∧ Forall (λ t, t = None) (timers st')
  ∧ socket_open st' = None
  ∧ outcomes 0 st' = [Rejected (closed_error 1006)].
Proof.
  cbv zeta.
  assert (Hw : wsRef (run c1_before initial) = Some 0) by (vm_compute; reflexivity).
  assert (Hin : (2%N, c1_record) ∈ pendingRef (run c1_before initial)).
  { vm_compute. right. left. }
  pose proof (X6_connection_lost c1_before 9 0 1006 "" Hw) as (H1 & H2 & _ & H4 & H5).
  split; [exact Hin|]. split; [exact H1|]. split; [exact H2|]. split; [exact H4|].
  exact (H5 2%N c1_record 1 0 Hin eq_refl).
Defined.

Lemma run_cont_rejected_empty k why st :
  sessions st = [] → sessions (run_cont k (Rejected why) st) = [].
Proof. intros H. destruct k; simpl; by rewrite ?H. Qed.

Lemma settle_rejected_empty p why st :
  sessions st = [] → sessions (settle_promise p (Rejected why) st) = [].
Proof.
  intros H. unfold settle_promise. simpl.
  destruct (promises st !! p) as [[[k|]|]|]; try done.
  by apply run_cont_rejected_empty.
Qed.

Lemma pending_reject_empty r why st :
  sessions st = [] → sessions (pending_reject r why st) = [].
Proof.
  intros H. unfold pending_reject. destruct (completion r); [|done].
  by apply settle_rejected_empty.
Qed.

Lemma reject_all_empty why l st :
  sessions st = [] → sessions (reject_all why l st) = [].
Proof.
  revert st. induction l as [|[id r] l IH]; intros st H; [done|].
  change (reject_all why ((id, r) :: l) st)
    with (reject_all why l (pending_reject r why st)).
  by apply IH, pending_reject_empty.
Qed.

Lemma close_socket_not_open w st :
  wsRef st = Some w → socket_open (close_socket w st) = None.
Proof.
  intros Hw. unfold socket_open. rewrite close_socket_wsRef, Hw.
  unfold close_socket. destruct (sockets st !! w) as [s|] eqn:Hs; [|by rewrite Hs].
  destruct (readyState s) eqn:Hr; simpl; rewrite ?Hs, ?Hr; try done;
    (rewrite list_lookup_insert_eq; [done | by eapply lookup_lt_Some]).
Qed.

(** X7.  In a state the hook can reach, with a socket in use, [disconnect]
    empties the session store and starts closing the socket, and that is
    all: the socket stays the one in use but is no longer open, so calls made
    from now on are rejected at once; the status, [lastError], the pending
    table, the timers and the promises are as they were — pending calls are
    not rejected by [disconnect].  If the close event of the socket is the
    next event, it rejects them: after it the table is empty, [wsRef] is
    cleared, and the store is still empty, whatever continuations the
    rejections ran. *)
Theorem X7_disconnect tr now now' ws code reason :
  let st := run tr initial in
  wsRef st = Some ws →
  let st1 := step now EDisconnect st in
  let st2 := step now' (EClose ws code reason) st1 in
  (sessions st1 = [] ∧ socket_open st1 = None ∧ wsRef st1 = Some ws
   ∧ shown st1 = shown st ∧ dispatch st1 = dispatch st)
  ∧ (sessions st2 = [] ∧ pendingRef st2 = [] ∧ wsRef st2 = None).
Proof.
  intros st. pose proof (reachable_Inv tr) as HI. fold st in HI. clearbody st.
  intros Hw st1 st2.
  assert (H1 : sessions st1 = [] ∧ socket_open st1 = None ∧ wsRef st1 = Some ws
               ∧ shown st1 = shown st ∧ dispatch st1 = dispatch st).
  { subst st1. simpl. unfold disconnect. rewrite Hw. simpl.
    split; [done|]. split; [|split; [|split]].
    - rewrite (socket_open_link (close_socket ws st)) by done.
      by apply close_socket_not_open.
    - by rewrite close_socket_wsRef.
    - apply close_socket_shown.
    - apply close_socket_dispatch. }
  split; [exact H1|]. destruct H1 as (Hs1 & _ & Hw1 & _).
  assert (HI1 : Inv st1) by by apply Inv_step.
  subst st2. clearbody st1. simpl. unfold socket_closed.
  destruct (proj2 HI1 ws Hw1) as [s Hs]. simpl in Hs. rewrite Hs.
  unfold onclose. simpl.
  rewrite (bool_decide_eq_true_2 (wsRef st1 = Some ws)) by exact Hw1.
  set (st3 := set_wsRef None _).
  assert (H3 : sessions (rejectAllPending
                           ("WebSocket closed (code=" +:+ pretty code +:+ ")") st3) = []
               ∧ pendingRef (rejectAllPending
                           ("WebSocket closed (code=" +:+ pretty code +:+ ")") st3) = []
               ∧ wsRef (rejectAllPending
                           ("WebSocket closed (code=" +:+ pretty code +:+ ")") st3) = None).
  { split; [|split].
    - destruct (rejectAllPending_reject_all
                  ("WebSocket closed (code=" +:+ pretty code +:+ ")") st3)
        as [-> | [_ ->]]; [|done].
      simpl. by apply reject_all_empty.
    - apply rejectAllPending_pending.
    - apply (f_equal fst (rejectAllPending_link _ st3)). }
  repeat case_bool_decide; exact H3.
Qed.

Lemma X7_disconnect_witness :
  let st := run thread_trace initial in
  let st1 := step 5 EDisconnect st in
  let st2 := step 6 (EClose 0 1000 "") st1 in
  wsRef st = Some 0
  ∧ (sessions st1 = [] ∧ socket_open st1 = None ∧ wsRef st1 = Some 0
     ∧ shown st1 = shown st ∧ dispatch st1 = dispatch st)
  ∧ (sessions st2 = [] ∧ pendingRef st2 = [] ∧ wsRef st2 = None).
Proof.
  cbv zeta.
  assert (Hw : wsRef (run thread_trace initial) = Some 0) by (vm_compute; reflexivity).
  split; [exact Hw|].
  exact (X7_disconnect thread_trace 5 6 0 1000 "" Hw).
Defined.

End Connection.

(** ** The bookkeeping of the dispatcher *)

Section Bookkeeping.

Implicit Types (st : State) (r : PendingRec) (id : N) (e : Event) (d : Dispatch).

Lemma pending_sent_register r made w params d :
  pending_sent d → pending_sent (d_register r made w params d).
Proof.
  intros H id r' Hin. simpl in Hin. apply elem_of_app in Hin as [Hin|Hin].
  - destruct (H id r' Hin) as (w' & params' & Ho).
    exists w', params'. simpl. apply elem_of_app. by left.
  - apply list_elem_of_singleton in Hin as [= -> ->].
    exists w, params. simpl. apply elem_of_app. right. by left.
Qed.

Lemma dstep_pending_sent d d' : dstep d d' → pending_sent d → pending_sent d'.
Proof.
  induction 1 as [d|o d|meth now w params d|meth now w params d|id r o d d' Hin _ IH];
    intros H; try done.
  - by apply pending_sent_register.
  - by apply pending_sent_register.
  - apply IH. intros id' r' Hin'. simpl in Hin'.
    apply elem_of_pending_delete in Hin' as [Hin' _]. by apply H.
Qed.

Lemma run_pending_sent tr st :
  Inv st → pending_sent (dispatch st) → pending_sent (dispatch (run tr st)).
Proof.
  revert st. induction tr as [|[now e] tr IH]; intros st HI H; [done|].
  simpl. apply IH; [by apply Inv_step|].
  eapply dstep_pending_sent; [by apply step_dstep | done].
Qed.

(** X8.  In every state the hook can reach, timers and pending records
    correspond one to one: a timer is armed exactly when a record of the
    pending table names it; the timer of a record is armed, with the delay
    and the callback [call] (or [onopen]) gave it; two records never share a
    timer.  And every record answers a request that was written to a socket
    under the record's id and method.  So no timer is left armed for a call
    that has settled, and no call waits without a timer. *)
Theorem X8_dispatcher_bookkeeping tr :
  let st := run tr initial in
  (∀ h, (∃ t, timers st !! h = Some (Some t))
        ↔ ∃ id r, (id, r) ∈ pendingRef st ∧ timer_of (completion r) = h)
  ∧ (∀ id r, (id, r) ∈ pendingRef st →
       timers st !! timer_of (completion r) = Some (Some (guard_timer id r))
       ∧ ∃ w params, (w, mkRequest id (method r) params) ∈ outbox st)
  ∧ (∀ id1 r1 id2 r2, (id1, r1) ∈ pendingRef st → (id2, r2) ∈ pendingRef st →
       timer_of (completion r1) = timer_of (completion r2) → id1 = id2 ∧ r1 = r2).
Proof.
  intros st. destruct (reachable_Inv tr) as [Hok _]. fold st in Hok.
  assert (Hs : pending_sent (dispatch st)).
  { apply run_pending_sent; [apply Inv_initial|]. intros id r Hin.
    by apply elem_of_nil in Hin. }
  split; [|split].
  - intros h. split.
    + intros [t Ht]. destruct (ok_timer _ Hok h t Ht) as (r & Hin & Hh). eauto.
    + intros (id & r & Hin & <-). eexists. apply (ok_armed _ Hok id r Hin).
  - intros id r Hin. split; [apply (ok_armed _ Hok id r Hin) | by apply Hs].
  - intros id1 r1 id2 r2 H1 H2 Ht.
    pose proof (ok_armed _ Hok id1 r1 H1) as A1.
    pose proof (ok_armed _ Hok id2 r2 H2) as A2.
    rewrite Ht, A2 in A1. injection A1 as A1.
    assert (id1 = id2) as <-.
    { by rewrite <- (callback_guard_timer id1 r1), <- A1, callback_guard_timer. }
    split; [done|]. eapply pending_unique; [apply (ok_nodup _ Hok)|done..].
Qed.

End Bookkeeping.

(** ** Inbound frames and the notification router *)

Section RouterMore.

Implicit Types (cur prev : list Session) (p : Params) (s : Session) (st : State).
Implicit Types (msgs : list ChatMessage) (m : ChatMessage).

Lemma unhandled_method cur meth p prev :
  meth ∉ handled_methods → handleNotification cur meth p prev = prev.
Proof.
  unfold handled_methods. rewrite !elem_of_cons, elem_of_nil. intros H.
  unfold handleNotification.
  case_bool_decide; [done|].
  repeat (case_bool_decide; [tauto|]). simpl.
  repeat (case_bool_decide; [tauto|]). done.
Qed.

(** X9.  [onmessage] discards, leaving the whole state as it is: every frame
    of a socket that is not the one in use; a frame that is not JSON; and a
    parsed frame that is not a response (no [id], or neither [result] nor
    [error]) and whose [method] is missing or is none of the six the router
    acts on ([initialized] among the ignored ones). *)
Theorem X9_discarded_frames now ws data st :
  wsRef st ≠ Some ws
  ∨ data = Unparseable
  ∨ (∃ msg, data = Parsed msg ∧ is_response msg = false
            ∧ ∀ meth, in_method msg = Some meth → meth ∉ handled_methods) →
  step now (EMessage ws data) st = st.
Proof.
  intros H. simpl. destruct (sockets st !! ws); [|done].
  unfold onmessage. case_bool_decide as Hw; simpl; [|done].
  destruct H as [H|[->|(msg & -> & Hr & Hm)]]; [done|done|].
  unfold is_response in Hr.
  destruct (in_id msg), (in_error msg), (in_result msg); simpl in Hr; try done;
    (destruct (in_method msg) as [meth|]; [|done]);
    apply setSessions_id, unhandled_method, Hm; done.
Qed.

Lemma X9_discarded_frames_witness :
  step 5 (EMessage 0 (Parsed (mkInbound None None None (Some "initialized") c10_params)))
    (run ready_trace initial)
  = run ready_trace initial.
Proof.
  apply (X9_discarded_frames 5 0
           (Parsed (mkInbound None None None (Some "initialized") c10_params))
           (run ready_trace initial)).
  right. right. eexists. split; [reflexivity|]. split; [reflexivity|].
  intros meth [= <-]. unfold handled_methods.
  repeat (apply not_elem_of_cons; split; [discriminate|]). apply not_elem_of_nil.
Defined.

Lemma Forall2_map_same {A} (R : A → A → Prop) (f : A → A) (l : list A) :
  (∀ x, R x (f x)) → Forall2 R l (map f l).
Proof. intros H. induction l; simpl; by constructor. Qed.

Lemma same_identity_refl s : same_identity s s.
Proof. by repeat split. Qed.

Lemma notification_identity cur meth p prev :
  Forall2 same_identity prev (handleNotification cur meth p prev).
Proof.
  assert (Hid : Forall2 same_identity prev prev).
  { induction prev; constructor; [apply same_identity_refl | done]. }
  unfold handleNotification, updateSession.
  destruct (bool_decide (meth = "initialized")); [done|].
  destruct (bool_decide (meth = "turn/started")).
  { apply Forall2_map_same. intros x. by case_bool_decide. }
  destruct (bool_decide (meth = "item/progress")).
  { destruct (find_by_turn _ _) as [session|]; [|done].
    destruct (_ && _); [|done].
    apply Forall2_map_same. intros x. by case_bool_decide. }
  destruct (bool_decide (meth = "item/created")).
  { destruct (find_by_turn _ _) as [session|]; [|done].
    apply Forall2_map_same. intros x. by case_bool_decide. }
  destruct (bool_decide (meth = "turn/permission_denied")).
  { apply Forall2_map_same. intros x. by case_bool_decide. }
  destruct (_ || _); [|done].
  apply Forall2_map_same. intros x. by case_bool_decide.
Qed.

(** X10.  Notifications never add, remove or reorder sessions, and never
    write [thread_id], [created_at], [cwd], [permission_mode] or [turns]:
    after any sequence of notifications — whatever their methods and
    parameters, whatever [sessionRef.current] held when each arrived — the
    store has the same sessions in the same order, these fields as they
    were. *)
Theorem X10_notifications_keep_sessions
    (ns : list (list Session * string * Params)) prev :
  Forall2 same_identity prev
    (foldl (λ acc n, handleNotification n.1.1 n.1.2 n.2 acc) prev ns).
Proof.
  induction ns as [|[[cur meth] p] ns IH] using rev_ind.
  { induction prev; constructor; [apply same_identity_refl | done]. }
  rewrite foldl_app. simpl.
  eapply Forall2_trans; [|exact IH|apply notification_identity].
  intros s1 s2 s3 (H1 & H2 & H3 & H4 & H5) (K1 & K2 & K3 & K4 & K5).
  repeat split; congruence.
Qed.

Lemma last_snoc_inv {A} (l : list A) x : last l = Some x → l = removelast l ++ [x].
Proof.
  destruct l as [|y l _] using rev_ind; [done|].
  rewrite last_snoc. intros [= ->]. by rewrite removelast_last.
Qed.

(** One text delta: the messages before the streaming tail stay, and the
    tail holds the text streamed so far followed by the delta. *)
Lemma progress_messages_tail tid text msgs :
  ∃ m, progress_messages tid text msgs = settled_messages msgs ++ [m]
       ∧ role m = assistant ∧ isStreaming m = Some true
       ∧ streamingText m = Some (streamed_text msgs +:+ text)
       ∧ msg_id m = match last msgs with
                    | Some lastMsg => if streaming_tail msgs then msg_id lastMsg
                                      else "streaming-" +:+ tid
                    | None => "streaming-" +:+ tid
                    end.
Proof.
  unfold progress_messages, settled_messages, streamed_text, streaming_tail.
  destruct (last msgs) as [lastMsg|] eqn:Hl.
  - destruct (bool_decide (role lastMsg = assistant) && truthy (isStreaming lastMsg))
      eqn:Hc.
    + apply andb_prop in Hc as [Hr Ht]. apply bool_decide_eq_true in Hr.
      eexists. split.
      { rewrite (last_snoc_inv _ _ Hl) at 1 2.
        rewrite length_app. simpl.
        replace (length (removelast msgs) + 1 - 1) with (length (removelast msgs) + 0)
          by lia.
        rewrite insert_app_r. simpl. reflexivity. }
      simpl. split; [done|]. split; [by destruct (isStreaming lastMsg) as [[]|]|].
      by split.
    + eexists. split; [reflexivity|]. by repeat split.
  - eexists. split; [reflexivity|]. by repeat split.
Qed.

Lemma settled_messages_snoc msgs m :
  role m = assistant → isStreaming m = Some true →
  settled_messages (msgs ++ [m]) = msgs ∧ streaming_tail (msgs ++ [m]) = true
  ∧ streamed_text (msgs ++ [m]) = nullish (streamingText m) "".
Proof.
  intros Hr Hs. unfold settled_messages, streaming_tail, streamed_text.
  rewrite last_snoc, Hr, Hs. simpl. by rewrite removelast_last.
Qed.

Lemma progress_messages_fold tid ds msgs :
  ds ≠ [] →
  ∃ m, foldl (λ acc d, progress_messages tid d acc) msgs ds
       = settled_messages msgs ++ [m]
       ∧ role m = assistant ∧ isStreaming m = Some true
       ∧ streamingText m = Some (foldl String.append (streamed_text msgs) ds).
Proof.
  revert msgs. induction ds as [|d ds IH]; intros msgs Hne; [done|]. simpl.
  destruct (progress_messages_tail tid d msgs) as (m & Hm & Hr & Hs & Ht & _).
  destruct (decide (ds = [])) as [->|Hds].
  { simpl. by exists m. }
  destruct (IH (progress_messages tid d msgs) Hds) as (m' & Hm' & Hr' & Hs' & Ht').
  rewrite Hm in Hm', Ht'.
  destruct (settled_messages_snoc (settled_messages msgs) m Hr Hs) as (E1 & _ & E3).
  rewrite E1 in Hm'. rewrite E3, Ht in Ht'. simpl in Ht'.
  exists m'. by rewrite Hm.
Qed.

(** The update one routed text delta applies to the store. *)
Lemma progress_routed cur T d prev session :
  find_by_turn T cur = Some session → d ≠ "" →
  handleNotification cur "item/progress" (progress_params T d) prev
  = map (λ s, if bool_decide (thread_id s = thread_id session)
              then set_messages (progress_messages T d (messages s)) s else s) prev.
Proof.
  intros Hf Hd. unfold handleNotification. simpl. rewrite Hf.
  destruct d as [|a d]; [done|]. simpl.
  apply map_ext. intros s. by repeat case_bool_decide.
Qed.

Lemma progress_session_fold T tid ds s :
  foldl (λ a d, if bool_decide (thread_id a = tid)
                then set_messages (progress_messages T d (messages a)) a else a) s ds
  = if bool_decide (thread_id s = tid)
    then set_messages (foldl (λ acc d, progress_messages T d acc) (messages s) ds) s
    else s.
Proof.
  revert s. induction ds as [|d ds IH]; intros s; simpl.
  { case_bool_decide; by destruct s. }
  rewrite IH. by repeat case_bool_decide.
Qed.

(** X11.  Text deltas of a turn accumulate.  Take one or more [item/progress]
    notifications of turn [T], each with a non-empty text delta and each
    routed to thread [tid] (the session [sessionRef.current] holds for [T]
    when it arrives is of that thread).  After them every session of the
    thread ends with one streaming assistant message whose [streamingText] is
    the text that was streaming before (empty if the last message was not a
    streaming assistant message) followed by the deltas in order; the
    messages before it are the ones that were there; only [messages]
    changed.  The other sessions are untouched. *)
Theorem X11_text_deltas_accumulate T tid prev (cds : list (list Session * string)) :
  cds ≠ [] →
  Forall (λ cd, cd.2 ≠ "" ∧ ∃ session, find_by_turn T cd.1 = Some session
                                        ∧ thread_id session = tid) cds →
  on_thread tid (λ s s',
      s' = set_messages (messages s') s
      ∧ ∃ m, messages s' = settled_messages (messages s) ++ [m]
             ∧ role m = assistant ∧ isStreaming m = Some true
             ∧ streamingText m
               = Some (foldl String.append (streamed_text (messages s)) cds.*2))
    prev
    (foldl (λ acc cd, handleNotification cd.1 "item/progress"
                        (progress_params T cd.2) acc) prev cds).
Proof.
  intros Hne Hall.
  assert (E : foldl (λ acc cd, handleNotification cd.1 "item/progress"
                                 (progress_params T cd.2) acc) prev cds
              = map (λ s, foldl (λ a d, if bool_decide (thread_id a = tid)
                                        then set_messages
                                               (progress_messages T d (messages a)) a
                                        else a) s cds.*2) prev).
  { clear Hne. revert prev.
    induction Hall as [|[cur d] cds (Hd & session & Hf & Ht) _ IH]; intros prev; simpl.
    { by rewrite map_id. }
    rewrite IH, (progress_routed _ _ _ _ _ Hf Hd), Ht, map_map. done. }
  rewrite E. unfold on_thread. clear E.
  induction prev as [|s prev IH]; simpl; constructor; [|done].
  rewrite progress_session_fold. case_bool_decide; [|done].
  split; [done|].
  apply progress_messages_fold. by destruct cds.
Qed.

Lemma X11_text_deltas_accumulate_witness :
  let cds := [([c6_session], "lo"); ([c6_session], " world")] in
  on_thread "t1" (λ s s',
      s' = set_messages (messages s') s
      ∧ ∃ m, messages s' = settled_messages (messages s) ++ [m]
             ∧ role m = assistant ∧ isStreaming m = Some true
             ∧ streamingText m
               = Some (foldl String.append (streamed_text (messages s)) cds.*2))
    [c6_session]
    (foldl (λ acc cd, handleNotification cd.1 "item/progress"
                        (progress_params "r1" cd.2) acc) [c6_session] cds).
Proof.
  apply (X11_text_deltas_accumulate "r1" "t1" [c6_session]
           [([c6_session], "lo"); ([c6_session], " world")]); [done|].
  repeat constructor; try discriminate; by exists c6_session.
Defined.

Lemma find_by_turn_same T l l' :
  same_turns l l' →
  match find_by_turn T l, find_by_turn T l' with
  | Some s, Some s' => thread_id s' = thread_id s
  | None, None => True
  | _, _ => False
  end.
Proof.
  unfold find_by_turn. induction 1 as [|s s' l l' [Ht Ha] _ IH]; simpl; [done|].
  rewrite Ha. by case_bool_decide.
Qed.

(** X12.  The routing of a turn's notifications follows its life cycle.
    Let [turn/started] name turn [T] and thread [tid], in a store where no
    session of another thread has [T] as its active turn.  From then on, in
    any store with the same threads and active turns (so also after deltas
    and items), the session [item/progress] and [item/created] look up for
    [T] is one of thread [tid] — once a render has copied the store into
    [sessionRef.current], and if the store has a session of that thread.
    After [turn/completed] or [turn/error] for that thread no session of the
    store has [T] as its active turn any more.  So in every state whose
    [sessionRef.current] is that store, or a store with the same threads and
    active turns — that is, once a render has followed the end of the turn —
    an [item/progress] or [item/created] notification of [T] finds no
    session and leaves the whole state as it is.  (Nothing is said of a
    notification handled before that render: it is looked up in the earlier
    copy.) *)
Theorem X12_turn_routing cur cur' p meth prev mid :
  (∀ s, s ∈ prev → active_turn_id s = Some (p_turn_id p) →
        thread_id s = p_thread_id p) →
  same_turns (handleNotification cur "turn/started" p prev) mid →
  meth ∈ ["turn/completed"; "turn/error"] →
  (p_thread_id p ∈ thread_id <$> prev →
   ∃ session, find_by_turn (p_turn_id p) mid = Some session
              ∧ thread_id session = p_thread_id p)
  ∧ find_by_turn (p_turn_id p) (handleNotification cur' meth p mid) = None
  ∧ ∀ st meth' p',
      same_turns (handleNotification cur' meth p mid) (sessionRef st) →
      meth' ∈ ["item/progress"; "item/created"] → p_turn_id p' = p_turn_id p →
      find_by_turn (p_turn_id p) (sessionRef st) = None
      ∧ (∀ prev', handleNotification (sessionRef st) meth' p' prev' = prev')
      ∧ ∀ now ws,
          step now (EMessage ws (Parsed (mkInbound None None None (Some meth') p'))) st
          = st.
Proof.
  intros Hother Hmid Hmeth.
  assert (Hmain : (p_thread_id p ∈ thread_id <$> prev →
            ∃ session, find_by_turn (p_turn_id p) mid = Some session
                       ∧ thread_id session = p_thread_id p)
           ∧ find_by_turn (p_turn_id p) (handleNotification cur' meth p mid) = None).
  { set (during := handleNotification cur "turn/started" p prev) in *.
    assert (Hd : during = updateSession (p_thread_id p)
                            (set_active_turn_id (Some (p_turn_id p))) prev) by done.
    split.
    - intros Hin.
      assert (Hf : ∃ session, find_by_turn (p_turn_id p) during = Some session
                              ∧ thread_id session = p_thread_id p).
      { rewrite Hd. clear Hmid Hd during. unfold find_by_turn, updateSession.
        induction prev as [|s prev IH]; [by apply elem_of_nil in Hin|]. simpl.
        destruct (decide (thread_id s = p_thread_id p)) as [Ht|Ht].
        - rewrite (bool_decide_eq_true_2 _ Ht). simpl.
          rewrite bool_decide_eq_true_2 by done. by eexists.
        - rewrite (bool_decide_eq_false_2 _ Ht). case_bool_decide as Ha.
          + destruct Ht. apply Hother; [by left | done].
          + apply IH.
            * intros s' Hs'. apply Hother. by right.
            * rewrite fmap_cons in Hin. apply elem_of_cons in Hin as [Hin|Hin]; [|done].
              by destruct Ht. }
      destruct Hf as (session & Hf & Ht).
      pose proof (find_by_turn_same (p_turn_id p) _ _ Hmid) as Hs. rewrite Hf in Hs.
      destruct (find_by_turn (p_turn_id p) mid) as [s'|]; [|done].
      exists s'. split; [done|]. by rewrite Hs.
    - assert (Hmid' : ∀ s, s ∈ mid → active_turn_id s = Some (p_turn_id p) →
                           thread_id s = p_thread_id p).
      { intros s' Hs' Ha'.
        apply list_elem_of_lookup_1 in Hs' as [i Hi].
        destruct (Forall2_lookup_r _ _ _ _ _ Hmid Hi) as (s0 & Hi0 & Ht0 & Ha0).
        rewrite Ht0. rewrite Ha0 in Ha'. clear Hi Hmid. rewrite Hd in Hi0.
        unfold updateSession in Hi0. rewrite list_lookup_fmap in Hi0.
        destruct (prev !! i) as [s1|] eqn:H1; [|done]. injection Hi0 as <-.
        case_bool_decide as Ht1; [done|].
        apply Hother; [by eapply list_elem_of_lookup_2 | done]. }
      apply find_by_turn_None. intros s' Hs'.
      assert (Hm : handleNotification cur' meth p mid
                   = updateSession (p_thread_id p) finish_turn mid).
      { apply elem_of_cons in Hmeth as [->|Hmeth]; [done|].
        by apply list_elem_of_singleton in Hmeth as ->. }
      rewrite Hm in Hs'. unfold updateSession in Hs'.
      apply list_elem_of_fmap in Hs' as (s0 & -> & Hs0).
      case_bool_decide as Ht0; [done|].
      intros Ha. by apply Ht0, Hmid'. }
  destruct Hmain as [H1 H2]. split; [exact H1|]. split; [exact H2|].
  intros st meth' p' Hlater Hmeth' Hp'.
  assert (Hnone : find_by_turn (p_turn_id p) (sessionRef st) = None).
  { pose proof (find_by_turn_same (p_turn_id p) _ _ Hlater) as Hs.
    rewrite H2 in Hs. by destruct (find_by_turn (p_turn_id p) (sessionRef st)). }
  assert (Hdrop : ∀ prev', handleNotification (sessionRef st) meth' p' prev' = prev').
  { intros prev'. apply elem_of_cons in Hmeth' as [->|Hmeth'].
    - unfold handleNotification. simpl. by rewrite Hp', Hnone.
    - apply list_elem_of_singleton in Hmeth' as ->.
      unfold handleNotification. simpl. by rewrite Hp', Hnone. }
  split; [exact Hnone|]. split; [exact Hdrop|].
  intros now ws. simpl. destruct (sockets st !! ws); [|done].
  unfold onmessage. destruct (negb _); [done|]. simpl.
  apply setSessions_id, Hdrop.
Qed.

Lemma X12_turn_routing_witness :
  let prev := [started_session "/tmp" mode_default (mkResult "t1" 7 "")] in
  let mid := handleNotification [] "turn/started" turn_params prev in
  let after := handleNotification mid "turn/error" turn_params mid in
  let st := set_sessionRef after (run thread_trace initial) in
  (∃ session, find_by_turn "r1" mid = Some session ∧ thread_id session = "t1")
  ∧ find_by_turn "r1" after = None
  ∧ step 9 (EMessage 0 (Parsed (mkInbound None None None (Some "item/progress")
                                  (progress_params "r1" "late")))) st
    = st.
Proof.
  cbv zeta.
  set (prev := [started_session "/tmp" mode_default (mkResult "t1" 7 "")]).
  set (mid := handleNotification [] "turn/started" turn_params prev).
  destruct (X12_turn_routing [] mid turn_params "turn/error" prev mid)
    as (H1 & H2 & H3).
  - intros s Hs. apply list_elem_of_singleton in Hs as ->. discriminate.
  - subst mid. repeat constructor.
  - right. left.
  - split; [apply H1; left|]. split; [exact H2|].
    apply (H3 (set_sessionRef (handleNotification mid "turn/error" turn_params mid)
                 (run thread_trace initial))
              "item/progress" (progress_params "r1" "late")).
    + repeat constructor.
    + left.
    + reflexivity.
Defined.

Lemma Forall_map_intro {A} (P : A → Prop) (f : A → A) (l : list A) :
  (∀ x, P (f x)) → Forall P (map f l).
Proof. intros H. induction l; simpl; by constructor. Qed.

(** X13.  A permission denial and the banner of [ChatScreen].  On the
    sessions of its thread [turn/permission_denied] sets the denial flag,
    replaces the denials by the ones it carries, keeps the content to retry
    when there is one and otherwise takes the content of the latest user
    message, and changes nothing else; other sessions are untouched.
    [hasBlockedAction], which shows the banner, is then true exactly on the
    sessions with no active turn, and is true on every session of the thread
    once [turn/completed] or [turn/error] has arrived for it.
    [dismissPermissionDenial] makes it false again. *)
Theorem X13_permission_denied cur cur' p p' meth prev :
  p_thread_id p' = p_thread_id p → meth ∈ ["turn/completed"; "turn/error"] →
  let tid := p_thread_id p in
  let denied := handleNotification cur "turn/permission_denied" p prev in
  on_thread tid (denial_recorded (p_denials p)) prev denied
  ∧ Forall (λ s, thread_id s = tid → hasBlockedAction s = negb (isActive s)) denied
  ∧ Forall (λ s, thread_id s = tid → hasBlockedAction s = true)
      (handleNotification cur' meth p' denied)
  ∧ ∀ st, Forall (λ s, thread_id s = tid → hasBlockedAction s = false)
            (sessions (dismissPermissionDenial tid st)).
Proof.
  intros Hp Hmeth tid denied.
  assert (Hd : denied = updateSession tid
                 (λ s, set_lastBlockedContent
                         (match lastBlockedContent s with
                          | Some c => Some c
                          | None => last_user_content (messages s)
                          end)
                         (set_denial (Some true) (Some (p_denials p)) s)) prev) by done.
  assert (Hm : handleNotification cur' meth p' denied
               = updateSession tid finish_turn denied).
  { unfold tid. rewrite <- Hp.
    apply elem_of_cons in Hmeth as [->|Hmeth]; [done|].
    by apply list_elem_of_singleton in Hmeth as ->. }
  split; [|split; [|split]].
  - rewrite Hd. unfold on_thread, updateSession. clear.
    induction prev as [|s prev IH]; simpl; constructor; [|done].
    case_bool_decide; [|done]. by repeat split.
  - rewrite Hd. apply Forall_map_intro. intros s.
    case_bool_decide; [done|]. simpl. done.
  - rewrite Hm, Hd. unfold updateSession. rewrite map_map.
    apply Forall_map_intro. intros s. simpl.
    destruct (decide (thread_id s = tid)) as [Ht|Ht].
    + rewrite (bool_decide_eq_true_2 _ Ht). simpl.
      by rewrite (bool_decide_eq_true_2 _ Ht).
    + rewrite (bool_decide_eq_false_2 _ Ht). by rewrite (bool_decide_eq_false_2 _ Ht).
  - intros st. unfold dismissPermissionDenial. simpl.
    apply Forall_map_intro. intros s. by case_bool_decide.
Qed.

Lemma X13_permission_denied_witness :
  let denied := handleNotification [] "turn/permission_denied" turn_params [c6_session] in
  on_thread "t1" (denial_recorded (p_denials turn_params)) [c6_session] denied
  ∧ Forall (λ s, thread_id s = "t1" → hasBlockedAction s = negb (isActive s)) denied
  ∧ Forall (λ s, thread_id s = "t1" → hasBlockedAction s = true)
      (handleNotification [] "turn/completed" turn_params denied)
  ∧ ∀ st, Forall (λ s, thread_id s = "t1" → hasBlockedAction s = false)
            (sessions (dismissPermissionDenial "t1" st)).
Proof.
  apply (X13_permission_denied [] [] turn_params turn_params "turn/completed"
           [c6_session] eq_refl).
  left.
Defined.

End RouterMore.

(** ** The session operations that await a call *)

Section Operations.

Implicit Types (st : State) (r : PendingRec) (id : N) (e : Event).

Lemma run_cont_sessions k o st st' :
  sessions st = sessions st' → sessions (run_cont k o st) = sessions (run_cont k o st').
Proof. intros H. destruct k, o; simpl; by rewrite ?H. Qed.

(** An awaited call on an open connection: the request goes out, the store
    is left alone, and the continuation waits. *)
Lemma awaited_call_sent meth params now k st w :
  Inv st → socket_open st = Some w →
  let st1 := (let '(p, st1) := call meth params now st in await p k st1) in
  st1 = await (length (promises st)) k (call meth params now st).2
  ∧ sessions st1 = sessions st
  ∧ outbox st1 = outbox st ++ [(w, mkRequest (msgIdCounter st) meth params)].
Proof.
  intros [Hok _] Hw st1. subst st1. rewrite call_await_pair, call_promise.
  split; [done|].
  pose proof (call_await_cases meth params now k st) as Hc. cbv zeta in Hc.
  rewrite call_promise, Hw in Hc. split.
  - rewrite Hc. simpl. apply call_sessions.
  - pose proof (f_equal d_outbox (await_dispatch (length (promises st)) k
                                    (call meth params now st).2)) as Ho.
    pose proof (f_equal d_outbox (call_open_dispatch meth params now st w Hok Hw))
      as Ho'.
    simpl in Ho, Ho'. by rewrite Ho, Ho'.
Qed.

(** The same on a connection that is not open: nothing goes out and the
    continuation runs at once, with the rejection. *)
Lemma awaited_call_unsent meth params now k st :
  socket_open st = None →
  let st1 := (let '(p, st1) := call meth params now st in await p k st1) in
  sessions st1 = sessions (run_cont k (Rejected (not_open_error meth)) st)
  ∧ outbox st1 = outbox st.
Proof.
  intros Hw st1. subst st1. rewrite call_await_pair.
  pose proof (call_await_cases meth params now k st) as Hc. cbv zeta in Hc.
  rewrite Hw in Hc. split.
  - rewrite Hc. apply run_cont_sessions, call_sessions.
  - pose proof (f_equal d_outbox (await_dispatch (call meth params now st).1 k
                                    (call meth params now st).2)) as Ho.
    pose proof (f_equal d_outbox (call_closed_dispatch meth params now st Hw)) as Ho'.
    simpl in Ho, Ho'. by rewrite Ho, Ho'.
Qed.

(** X14.  [createSession], in a state the hook can reach, never changes the
    store at once.  If no socket is open nothing is sent.  Otherwise
    [thread/start] goes out with [cwd] and [permission_mode] under the next
    id, and the event that decides the call — the first response bearing its
    id, or its time-out — leaves the store as it was before that event, but
    for this: if it is a response with a result, a session is appended at the
    end of the store, with the [thread_id] and [created_at] of the result,
    the [cwd] and mode that were asked for, no messages, no turns, no active
    turn; an error response or the time-out adds nothing.  (A close event
    rejects all pending calls together and is not covered here.) *)
Theorem X14_createSession tr dir mode now :
  let st := run tr initial in
  let st1 := createSession dir mode now st in
  let id := msgIdCounter st in
  let r := call_record "thread/start" now st in
  sessions st1 = sessions st
  ∧ match socket_open st with
    | None => outbox st1 = outbox st
    | Some w =>
        outbox st1 = outbox st ++ [(w, mkRequest id "thread/start"
                                         (ThreadStartParams dir mode))]
        ∧ ∀ tr' now' e o,
            first_decision st1 id r tr' = None →
            decision (run tr' st1) id r now' e = Some o → is_close e = false →
            sessions (step now' e (run tr' st1))
            = match o with
              | Resolved v => sessions (run tr' st1) ++ [started_session dir mode v]
              | Rejected _ => sessions (run tr' st1)
              end
    end.
Proof.
  intros st. pose proof (reachable_Inv tr) as HI. fold st in HI. clearbody st.
  intros st1 id r. subst st1. unfold createSession.
  destruct (socket_open st) as [w|] eqn:Hw.
  - destruct (awaited_call_sent "thread/start" (ThreadStartParams dir mode) now
                (AfterThreadStart dir mode) st w HI Hw) as (E & Hs & Ho).
    split; [done|]. split; [done|].
    intros tr' now' e o Hf Hd Hc. rewrite E in Hf, Hd |- *.
    assert (Hopen : socket_open st ≠ None) by by rewrite Hw.
    rewrite (awaited_call_continues _ _ _ _ _ _ _ _ _ HI Hopen Hf Hd Hc).
    by destruct o.
  - destruct (awaited_call_unsent "thread/start" (ThreadStartParams dir mode) now
                (AfterThreadStart dir mode) st Hw) as (Hs & Ho).
    done.
Qed.

Lemma X14_createSession_witness :
  let st1 := createSession "/tmp" mode_default 3 (run ready_trace initial) in
  sessions st1 = []
  ∧ sessions (step 4 (EMessage 0 (result_response 2 (mkResult "t1" 7 ""))) (run [] st1))
    = sessions (run [] st1) ++ [started_session "/tmp" mode_default (mkResult "t1" 7 "")].
Proof.
  cbv zeta.
  pose proof (X14_createSession ready_trace "/tmp" mode_default 3) as H.
  cbv zeta in H.
  assert (Hw : socket_open (run ready_trace initial) = Some 0)
    by (vm_compute; reflexivity).
  assert (Hs : sessions (run ready_trace initial) = []) by (vm_compute; reflexivity).
  rewrite Hw, Hs in H. destruct H as (H1 & _ & H3).
  split; [exact H1|].
  apply (H3 [] 4%Z (EMessage 0 (result_response 2 (mkResult "t1" 7 "")))
           (Resolved (mkResult "t1" 7 "")) eq_refl); [|reflexivity].
  vm_compute. reflexivity.
Defined.

(** X15.  [deleteSession], in a state the hook can reach.  It looks the
    thread up in [sessionRef.current], the store as of the last render.  If
    the session found there has no active turn, or none is found, the
    sessions of the thread are removed from the store at once and nothing is
    sent.  If it has one, [turn/interrupt] is sent first and the store is
    left alone by the call; the event that decides the call — the first
    response bearing its id, or its time-out — removes the sessions of the
    thread from the store, whatever the outcome.  If no socket is open the
    call is rejected at once and the removal is immediate.  Sessions of other
    threads are kept, in order.  (A close event rejects all pending calls
    together and is not covered here.) *)
Theorem X15_deleteSession tr tid now :
  let st := run tr initial in
  let st1 := deleteSession tid now st in
  let id := msgIdCounter st in
  let r := call_record "turn/interrupt" now st in
  let others := List.filter (λ s, negb (bool_decide (thread_id s = tid))) in
  if interrupts_first tid st then
    match socket_open st with
    | None => sessions st1 = others (sessions st) ∧ outbox st1 = outbox st
    | Some w =>
        sessions st1 = sessions st
        ∧ outbox st1 = outbox st ++ [(w, mkRequest id "turn/interrupt"
                                           (TurnInterruptParams tid))]
        ∧ ∀ tr' now' e o,
            first_decision st1 id r tr' = None →
            decision (run tr' st1) id r now' e = Some o → is_close e = false →
            sessions (step now' e (run tr' st1)) = others (sessions (run tr' st1))
    end
  else st1 = setSessions others st.
Proof.
  intros st. pose proof (reachable_Inv tr) as HI. fold st in HI. clearbody st.
  intros st1 id r others. subst st1. unfold deleteSession, interrupts_first.
  destruct (find _ (sessionRef st)) as [session|]; [|done].
  destruct (nonempty (active_turn_id session)); [|done].
  destruct (socket_open st) as [w|] eqn:Hw.
  - destruct (awaited_call_sent "turn/interrupt" (TurnInterruptParams tid) now
                (AfterDeleteInterrupt tid) st w HI Hw) as (E & Hs & Ho).
    split; [done|]. split; [done|].
    intros tr' now' e o Hf Hd Hc. rewrite E in Hf, Hd |- *.
    assert (Hopen : socket_open st ≠ None) by by rewrite Hw.
    by rewrite (awaited_call_continues _ _ _ _ _ _ _ _ _ HI Hopen Hf Hd Hc).
  - by destruct (awaited_call_unsent "turn/interrupt" (TurnInterruptParams tid) now
                   (AfterDeleteInterrupt tid) st Hw) as (Hs & Ho).
Qed.

Lemma X15_deleteSession_witness :
  let st := run turn_trace initial in
  let st1 := deleteSession "t1" 9 st in
  interrupts_first "t1" st = true
  ∧ thread_id <$> sessions st1 = ["t1"]
  ∧ sessions (step 10 (EMessage 0 (error_response 4 "no such turn")) (run [] st1))
    = List.filter (λ s, negb (bool_decide (thread_id s = "t1"))) (sessions (run [] st1)).
Proof.
  cbv zeta.
  pose proof (X15_deleteSession turn_trace "t1" 9) as H. cbv zeta in H.
  assert (Hi : interrupts_first "t1" (run turn_trace initial) = true)
    by (vm_compute; reflexivity).
  assert (Hw : socket_open (run turn_trace initial) = Some 0)
    by (vm_compute; reflexivity).
  rewrite Hi, Hw in H. destruct H as (H1 & _ & H3).
  split; [exact Hi|]. split.
  - rewrite H1. vm_compute. reflexivity.
  - apply (H3 [] 10%Z (EMessage 0 (error_response 4 "no such turn"))
             (Rejected (ErrorPayload "no such turn")) eq_refl); [|reflexivity].
    vm_compute. reflexivity.
Defined.

(** X16.  [changePermissionMode], in a state the hook can reach, sends
    [approval/respond] with [approved: true] and the mode — the request of
    [approvePermission] — and leaves the store alone until the call is
    decided; the event that decides it — the first response bearing its id,
    or its time-out — sets [permission_mode] on the sessions of the thread,
    whatever the outcome.  If no socket is open the mode is set at once and
    nothing is sent.  No other field is written (the denial flags stay as
    they are) and no other session.  (A close event rejects all pending
    calls together and is not covered here.) *)
Theorem X16_changePermissionMode tr tid mode now :
  let st := run tr initial in
  let st1 := changePermissionMode tid mode now st in
  let id := msgIdCounter st in
  let r := call_record "approval/respond" now st in
  let changed := updateSession tid (set_permission_mode mode) in
  match socket_open st with
  | None => sessions st1 = changed (sessions st) ∧ outbox st1 = outbox st
  | Some w =>
      sessions st1 = sessions st
      ∧ outbox st1 = outbox st ++ [(w, mkRequest id "approval/respond"
                                         (ApprovalParams tid true (Some mode)))]
      ∧ ∀ tr' now' e o,
          first_decision st1 id r tr' = None →
          decision (run tr' st1) id r now' e = Some o → is_close e = false →
          sessions (step now' e (run tr' st1)) = changed (sessions (run tr' st1))
  end.
Proof.
  intros st. pose proof (reachable_Inv tr) as HI. fold st in HI. clearbody st.
  intros st1 id r changed. subst st1. unfold changePermissionMode.
  destruct (socket_open st) as [w|] eqn:Hw.
  - destruct (awaited_call_sent "approval/respond" (ApprovalParams tid true (Some mode))
                now (AfterChangeMode tid mode) st w HI Hw) as (E & Hs & Ho).
    split; [done|]. split; [done|].
    intros tr' now' e o Hf Hd Hc. rewrite E in Hf, Hd |- *.
    assert (Hopen : socket_open st ≠ None) by by rewrite Hw.
    by rewrite (awaited_call_continues _ _ _ _ _ _ _ _ _ HI Hopen Hf Hd Hc).
  - by destruct (awaited_call_unsent "approval/respond"
                   (ApprovalParams tid true (Some mode)) now
                   (AfterChangeMode tid mode) st Hw) as (Hs & Ho).
Qed.

Lemma X16_changePermissionMode_witness :
  let st1 := changePermissionMode "t1" dontAsk 9 (run turn_trace initial) in
  permission_mode <$> sessions st1 = [mode_default]
  ∧ sessions (step 30009 (ETimer 3) (run [] st1))
    = updateSession "t1" (set_permission_mode dontAsk) (sessions (run [] st1)).
Proof.
  cbv zeta.
  pose proof (X16_changePermissionMode turn_trace "t1" dontAsk 9) as H. cbv zeta in H.
  assert (Hw : socket_open (run turn_trace initial) = Some 0)
    by (vm_compute; reflexivity).
  rewrite Hw in H. destruct H as (H1 & _ & H3). split.
  - rewrite H1. vm_compute. reflexivity.
  - apply (H3 [] 30009%Z (ETimer 3)
             (Rejected (timeout_error "approval/respond" (30009 - 9))) eq_refl);
      [|reflexivity].
    vm_compute. reflexivity.
Defined.

(** X17.  [interruptTurn], in a state the hook can reach, sends
    [turn/interrupt] for the thread when a socket is open, and never writes
    the store: not when it is called, and not at the event that decides the
    call, be it a response with a result, an error response or the time-out.
    In particular it does not clear the active turn of the session itself;
    that is left to the server's notification.  (A close event rejects all
    pending calls together and is not covered here.) *)
Theorem X17_interruptTurn tr tid now :
  let st := run tr initial in
  let st1 := interruptTurn tid now st in
  let id := msgIdCounter st in
  let r := call_record "turn/interrupt" now st in
  sessions st1 = sessions st
  ∧ match socket_open st with
    | None => outbox st1 = outbox st
    | Some w =>
        outbox st1 = outbox st ++ [(w, mkRequest id "turn/interrupt"
                                         (TurnInterruptParams tid))]
        ∧ ∀ tr' now' e o,
            first_decision st1 id r tr' = None →
            decision (run tr' st1) id r now' e = Some o → is_close e = false →
            sessions (step now' e (run tr' st1)) = sessions (run tr' st1)
    end.
Proof.
  intros st. pose proof (reachable_Inv tr) as HI. fold st in HI. clearbody st.
  intros st1 id r. subst st1. unfold interruptTurn.
  destruct (socket_open st) as [w|] eqn:Hw.
  - destruct (awaited_call_sent "turn/interrupt" (TurnInterruptParams tid) now
                AfterInterrupt st w HI Hw) as (E & Hs & Ho).
    split; [done|]. split; [done|].
    intros tr' now' e o Hf Hd Hc. rewrite E in Hf, Hd |- *.
    assert (Hopen : socket_open st ≠ None) by by rewrite Hw.
    by rewrite (awaited_call_continues _ _ _ _ _ _ _ _ _ HI Hopen Hf Hd Hc).
  - by destruct (awaited_call_unsent "turn/interrupt" (TurnInterruptParams tid) now
                   AfterInterrupt st Hw) as (Hs & Ho).
Qed.

Lemma X17_interruptTurn_witness :
  let st := run turn_trace initial in
  let st1 := interruptTurn "t1" 9 st in
  sessions st1 = sessions st
  ∧ sessions (step 10 (EMessage 0 (result_response 4 (mkResult "" 0 ""))) (run [] st1))
    = sessions (run [] st1).
Proof.
  cbv zeta.
  pose proof (X17_interruptTurn turn_trace "t1" 9) as H. cbv zeta in H.
  assert (Hw : socket_open (run turn_trace initial) = Some 0)
    by (vm_compute; reflexivity).
  rewrite Hw in H. destruct H as (H1 & _ & H3). split; [exact H1|].
  apply (H3 [] 10%Z (EMessage 0 (result_response 4 (mkResult "" 0 "")))
           (Resolved (mkResult "" 0 "")) eq_refl); [|reflexivity].
  vm_compute. reflexivity.
Defined.

End Operations.

(** ** The session store *)

Section Store.

Variable R : Result → Prop.

Implicit Types (st : State) (r : PendingRec) (id : N) (e : Event).

Local Hint Resolve moves_refl : core.
Local Hint Extern 0 (resolves_in _ (Rejected _)) => exact I : core.

Lemma store_moves_once l l' : store_move R l l' → store_moves R l l'.
Proof. intros H. eapply moves_step; [exact H | apply moves_refl]. Qed.

Lemma store_moves_trans l1 l2 l3 :
  store_moves R l1 l2 → store_moves R l2 l3 → store_moves R l1 l3.
Proof.
  induction 1 as [|l l' l'' Hm _ IH]; [done|].
  intros H. eapply moves_step; [exact Hm | by apply IH].
Qed.

Lemma run_cont_moves k o st :
  resolves_in R o → store_moves R (sessions st) (sessions (run_cont k o st)).
Proof.
  intros Ho. destruct k; simpl; try done.
  - destruct o; [|done]. by apply store_moves_once, move_started.
  - apply store_moves_once, move_approved.
  - apply store_moves_once, move_mode.
  - apply store_moves_once, move_removed.
Qed.

Lemma settle_promise_moves p o st :
  resolves_in R o → store_moves R (sessions st) (sessions (settle_promise p o st)).
Proof.
  intros Ho. unfold settle_promise. simpl.
  destruct (promises st !! p) as [[[k|]|]|]; try done.
  by apply (run_cont_moves k o (set_promises _ (set_settled _ st))).
Qed.

Lemma await_moves p k st :
  (∀ o, promises st !! p = Some (Settled o) → resolves_in R o) →
  store_moves R (sessions st) (sessions (await p k st)).
Proof.
  intros Ho. unfold await. destruct (promises st !! p) as [[?|o]|]; try done.
  by apply run_cont_moves, Ho.
Qed.

Lemma pending_reject_moves r why st :
  store_moves R (sessions st) (sessions (pending_reject r why st)).
Proof.
  unfold pending_reject. destruct (completion r); [|done].
  by apply (settle_promise_moves _ _ (clearTimeout _ st)).
Qed.

Lemma pending_resolve_moves r v st :
  R v → store_moves R (sessions st) (sessions (pending_resolve r v st)).
Proof.
  intros Hv. unfold pending_resolve. destruct (completion r); [|done].
  by apply (settle_promise_moves _ _ (clearTimeout _ st)).
Qed.

Lemma reject_all_moves why l st :
  store_moves R (sessions st) (sessions (reject_all why l st)).
Proof.
  revert st. induction l as [|[id r] l IH]; intros st; [done|].
  change (reject_all why ((id, r) :: l) st)
    with (reject_all why l (pending_reject r why st)).
  eapply store_moves_trans; [apply pending_reject_moves | apply IH].
Qed.

Lemma rejectAllPending_moves reason st :
  store_moves R (sessions st) (sessions (rejectAllPending reason st)).
Proof.
  destruct (rejectAllPending_reject_all reason st) as [-> | [_ ->]]; [|done].
  apply (reject_all_moves (JsError reason) (pendingRef st)).
Qed.

Lemma call_await_moves meth params now k st :
  store_moves R (sessions st)
    (sessions (let '(p, st1) := call meth params now st in await p k st1)).
Proof.
  rewrite call_await_pair.
  destruct (call_sessions meth params now st) as [Hs Hp].
  rewrite <- Hs. apply await_moves. rewrite call_promise, Hp. intros o.
  destruct (socket_open st); by intros [= <-].
Qed.

Lemma onclose_moves ws code reason st :
  store_moves R (sessions st) (sessions (onclose ws code reason st)).
Proof.
  unfold onclose.
  assert (H : store_moves R (sessions st)
                (sessions (if bool_decide (wsRef st = Some ws)
                           then rejectAllPending
                                  ("WebSocket closed (code=" +:+ pretty code +:+ ")")
                                  (set_wsRef None st)
                           else st))).
  { destruct (bool_decide _); [|done].
    apply (rejectAllPending_moves _ (set_wsRef None st)). }
  repeat case_bool_decide; exact H.
Qed.

Lemma fire_timer_moves h now st :
  store_moves R (sessions st) (sessions (fire_timer h now st)).
Proof.
  unfold fire_timer. destruct (timers st !! h) as [[t|]|]; try done.
  destruct (callback t); simpl; destruct (pending_has _ _); simpl; try done.
  by apply (settle_promise_moves _ _ (set_pendingRef _ (clearTimeout h st))).
Qed.

Lemma close_socket_sessions w st : sessions (close_socket w st) = sessions st.
Proof.
  unfold close_socket. destruct (sockets st !! w) as [s|]; [|done].
  by destruct (readyState s).
Qed.

Lemma connect_sessions serverUrl st : sessions (connect serverUrl st) = sessions st.
Proof.
  unfold connect. destruct (same_live_socket _ _); [done|]. simpl.
  destruct (wsRef st); [apply close_socket_sessions | done].
Qed.

End Store.

Section StoreSteps.

Implicit Types (st : State) (r : PendingRec) (id : N) (e : Event).

Lemma onmessage_moves ws data st :
  store_moves (answered (EMessage ws data)) (sessions st)
    (sessions (onmessage ws data st)).
Proof.
  unfold onmessage. destruct (negb _); [apply moves_refl|].
  destruct data as [|msg]; [apply moves_refl|].
  assert (Hn : store_moves (answered (EMessage ws (Parsed msg))) (sessions st)
                 (sessions match in_method msg with
                           | Some meth =>
                               setSessions (handleNotification (sessionRef st) meth
                                              (in_params msg)) st
                           | None => st
                           end)).
  { destruct (in_method msg);
      [apply store_moves_once, move_notify | apply moves_refl]. }
  destruct (in_id msg) as [[id|?]|], (in_error msg) as [err|],
    (in_result msg) as [v|] eqn:Hv;
    try exact Hn; try apply moves_refl;
    (destruct (pending_get id (pendingRef st)) as [r|]; [|apply moves_refl]).
  - apply (pending_reject_moves _ _ _ (set_pendingRef _ st)).
  - apply (pending_reject_moves _ _ _ (set_pendingRef _ st)).
  - by apply (pending_resolve_moves _ _ _ (set_pendingRef _ st)).
Qed.

(** Every event other than a bare [setLastBlocked] changes the store by a
    sequence of these updates, and adds a session only for the result it
    carries. *)
Lemma step_moves now e st :
  (∀ tid text, e ≠ ESetLastBlocked tid text) →
  store_moves (answered e) (sessions st) (sessions (step now e st)).
Proof.
  intros Hne. destruct e; simpl; try apply call_await_moves.
  - rewrite connect_sessions. apply moves_refl.
  - apply store_moves_once. unfold disconnect. simpl. apply move_cleared.
  - unfold sendMessage. eapply store_moves_trans; [|apply call_await_moves].
    apply store_moves_once. simpl. apply move_sent.
  - by destruct (Hne tid text).
  - apply store_moves_once, move_dismissed.
  - unfold deleteSession.
    destruct (find _ _) as [s|]; [|apply store_moves_once, move_removed].
    destruct (nonempty _);
      [apply call_await_moves | apply store_moves_once, move_removed].
  - unfold socket_opened. destruct (sockets st !! ws) as [s|]; [|apply moves_refl].
    destruct (bool_decide _); [|apply moves_refl].
    unfold onopen. destruct (negb _); apply moves_refl.
  - destruct (sockets st !! ws); [apply onmessage_moves | apply moves_refl].
  - unfold socket_closed. destruct (sockets st !! ws) as [s|]; [|apply moves_refl].
    apply (onclose_moves _ _ _ _ (set_sockets _ st)).
  - apply fire_timer_moves.
  - apply moves_refl.
Qed.

End StoreSteps.

Section Retry.

Implicit Types (s : Session) (m : ChatMessage) (msgs : list ChatMessage).

Lemma filter_snoc_false {A} (f : A → bool) l x :
  f x = false → List.filter f (l ++ [x]) = List.filter f l.
Proof. intros H. rewrite List.filter_app. simpl. rewrite H. apply app_nil_r. Qed.

Lemma filter_insert_false {A} (f : A → bool) l i x y :
  l !! i = Some x → f x = false → f y = false →
  List.filter f (<[ i := y ]> l) = List.filter f l.
Proof.
  revert i. induction l as [|a l IH]; intros [|i] Hl Hx Hy; simpl in *; try done.
  - injection Hl as ->. by rewrite Hx, Hy.
  - by rewrite (IH i).
Qed.

Lemma filter_filter_keep {A} (f g : A → bool) l :
  (∀ x, x ∈ l → f x = true → g x = true) →
  List.filter f (List.filter g l) = List.filter f l.
Proof.
  induction l as [|a l IH]; intros H; [done|]. simpl.
  assert (Hl : ∀ x, x ∈ l → f x = true → g x = true).
  { intros x Hx. apply H. by right. }
  destruct (g a) eqn:Hg; simpl.
  - by rewrite IH.
  - destruct (f a) eqn:Hf; [|by apply IH].
    rewrite (H a) in Hg; [done| by left | done].
Qed.

Lemma Forall_List_filter {A} (P : A → Prop) (f : A → bool) l :
  Forall P l → Forall P (List.filter f l).
Proof.
  induction 1 as [|a l Ha _ IH]; simpl; [done|]. destruct (f a); by try constructor.
Qed.

Lemma role_not_user m : role m = assistant → bool_decide (role m = user) = false.
Proof. intros H. apply bool_decide_eq_false. by rewrite H. Qed.

Lemma assistant_ok m : role m = assistant → user_message_ok m.
Proof. intros H Hu. by rewrite H in Hu. Qed.

Lemma findIndex_Some key l idx :
  findIndex key l = Some idx → ∃ x, l !! idx = Some x ∧ msg_id x = key.
Proof.
  revert idx. induction l as [|a l IH]; intros idx; simpl; [done|].
  case_bool_decide as Ha.
  - intros [= <-]. by exists a.
  - destruct (findIndex key l) as [i|]; [|done]. intros [= <-].
    destruct (IH i eq_refl) as (x & Hx & Hk). by exists x.
Qed.

Lemma user_not_turn m tid :
  user_message_ok m → msg_id m = "turn-" +:+ tid → role m = assistant.
Proof.
  intros Hok Hid. destruct (role m) eqn:Hr; [|done].
  destruct (Hok Hr) as (_ & n & Hn). rewrite Hn in Hid. done.
Qed.

Lemma progress_coherent tid text msgs :
  Forall user_message_ok msgs →
  Forall user_message_ok (progress_messages tid text msgs)
  ∧ last_user_content (progress_messages tid text msgs) = last_user_content msgs.
Proof.
  intros Hok. unfold progress_messages, last_user_content.
  assert (Happ : ∀ m, role m = assistant →
            Forall user_message_ok (msgs ++ [m])
            ∧ content <$> last (List.filter (λ m, bool_decide (role m = user))
                                  (msgs ++ [m]))
              = content <$> last (List.filter (λ m, bool_decide (role m = user)) msgs)).
  { intros m Hm. split.
    - apply Forall_app. split; [done|]. constructor; [|done]. by apply assistant_ok.
    - rewrite filter_snoc_false; [done|]. by apply role_not_user. }
  destruct (last msgs) as [lastMsg|] eqn:Hl; [|by apply Happ].
  destruct (bool_decide (role lastMsg = assistant) && truthy (isStreaming lastMsg))
    eqn:Hc; [|by apply Happ].
  apply andb_prop in Hc as [Hr _]. apply bool_decide_eq_true in Hr.
  assert (Hi : msgs !! (length msgs - 1) = Some lastMsg).
  { rewrite last_lookup in Hl.
    by replace (length msgs - 1) with (pred (length msgs)) by lia. }
  split.
  - apply Forall_insert; [done|]. by apply assistant_ok.
  - rewrite (filter_insert_false _ _ _ lastMsg); [done|done| |];
      by apply role_not_user.
Qed.

Lemma created_coherent tid it msgs :
  Forall user_message_ok msgs →
  Forall user_message_ok (created_messages tid it msgs)
  ∧ last_user_content (created_messages tid it msgs) = last_user_content msgs.
Proof.
  intros Hok. unfold created_messages, last_user_content.
  set (keep := λ m, negb (truthy (isStreaming m)
                          && bool_decide (item_type (si_item it) = "text"))).
  assert (Hf : Forall user_message_ok (List.filter keep msgs))
    by by apply Forall_List_filter.
  assert (Hu : List.filter (λ m, bool_decide (role m = user)) (List.filter keep msgs)
               = List.filter (λ m, bool_decide (role m = user)) msgs).
  { apply filter_filter_keep. intros m Hm Hr. apply bool_decide_eq_true in Hr.
    rewrite Forall_forall in Hok. destruct (Hok m Hm Hr) as [Hs _].
    unfold keep. by rewrite Hs. }
  cbv zeta.
  destruct (find _ (List.filter keep msgs)) as [assistantMsg|] eqn:Hfind.
  - apply find_some in Hfind as [_ Ha]. apply andb_prop in Ha as [Ha _].
    apply bool_decide_eq_true in Ha.
    destruct (findIndex _ _) as [idx|] eqn:Hidx; [|by rewrite Hu].
    apply findIndex_Some in Hidx as (x & Hx & Hk).
    assert (Hxr : role x = assistant).
    { eapply user_not_turn; [|exact Hk].
      rewrite Forall_forall in Hf. apply Hf. by eapply list_elem_of_lookup_2. }
    split.
    + apply Forall_insert; [done|]. by apply assistant_ok.
    + rewrite (filter_insert_false _ _ _ x); [by rewrite Hu|done| |];
        by apply role_not_user.
  - split.
    + apply Forall_app. split; [done|]. constructor; [|done]. by apply assistant_ok.
    + rewrite filter_snoc_false; [by rewrite Hu|done].
Qed.

Lemma finish_coherent msgs :
  let msgs' := map (λ m, if truthy (isStreaming m)
                         then set_items (Some (nullish (items m) []))
                                (set_isStreaming (Some false) m)
                         else m) msgs in
  Forall user_message_ok msgs →
  Forall user_message_ok msgs' ∧ last_user_content msgs' = last_user_content msgs.
Proof.
  intros msgs' Hok. subst msgs'. split.
  - apply Forall_map. eapply Forall_impl; [exact Hok|].
    intros m Hm. simpl. destruct (truthy (isStreaming m)) eqn:Hs; [|done].
    intros Hr. destruct (Hm Hr) as [H _]. congruence.
  - unfold last_user_content. induction Hok as [|m msgs Hm _ IH]; [done|].
    simpl.
    assert (Hsame : ∀ m', m' = (if truthy (isStreaming m)
                               then set_items (Some (nullish (items m) []))
                                      (set_isStreaming (Some false) m)
                               else m) →
                           role m' = role m ∧ content m' = content m).
    { intros m' ->. by destruct (truthy _). }
    destruct (Hsame _ eq_refl) as [Hr Hc]. rewrite Hr.
    case_bool_decide; [|exact IH].
    rewrite !last_cons.
    destruct (last (List.filter _ (map _ msgs))), (last (List.filter _ msgs));
      simpl in *; try done. by rewrite Hc.
Qed.

End Retry.

Section RetryStore.

Implicit Types (s : Session) (st : State).

Lemma store_move_threads R l l' s' :
  store_move R l l' → s' ∈ l' →
  thread_id s' ∈ thread_id <$> l ∨ ∃ v, R v ∧ thread_id s' = r_thread_id v.
Proof.
  intros Hm Hs'. destruct Hm.
  - left. pose proof (notification_identity cur meth p l) as H.
    apply list_elem_of_lookup_1 in Hs' as [i Hi].
    destruct (Forall2_lookup_r _ _ _ _ _ H Hi) as (s & Hs & Ht & _).
    rewrite Ht. apply list_elem_of_fmap. exists s. split; [done|].
    by eapply list_elem_of_lookup_2.
  - apply elem_of_app in Hs' as [Hs'|Hs'].
    + left. apply list_elem_of_fmap. by exists s'.
    + apply list_elem_of_singleton in Hs' as ->. right. by exists r.
  - left. unfold updateSession in Hs'. apply list_elem_of_fmap in Hs' as (s & -> & Hs).
    apply list_elem_of_fmap. exists s. split; [by case_bool_decide | done].
  - left. unfold updateSession in Hs'. apply list_elem_of_fmap in Hs' as (s & -> & Hs).
    apply list_elem_of_fmap. exists s. split; [by case_bool_decide | done].
  - left. apply list_elem_of_In, filter_In in Hs' as [Hs' _].
    apply list_elem_of_fmap. exists s'. split; [done | by apply list_elem_of_In].
  - left. apply list_elem_of_fmap in Hs' as (s & -> & Hs).
    apply list_elem_of_fmap. exists s. split; [by case_bool_decide | done].
  - left. unfold updateSession in Hs'. apply list_elem_of_fmap in Hs' as (s & -> & Hs).
    apply list_elem_of_fmap. exists s. split; [by case_bool_decide | done].
  - by apply elem_of_nil in Hs'.
Qed.

Lemma store_moves_threads R l l' s' :
  store_moves R l l' → s' ∈ l' →
  thread_id s' ∈ thread_id <$> l ∨ ∃ v, R v ∧ thread_id s' = r_thread_id v.
Proof.
  induction 1 as [|l l' l'' Hm _ IH]; intros Hs'.
  - left. apply list_elem_of_fmap. by exists s'.
  - destruct (IH Hs') as [Hin|Hv]; [|by right].
    apply list_elem_of_fmap in Hin as (s & -> & Hs).
    by eapply store_move_threads.
Qed.

(** X18.  The hook never makes up a session.  Whatever the event, a
    session of the store after it has the [thread_id] of a session that was
    in the store before, unless the event is an inbound message that carries
    a result with that [thread_id] (the answer to a [thread/start]).  No
    operation, timer, close event or render adds a thread. *)
Theorem X18_sessions_from_server now e st s' :
  s' ∈ sessions (step now e st) →
  thread_id s' ∈ thread_id <$> sessions st
  ∨ ∃ v, answered e v ∧ thread_id s' = r_thread_id v.
Proof.
  intros Hs'.
  destruct e; try (eapply store_moves_threads; [by apply step_moves | exact Hs']).
  left. simpl in Hs'. unfold updateSession in Hs'.
  apply list_elem_of_fmap in Hs' as (s & -> & Hs).
  apply list_elem_of_fmap. exists s. split; [by case_bool_decide | done].
Qed.

Lemma X18_sessions_from_server_witness :
  let st := run (ready_trace ++ [(3%Z, ECreateSession "/tmp" mode_default)]) initial in
  let e := EMessage 0 (result_response 2 (mkResult "t1" 7 "")) in
  let s' := started_session "/tmp" mode_default (mkResult "t1" 7 "") in
  s' ∈ sessions (step 4 e st)
  ∧ (thread_id s' ∈ thread_id <$> sessions st
     ∨ ∃ v, answered e v ∧ thread_id s' = r_thread_id v).
Proof.
  cbv zeta.
  assert (Hin : started_session "/tmp" mode_default (mkResult "t1" 7 "")
                ∈ sessions (step 4 (EMessage 0 (result_response 2 (mkResult "t1" 7 "")))
                              (run (ready_trace
                                    ++ [(3%Z, ECreateSession "/tmp" mode_default)])
                                 initial))).
  { vm_compute. left. }
  split; [exact Hin|].
  exact (X18_sessions_from_server 4 _ _ _ Hin).
Defined.

Lemma Forall_map_pres {A} (P : A → Prop) (f : A → A) (l : list A) :
  (∀ x, P x → P (f x)) → Forall P l → Forall P (map f l).
Proof. intros H. induction 1; simpl; constructor; auto. Qed.

Lemma store_move_coherent R l l' :
  store_move R l l' → Forall retry_coherent l → Forall retry_coherent l'.
Proof.
  intros Hm Hl. destruct Hm.
  - unfold handleNotification, updateSession.
    destruct (bool_decide (meth = "initialized")); [done|].
    destruct (bool_decide (meth = "turn/started")).
    { apply Forall_map_pres; [|done]. intros x Hx. by case_bool_decide. }
    destruct (bool_decide (meth = "item/progress")).
    { destruct (find_by_turn _ _) as [session|]; [|done].
      destruct (_ && _); [|done].
      apply Forall_map_pres; [|done]. intros x [Hx1 Hx2]. case_bool_decide; [done|].
      unfold retry_coherent. simpl.
      destruct (progress_coherent (p_turn_id p) (nullish (delta_text (p_delta p)) "")
                  (messages x) Hx1) as [H1 H2].
      by rewrite H2. }
    destruct (bool_decide (meth = "item/created")).
    { destruct (find_by_turn _ _) as [session|]; [|done].
      apply Forall_map_pres; [|done]. intros x [Hx1 Hx2]. case_bool_decide; [done|].
      unfold retry_coherent. simpl.
      destruct (created_coherent (p_turn_id p) (p_item p) (messages x) Hx1) as [H1 H2].
      by rewrite H2. }
    destruct (bool_decide (meth = "turn/permission_denied")).
    { apply Forall_map_pres; [|done]. intros x [Hx1 Hx2]. case_bool_decide; [|done].
      unfold retry_coherent. simpl. split; [done|].
      by destruct (lastBlockedContent x). }
    destruct (_ || _); [|done].
    apply Forall_map_pres; [|done]. intros x [Hx1 Hx2]. case_bool_decide; [|done].
    unfold retry_coherent, finish_turn. simpl.
    destruct (finish_coherent (messages x) Hx1) as [H1 H2]. by rewrite H2.
  - apply Forall_app. split; [done|]. constructor; [|done]. by split.
  - apply Forall_map_pres; [|done]. intros x Hx. by case_bool_decide.
  - apply Forall_map_pres; [|done]. intros x Hx. by case_bool_decide.
  - by apply Forall_List_filter.
  - apply Forall_map_pres; [|done]. intros x [Hx1 Hx2]. case_bool_decide; [done|].
    unfold retry_coherent, append_user_message, last_user_content. simpl. split.
    + apply Forall_app. split; [done|]. constructor; [|done].
      intros _. split; [done|]. by eexists.
    + rewrite List.filter_app. simpl. by rewrite last_snoc.
  - apply Forall_map_pres; [|done]. intros x Hx. by case_bool_decide.
  - done.
Qed.

Lemma store_moves_coherent R l l' :
  store_moves R l l' → Forall retry_coherent l → Forall retry_coherent l'.
Proof. induction 1; [done|]. intros H'. eauto using store_move_coherent. Qed.

(** X19.  The content kept for a retry is the latest user message.  Call a
    session coherent when [lastBlockedContent] is the content of its latest
    user message (and undefined when it has none), its user messages being
    as [sendMessage] makes them.  If the sessions of [st] are coherent, so
    are the sessions after any run of events in which [setLastBlocked] is not
    called on its own — as in the application, which calls it only from
    [handleSendMessage], just before [sendMessage].  So the content
    [turn/permission_denied] falls back to, the latest user message, is the
    content already recorded, and the session the server adds starts with
    none. *)
Theorem X19_retry_content tr st :
  Forall retry_coherent (sessions st) →
  Forall (λ ne, ∀ tid text, ne.2 ≠ ESetLastBlocked tid text) tr →
  Forall retry_coherent (sessions (run tr st)).
Proof.
  intros Hst Htr. revert st Hst.
  induction Htr as [|[now e] tr He _ IH]; intros st Hst; [done|].
  simpl. apply IH. eapply store_moves_coherent; [|exact Hst].
  by apply step_moves.
Qed.

Lemma X19_retry_content_witness :
  Forall retry_coherent (sessions (run turn_trace initial)).
Proof.
  apply (X19_retry_content turn_trace initial).
  - constructor.
  - repeat constructor; intros tid text; discriminate.
Defined.

(** X20.  [App.handleSendMessage] is [sendMessage]: the [setLastBlocked]
    it calls first writes [lastBlockedContent], which the update of
    [sendMessage] writes again with the same content, so from every state the
    two end in the same state — the same store, the same request sent or the
    same rejection. *)
Theorem X20_handleSendMessage tid text model now st :
  handleSendMessage tid text model now st = sendMessage tid text model now st.
Proof.
  unfold handleSendMessage, sendMessage, setLastBlocked.
  replace (setSessions _ (setSessions _ st))
    with (setSessions (map (λ s, if bool_decide (thread_id s ≠ tid) then s
                                 else append_user_message now text s)) st); [done|].
  unfold setSessions. simpl. f_equal. unfold updateSession. rewrite map_map.
  apply map_ext. intros s. repeat case_bool_decide; done.
Qed.

End RetryStore.
